(** * Segflow engine: a shallow embedding of the server code

    The development follows the server sources:
    - [quickjs.ts]     the sandbox ([executeGeneratorToIndex]);
    - [evaluators.ts]  segment/campaign evaluation and the flow executor;
    - [config.ts]      the configuration diff ([analyzeConfig],
                       [executeConfigDelta]);
    - [services.ts]    [createConfig] and the services on users, events,
                       segments, campaigns, templates, transactions and the
                       email provider;
    - [email.ts]       [getEmailProvider], [sendEmail];
    - [schema.ts]      the tables and their foreign keys.

    JavaScript values are a small JSON-like datatype, database tables are
    finite maps and sets keyed by their primary keys, and code that reads
    and writes the database is written in a state-and-exception monad whose
    state survives a [throw] (a statement that already ran inside a
    transaction stays until the transaction is rolled back). *)

From Stdlib Require Import ZArith Ascii String.
From stdpp Require Import gmap strings list fin_maps sorting pretty.

Local Open Scope string_scope.
Set Warnings "-register-all,-clear-no-such-hyp".

(** ** JavaScript values *)

(** Numbers are integers: step indices, timestamps in milliseconds and the
    components of a duration.  Fractions, [NaN] and the infinities are not
    represented. *)
Inductive JSValue : Type :=
  | JUndefined
  | JNull
  | JBool (b : bool)
  | JNum (n : Z)
  | JStr (s : string)
  | JArr (items : list JSValue)
  | JObj (props : list (string * JSValue)).

(** [!!v] is [negb (truthy v)]. *)
Definition truthy (v : JSValue) : bool :=
  match v with
  | JUndefined | JNull => false
  | JBool b => b
  | JNum n => negb (n =? 0)%Z
  | JStr s => negb (String.eqb s "")
  | JArr _ | JObj _ => true
  end.

Definition nullish (v : JSValue) : bool :=
  match v with
  | JUndefined | JNull => true
  | _ => false
  end.

Fixpoint assoc {A : Type} (k : string) (l : list (string * A)) : option A :=
  match l with
  | [] => None
  | (k', v) :: l' => if String.eqb k k' then Some v else assoc k l'
  end.

(** [v?.k]: the own property [k] of an object, [undefined] otherwise. *)
Definition prop (v : JSValue) (k : string) : JSValue :=
  match v with
  | JObj props => default JUndefined (assoc k props)
  | _ => JUndefined
  end.

(** [v === "s"] *)
Definition is_str (v : JSValue) (s : string) : bool :=
  match v with
  | JStr s' => String.eqb s' s
  | _ => false
  end.

(** ** Results of code that may throw *)

Inductive outcome (A : Type) : Type :=
  | Ok (a : A)
  | Throw (message : string).
Arguments Ok {A} a.
Arguments Throw {A} message.

(** [v.k]: reading a property of [undefined] or [null] is a TypeError. *)
Definition get (v : JSValue) (k : string) : outcome JSValue :=
  if nullish v then Throw ("Cannot read properties of undefined (reading '" ++ k ++ "')")
  else Ok (prop v k).

(** ** The sandbox: [executeGeneratorToIndex] *)

Record GeneratorResult : Type := {
  value : JSValue;
  done : bool;
  attributes : JSValue
}.

Section Sandbox.
(** The QuickJS virtual machine is external.  A suspended generator is a
    state [Gen]; [evalFlow code] evaluates [(code)(ctx, rt);] and
    [next g a] is one call of [vmGenerator.next()] made while
    [ctx.attributes] is bound to [a]: the dumped [{value, done}] together
    with the dump of [ctx.attributes] read back afterwards. *)
Context {Gen : Type}.

Inductive IterResult : Type :=
  | IterYield (v : JSValue) (g' : Gen) (attrs' : JSValue)
  | IterReturn (v : JSValue) (attrs' : JSValue)
  | IterThrow (message : string).

Variable evalFlow : string -> outcome Gen.
Variable next : Gen -> JSValue -> IterResult.

(** The loop [for (let i = 0; i <= targetIndex; i++)], with [remaining]
    iterations left; [last] holds [value], [done] and [attributes] as
    assigned so far. *)
Fixpoint driveGenerator (attributeStates : list JSValue) (remaining i : nat)
    (vmGenerator : Gen) (last : GeneratorResult) : outcome GeneratorResult :=
  match remaining with
  | O => Ok last
  | S remaining' =>
      let newAttributes := default JUndefined (attributeStates !! i) in
      match next vmGenerator newAttributes with
      | IterThrow e => Throw e
      | IterReturn v a =>
          Ok {| value := v; done := true; attributes := a |}
      | IterYield v g a =>
          driveGenerator attributeStates remaining' (S i) g
            {| value := v; done := false; attributes := a |}
      end
  end.

Definition executeGeneratorToIndex (generatorCode : string)
    (attributeStates : list JSValue) (targetIndex : Z)
    : outcome GeneratorResult :=
  match evalFlow generatorCode with
  | Throw e => Throw e
  | Ok vmGenerator =>
      driveGenerator attributeStates (Z.to_nat (targetIndex + 1)) 0 vmGenerator
        {| value := JUndefined; done := false; attributes := JUndefined |}
  end.

(** *** The run of a flow program, as the specification words it *)

(** [yields_through g attrs v a']: presented with the attribute states
    [attrs] one by one, each bound immediately before an advance, the
    program produces [length attrs] yields; the last yielded value is [v]
    and [ctx.attributes] reads [a'] after it. *)
Inductive yields_through : Gen -> list JSValue -> JSValue -> JSValue -> Prop :=
  | yields_last g a v g' a' :
      next g a = IterYield v g' a' ->
      yields_through g [a] v a'
  | yields_more g a rest v0 g0 a0 v a' :
      next g a = IterYield v0 g0 a0 ->
      yields_through g0 rest v a' ->
      yields_through g (a :: rest) v a'.

(** [returns_within g attrs v a']: the program yields [length attrs - 1]
    times and returns [v] on the next advance, [ctx.attributes] reading
    [a'] afterwards. *)
Inductive returns_within : Gen -> list JSValue -> JSValue -> JSValue -> Prop :=
  | returns_now g a v a' :
      next g a = IterReturn v a' ->
      returns_within g [a] v a'
  | returns_later g a rest v0 g0 a0 v a' :
      next g a = IterYield v0 g0 a0 ->
      returns_within g0 rest v a' ->
      returns_within g (a :: rest) v a'.
End Sandbox.

(** ** Deep equality of attribute documents ([fast-deep-equal]) *)

(** Arrays are compared position by position; objects have the same number
    of keys, and every key of the first is a key of the second with a
    deep-equal value; primitives are compared with [===]. *)
Fixpoint equal (a b : JSValue) {struct a} : bool :=
  match a, b with
  | JUndefined, JUndefined => true
  | JNull, JNull => true
  | JBool x, JBool y => Bool.eqb x y
  | JNum x, JNum y => (x =? y)%Z
  | JStr x, JStr y => String.eqb x y
  | JArr xs, JArr ys =>
      (fix items (xs ys : list JSValue) {struct xs} : bool :=
         match xs, ys with
         | [], [] => true
         | x :: xs', y :: ys' => equal x y && items xs' ys'
         | _, _ => false
         end) xs ys
  | JObj ps, JObj qs =>
      (length ps =? length qs)%nat
      && forallb (fun p => bool_decide (is_Some (assoc p.1 qs))) ps
      && (fix values (ps : list (string * JSValue)) {struct ps} : bool :=
            match ps with
            | [] => true
            | (k, v) :: ps' =>
                match assoc k qs with
                | Some w => equal v w
                | None => false
                end && values ps'
            end) ps
  | _, _ => false
  end.

(** ** The tables ([schema.ts]) *)

Inductive Behavior : Type := static | dynamic.

Inductive Status : Type :=
  | pending | sleeping | running | completed | failed | terminated.

Record Campaign : Type := {
  flow : string;
  behavior : Behavior
}.

Record Execution : Type := {
  status : Status;
  sleepUntil : Z;
  error : option string
}.

Record Template : Type := {
  subject : string;
  html : string;
  preamble : string
}.

(** [EmailProviderConfig] of [types.ts]: an object whose values are
    strings, held as the list of its entries in the order of its keys. *)
Definition EmailProviderConfig : Type := list (string * string).

Definition postmark (apiKey : string) : EmailProviderConfig :=
  [("name", "postmark"); ("apiKey", apiKey)].

Definition ses (accessKeyId secretAccessKey region : string)
    : EmailProviderConfig :=
  [("name", "ses"); ("accessKeyId", accessKeyId);
   ("secretAccessKey", secretAccessKey); ("region", region)].

(** [EmailProvider] of [types.ts].  The order of the keys is part of the
    document, since [JSON.stringify] tells two orders apart: [config]
    lists its entries in key order, and [configFirst] says whether the key
    [config] comes before the key [fromAddress]. *)
Record EmailProvider : Type := {
  config : EmailProviderConfig;
  fromAddress : string;
  configFirst : bool
}.

Record Email : Type := {
  to : JSValue;
  emailSubject : string;
  emailHtml : string
}.

#[global] Instance Behavior_eq_dec : EqDecision Behavior.
Proof. solve_decision. Defined.
#[global] Instance Status_eq_dec : EqDecision Status.
Proof. solve_decision. Defined.
#[global] Instance EmailProviderConfig_eq_dec : EqDecision EmailProviderConfig.
Proof. unfold EmailProviderConfig. apply _. Defined.
#[global] Instance EmailProvider_eq_dec : EqDecision EmailProvider.
Proof. solve_decision. Defined.

(** A configuration as pushed by the operator ([Segflow] in [types.ts]).
    A [Record<string, T>] is the list of its entries in [Object.keys]
    order. *)
Module CampaignConfig.
Record t : Type := {
  flow : string;
  behavior : Behavior;
  segments : list string;
  excludeSegments : option (list string)
}.
End CampaignConfig.

Module Transaction.
Record t : Type := {
  event : string;
  subject : string;
  html : string;
  preamble : string
}.
End Transaction.

Module Segflow.
Record t : Type := {
  templates : list (string * Template);
  segments : list (string * string);
  campaigns : list (string * CampaignConfig.t);
  transactions : list (string * Transaction.t);
  emailProvider : EmailProvider
}.
End Segflow.

Record ConfigRow : Type := {
  configId : Z;
  configJson : Segflow.t;
  createdAt : Z
}.

Record HistoryRow : Type := {
  historyUserId : string;
  historyCampaignId : string;
  stepIndex : Z;
  historyAttributes : JSValue
}.

Record EventRow : Type := {
  eventId : Z;
  eventName : string;
  eventUserId : string;
  eventAttributes : JSValue
}.

(** The database.  A table with a primary key is a finite map or set over
    that key; [executionHistory], [events] and [configs] keep their rows in
    insertion order.  [outbox] is not a table: it records the emails the
    provider accepted, in order. *)
Module schema.
Record Store : Type := {
  users : gmap string JSValue;
  events : list EventRow;
  segments : gmap string string;
  segmentUsers : gset (string * string);
  segmentEventTriggers : gset (string * string);
  campaigns : gmap string Campaign;
  campaignSegments : gset (string * string);
  campaignExcludeSegments : gset (string * string);
  campaignUsers : gset (string * string);
  executions : gmap (string * string) Execution;
  executionHistory : list HistoryRow;
  templates : gmap string Template;
  transactions : gmap string Transaction.t;
  emailProvider : option EmailProvider;
  configs : list ConfigRow;
  outbox : list Email
}.
End schema.
Import schema.

Definition set_users (v : gmap string JSValue) (s : Store) : Store :=
  {| users := v; events := events s; segments := segments s;
     segmentUsers := segmentUsers s;
     segmentEventTriggers := segmentEventTriggers s;
     campaigns := campaigns s; campaignSegments := schema.campaignSegments s;
     campaignExcludeSegments := schema.campaignExcludeSegments s;
     campaignUsers := campaignUsers s; executions := executions s;
     executionHistory := executionHistory s; templates := templates s;
     transactions := transactions s; emailProvider := emailProvider s;
     configs := configs s; outbox := outbox s |}.

Definition set_segmentUsers (v : gset (string * string)) (s : Store) : Store :=
  {| users := users s; events := events s; segments := segments s;
     segmentUsers := v;
     segmentEventTriggers := segmentEventTriggers s;
     campaigns := campaigns s; campaignSegments := schema.campaignSegments s;
     campaignExcludeSegments := schema.campaignExcludeSegments s;
     campaignUsers := campaignUsers s; executions := executions s;
     executionHistory := executionHistory s; templates := templates s;
     transactions := transactions s; emailProvider := emailProvider s;
     configs := configs s; outbox := outbox s |}.

Definition set_campaignUsers (v : gset (string * string)) (s : Store) : Store :=
  {| users := users s; events := events s; segments := segments s;
     segmentUsers := segmentUsers s;
     segmentEventTriggers := segmentEventTriggers s;
     campaigns := campaigns s; campaignSegments := schema.campaignSegments s;
     campaignExcludeSegments := schema.campaignExcludeSegments s;
     campaignUsers := v; executions := executions s;
     executionHistory := executionHistory s; templates := templates s;
     transactions := transactions s; emailProvider := emailProvider s;
     configs := configs s; outbox := outbox s |}.

Definition set_executions (v : gmap (string * string) Execution) (s : Store)
    : Store :=
  {| users := users s; events := events s; segments := segments s;
     segmentUsers := segmentUsers s;
     segmentEventTriggers := segmentEventTriggers s;
     campaigns := campaigns s; campaignSegments := schema.campaignSegments s;
     campaignExcludeSegments := schema.campaignExcludeSegments s;
     campaignUsers := campaignUsers s; executions := v;
     executionHistory := executionHistory s; templates := templates s;
     transactions := transactions s; emailProvider := emailProvider s;
     configs := configs s; outbox := outbox s |}.

Definition set_executionHistory (v : list HistoryRow) (s : Store) : Store :=
  {| users := users s; events := events s; segments := segments s;
     segmentUsers := segmentUsers s;
     segmentEventTriggers := segmentEventTriggers s;
     campaigns := campaigns s; campaignSegments := schema.campaignSegments s;
     campaignExcludeSegments := schema.campaignExcludeSegments s;
     campaignUsers := campaignUsers s; executions := executions s;
     executionHistory := v; templates := templates s;
     transactions := transactions s; emailProvider := emailProvider s;
     configs := configs s; outbox := outbox s |}.

Definition set_configs (v : list ConfigRow) (s : Store) : Store :=
  {| users := users s; events := events s; segments := segments s;
     segmentUsers := segmentUsers s;
     segmentEventTriggers := segmentEventTriggers s;
     campaigns := campaigns s; campaignSegments := schema.campaignSegments s;
     campaignExcludeSegments := schema.campaignExcludeSegments s;
     campaignUsers := campaignUsers s; executions := executions s;
     executionHistory := executionHistory s; templates := templates s;
     transactions := transactions s; emailProvider := emailProvider s;
     configs := v; outbox := outbox s |}.

Definition set_outbox (v : list Email) (s : Store) : Store :=
  {| users := users s; events := events s; segments := segments s;
     segmentUsers := segmentUsers s;
     segmentEventTriggers := segmentEventTriggers s;
     campaigns := campaigns s; campaignSegments := schema.campaignSegments s;
     campaignExcludeSegments := schema.campaignExcludeSegments s;
     campaignUsers := campaignUsers s; executions := executions s;
     executionHistory := executionHistory s; templates := templates s;
     transactions := transactions s; emailProvider := emailProvider s;
     configs := configs s; outbox := v |}.

(** ** Database code: state that survives an exception *)

Definition M (A : Type) : Type := Store -> outcome A * Store.

Definition ret {A : Type} (a : A) : M A := fun s => (Ok a, s).

Definition throw {A : Type} (message : string) : M A :=
  fun s => (Throw message, s).

Definition bind {A B : Type} (m : M A) (k : A -> M B) : M B :=
  fun s =>
    match m s with
    | (Ok a, s') => k a s'
    | (Throw e, s') => (Throw e, s')
    end.

Declare Scope db_scope.
Delimit Scope db_scope with db.
Notation "'let!' x ':=' m 'in' k" := (bind m (fun x => k))
  (at level 10, x pattern, m at level 100, k at level 200) : db_scope.
Local Open Scope db_scope.

(** [await tx.select()...]: a query reads the current state. *)
Definition select {A : Type} (query : Store -> A) : M A :=
  fun s => (Ok (query s), s).

Definition update (f : Store -> Store) : M unit := fun s => (Ok tt, f s).

(** Lifting a computation that has no access to the database. *)
Definition lift {A : Type} (o : outcome A) : M A := fun s => (o, s).

(** [try { body } catch (error) { handler(error.message) }] *)
Definition try_catch {A : Type} (body : M A) (handler : string -> M A) : M A :=
  fun s =>
    match body s with
    | (Ok a, s') => (Ok a, s')
    | (Throw e, s') => handler e s'
    end.

(** [db.transaction(async (tx) => body)]: rolled back when [body] throws. *)
Definition transaction {A : Type} (body : M A) : M A :=
  fun s =>
    match body s with
    | (Ok a, s') => (Ok a, s')
    | (Throw e, _) => (Throw e, s)
    end.

(** [for (const x of l) { acc = body(acc, x) }] *)
Fixpoint foldM {A B : Type} (body : B -> A -> M B) (acc : B) (l : list A)
    : M B :=
  match l with
  | [] => ret acc
  | x :: l' => let! acc' := body acc x in foldM body acc' l'
  end.

Definition forEach {A : Type} (l : list A) (body : A -> M unit) : M unit :=
  foldM (fun _ x => body x) tt l.

(** ** [Date] *)

(** A [Date] holds a time value in milliseconds since the epoch, or is
    invalid ([None]).  The getters and setters are the ones of ECMAScript:
    they work on the local time, which the time zone of the server places
    at an offset from UTC that may change from one instant to another
    (daylight saving), and a setter leaves the date invalid when the new
    time value falls outside the range of [Date].  Numbers are integers
    and the arithmetic is exact: a setter is given an integer, which it
    has no need to truncate, and a JavaScript number holds an integer
    exactly up to 2^53, which is more than any time value. *)
Module Date.
Local Open Scope Z_scope.

(** [TimeClip]: a time value is at most 8.64e15 in magnitude. *)
Definition TimeClip (time : Z) : option Z :=
  if Z.abs time <=? 8640000000000000 then Some time else None.

Definition msPerSecond : Z := 1000.
Definition msPerMinute : Z := 60000.
Definition msPerHour : Z := 3600000.
Definition msPerDay : Z := 86400000.

Definition Day (t : Z) : Z := t / msPerDay.
Definition TimeWithinDay (t : Z) : Z := t mod msPerDay.
Definition HourFromTime (t : Z) : Z := (t / msPerHour) mod 24.
Definition MinFromTime (t : Z) : Z := (t / msPerMinute) mod 60.
Definition SecFromTime (t : Z) : Z := (t / msPerSecond) mod 60.
Definition msFromTime (t : Z) : Z := t mod msPerSecond.

(** Day of the month (1 to 31) of a time value, in the proleptic
    Gregorian calendar. *)
Definition DateFromTime (t : Z) : Z :=
  let z := Day t + 719468 in
  let era := z / 146097 in
  let doe := z - era * 146097 in
  let yoe := (doe - doe / 1460 + doe / 36524 - doe / 146096) / 365 in
  let doy := doe - (365 * yoe + yoe / 4 - yoe / 100) in
  let mp := (5 * doy + 2) / 153 in
  doy - (153 * mp + 2) / 5 + 1.

Definition MakeTime (hour min sec ms : Z) : Z :=
  hour * msPerHour + min * msPerMinute + sec * msPerSecond + ms.
Definition MakeDate (day time : Z) : Z := day * msPerDay + time.

(** [MakeDay(YearFromTime(t), MonthFromTime(t), dt)]: the first day of the
    month of [t] is day [Day t - (DateFromTime t - 1)], and [MakeDay]
    counts [dt - 1] days from it. *)
Definition MakeDayInMonthOf (t dt : Z) : Z :=
  Day t - (DateFromTime t - 1) + (dt - 1).

Section LocalTime.
(** [LocalTZA(t, isUTC)]: the offset of the local time zone from UTC, in
    milliseconds, at the instant [t] when [isUTC] holds and at the local
    time [t] otherwise. *)
Variable localTZA : Z -> bool -> Z.

Definition LocalTime (t : Z) : Z := t + localTZA t true.
Definition UTC (t : Z) : Z := t - localTZA t false.

Definition getSeconds (t : Z) : Z := SecFromTime (LocalTime t).
Definition getMinutes (t : Z) : Z := MinFromTime (LocalTime t).
Definition getHours (t : Z) : Z := HourFromTime (LocalTime t).
Definition getDate (t : Z) : Z := DateFromTime (LocalTime t).

Definition setSeconds (t sec : Z) : option Z :=
  let l := LocalTime t in
  TimeClip
    (UTC (MakeDate (Day l)
            (MakeTime (HourFromTime l) (MinFromTime l) sec (msFromTime l)))).
Definition setMinutes (t min : Z) : option Z :=
  let l := LocalTime t in
  TimeClip
    (UTC (MakeDate (Day l)
            (MakeTime (HourFromTime l) min (SecFromTime l) (msFromTime l)))).
Definition setHours (t hour : Z) : option Z :=
  let l := LocalTime t in
  TimeClip
    (UTC (MakeDate (Day l)
            (MakeTime hour (MinFromTime l) (SecFromTime l) (msFromTime l)))).
Definition setDate (t dt : Z) : option Z :=
  let l := LocalTime t in
  TimeClip (UTC (MakeDate (MakeDayInMonthOf l dt) (TimeWithinDay l))).
End LocalTime.
End Date.

(** ** [evaluators.ts] *)

Record CampaignChanges : Type := {
  added : list string;
  removed : list string
}.

Module ExecutionState.
Record t : Type := {
  userId : string;
  campaignId : string;
  status : Status;
  sleepUntil : Z
}.
End ExecutionState.

Record ExecutionSetup : Type := {
  setupCampaign : Campaign;
  setupUser : JSValue;
  setupStepIndex : Z;
  setupAttributeStates : list JSValue
}.

(** Rows of a two-column table whose first (second) column is [k]. *)
Definition whereFirst (k : string) (table : gset (string * string))
    : list (string * string) :=
  filter (fun r => r.1 = k) (elements table).

(** [INSERT IGNORE INTO campaign_users]: an existing row is kept.  The
    user and the campaign exist (the callers pass ids of rows they have
    read or written), so that the foreign keys of the new row hold. *)
Definition insertIgnoreCampaignUser (userId campaignId : string) : M unit :=
  update (fun s => set_campaignUsers ({[ (userId, campaignId) ]} ∪ campaignUsers s) s).

(** [DELETE FROM campaign_users]; the foreign keys of [executions] and
    [execution_history] are [ON DELETE CASCADE]. *)
Definition deleteCampaignUser (userId campaignId : string) : M unit :=
  update (fun s =>
    if bool_decide ((userId, campaignId) ∈ campaignUsers s) then
      set_campaignUsers (campaignUsers s ∖ {[ (userId, campaignId) ]})
        (set_executions (delete (userId, campaignId) (executions s))
           (set_executionHistory
              (filter (fun h => ¬ (historyUserId h = userId
                                   ∧ historyCampaignId h = campaignId))
                 (executionHistory s)) s))
    else s).

Definition insertIgnoreSegmentUser (userId segmentId : string) : M unit :=
  update (fun s => set_segmentUsers ({[ (userId, segmentId) ]} ∪ segmentUsers s) s).

Definition deleteSegmentUser (userId segmentId : string) : M unit :=
  update (fun s => set_segmentUsers (segmentUsers s ∖ {[ (userId, segmentId) ]}) s).

(** [UPDATE executions SET ... WHERE user_id = ? AND campaign_id = ?] *)
Definition updateExecution (userId campaignId : string)
    (set : Execution -> Execution) : M unit :=
  update (fun s => set_executions (alter set (userId, campaignId) (executions s)) s).

(** The body of the loop [for (const campaign of campaigns)] of
    [evaluateUserCampaigns]. *)
Definition evaluateUserCampaignsBody (userId : string)
    (currentCampaignIds userSegmentIds : gset string)
    (results : CampaignChanges) (row : string * Campaign) : M CampaignChanges :=
  let (id, campaign) := row in
  let! includeSegments := select (fun s => whereFirst id (schema.campaignSegments s)) in
  let! excludeSegments := select (fun s => whereFirst id (schema.campaignExcludeSegments s)) in
  let matchesInclude :=
    forallb (fun r => bool_decide (r.2 ∈ userSegmentIds)) includeSegments in
  let matchesExclude :=
    existsb (fun r => bool_decide (r.2 ∈ userSegmentIds)) excludeSegments in
  let shouldBeInCampaign := matchesInclude && negb matchesExclude in
  let isInCampaign := bool_decide (id ∈ currentCampaignIds) in
  let needsUpdate :=
    match behavior campaign with
    | static => shouldBeInCampaign && negb isInCampaign
    | dynamic => negb (Bool.eqb shouldBeInCampaign isInCampaign)
    end in
  if needsUpdate then
    if shouldBeInCampaign then
      let! _ := insertIgnoreCampaignUser userId id in
      ret {| added := added results ++ [id]; removed := removed results |}
    else if bool_decide (behavior campaign ≠ static) then
      let! _ := deleteCampaignUser userId id in
      ret {| added := added results; removed := removed results ++ [id] |}
    else ret results
  else ret results.

Definition evaluateUserCampaigns (userId : string) : M CampaignChanges :=
  let! campaigns := select (fun s => map_to_list (campaigns s)) in
  let! currentMemberships := select (fun s => whereFirst userId (campaignUsers s)) in
  let currentCampaignIds : gset string := list_to_set (snd <$> currentMemberships) in
  let! userSegments := select (fun s => whereFirst userId (segmentUsers s)) in
  let userSegmentIds : gset string := list_to_set (snd <$> userSegments) in
  foldM (evaluateUserCampaignsBody userId currentCampaignIds userSegmentIds)
    {| added := []; removed := [] |} campaigns.

Definition evaluateUserCampaign (userId campaignId : string) : M bool :=
  let! userSegments := select (fun s => whereFirst userId (segmentUsers s)) in
  let userSegmentIds : gset string := list_to_set (snd <$> userSegments) in
  let! includeSegments := select (fun s => whereFirst campaignId (schema.campaignSegments s)) in
  let! excludeSegments := select (fun s => whereFirst campaignId (schema.campaignExcludeSegments s)) in
  let matchesInclude :=
    forallb (fun r => bool_decide (r.2 ∈ userSegmentIds)) includeSegments in
  let matchesExclude :=
    existsb (fun r => bool_decide (r.2 ∈ userSegmentIds)) excludeSegments in
  ret (matchesInclude && negb matchesExclude).

(** The insert needs the membership row the execution refers to (the
    foreign key [e_user_campaign_fk]) and a free primary key. *)
Definition createExecution (now : Z) (userId campaignId : string) : M unit :=
  let! campaign := select (fun s => campaigns s !! campaignId) in
  match campaign with
  | None => throw "Campaign not found"
  | Some _ =>
      let! membership :=
        select (fun s => bool_decide ((userId, campaignId) ∈ campaignUsers s)) in
      if negb membership then
        throw "Cannot add or update a child row: a foreign key constraint fails"
      else
        let! existing := select (fun s => executions s !! (userId, campaignId)) in
        match existing with
        | Some _ => throw "Duplicate entry for key 'executions.PRIMARY'"
        | None =>
            update (fun s =>
              set_executions
                (<[ (userId, campaignId) :=
                      {| status := pending; sleepUntil := now; error := None |} ]>
                   (executions s)) s)
        end
  end.

Definition killExecution (userId campaignId : string) (error : string) : M unit :=
  let! state := select (fun s => executions s !! (userId, campaignId)) in
  match state with
  | None => ret tt
  | Some _ =>
      updateExecution userId campaignId (fun row =>
        {| status := terminated; sleepUntil := sleepUntil row;
           error := Some error |})
  end.

Definition sleepExecution (userId campaignId : string) (sleepUntil : Z) : M unit :=
  updateExecution userId campaignId (fun row =>
    {| status := sleeping; sleepUntil := sleepUntil; error := error row |}).

(** [`${v}`]: the string a template literal makes of a value.  An array
    gives its elements, each converted in the same way, with a comma
    between them, where [undefined] and [null] elements give the empty
    string; an object gives ["[object Object]"].  A number is printed in
    decimal notation, which is what JavaScript does below 10^21. *)
Fixpoint templateLiteral (v : JSValue) : string :=
  match v with
  | JUndefined => "undefined"
  | JNull => "null"
  | JBool true => "true"
  | JBool false => "false"
  | JNum n => pretty n
  | JStr s => s
  | JArr items =>
      (fix joined (items : list JSValue) : string :=
         match items with
         | [] => ""
         | item :: rest =>
             let element :=
               match item with
               | JUndefined | JNull => ""
               | _ => templateLiteral item
               end in
             match rest with
             | [] => element
             | _ :: _ => element ++ "," ++ joined rest
             end
         end) items
  | JObj _ => "[object Object]"
  end.

(** The numbers that [templateLiteral] prints as JavaScript does: those
    below 10^21 in magnitude, at the top or as elements of arrays. *)
Fixpoint printsInDecimal (v : JSValue) : bool :=
  match v with
  | JNum n => (Z.abs n <? 10 ^ 21)%Z
  | JArr items =>
      (fix all (items : list JSValue) : bool :=
         match items with
         | [] => true
         | item :: rest => printsInDecimal item && all rest
         end) items
  | _ => true
  end.

(** [ORDER BY step_index] *)
Definition byStepIndex (a b : HistoryRow) : Prop := (stepIndex a <= stepIndex b)%Z.

#[global] Instance byStepIndex_dec a b : Decision (byStepIndex a b).
Proof. unfold byStepIndex. apply _. Defined.

Section Executor.
Context {Gen : Type}.
(** The sandbox. *)
Variable evalFlow : string -> outcome Gen.
Variable next : Gen -> JSValue -> @IterResult Gen.
(** [evalSandboxedWithUser] and [renderTemplate] of [quickjs.ts]. *)
Variable evalSandboxedWithUser : string -> JSValue -> outcome string.
Variable renderTemplate : string -> string -> JSValue -> outcome string.
(** The SQL engine: whether
    [WITH segment_matches AS (evaluator) SELECT id FROM segment_matches
     WHERE id = 'userId'] returns a row. *)
Variable segmentMatchesUser : Store -> string -> string -> outcome bool.
(** The HTTP call to the email provider. *)
Variable deliver : EmailProvider -> Email -> outcome unit.
(** The time zone of the server: its offset from UTC at an instant or at
    a local time ([Date.LocalTime], [Date.UTC]). *)
Variable localTZA : Z -> bool -> Z.
(** [n + v] and [v * k] for an operand [v] that is not a number:
    JavaScript coerces, and the integer the [Date] setter ends up with is
    left to these parameters ([None] when it is [NaN]). *)
Variable coercedPlus : Z -> JSValue -> option Z.
Variable coercedTimes : JSValue -> Z -> option Z.

Definition plus (n : Z) (v : JSValue) : option Z :=
  match v with
  | JNum z => Some (n + z)%Z
  | _ => coercedPlus n v
  end.

Definition times (v : JSValue) (k : Z) : option Z :=
  match v with
  | JNum z => Some (z * k)%Z
  | _ => coercedTimes v k
  end.

Definition evaluateUserSegments (userId : string) : M CampaignChanges :=
  let! segments := select (fun s => map_to_list (segments s)) in
  let! currentMemberships := select (fun s => whereFirst userId (segmentUsers s)) in
  let currentSegmentIds : gset string := list_to_set (snd <$> currentMemberships) in
  foldM (fun results (segment : string * string) =>
      let (id, evaluator) := segment in
      let! isMatch := (fun s => (segmentMatchesUser s evaluator userId, s)) in
      let wasMatch := bool_decide (id ∈ currentSegmentIds) in
      if negb (Bool.eqb isMatch wasMatch) then
        if isMatch then
          let! _ := insertIgnoreSegmentUser userId id in
          ret {| added := added results ++ [id]; removed := removed results |}
        else
          let! _ := deleteSegmentUser userId id in
          ret {| added := added results; removed := removed results ++ [id] |}
      else ret results)
    {| added := []; removed := [] |} segments.

Definition evaluateUserSegmentsAfterEvent (userId eventName : string)
    : M CampaignChanges :=
  let! triggeredSegments :=
    select (fun s => filter (fun r => r.2 = eventName)
                       (elements (segmentEventTriggers s))) in
  foldM (fun results (trigger : string * string) =>
      let segmentId := trigger.1 in
      let! segment := select (fun s => segments s !! segmentId) in
      match segment with
      | None => ret results
      | Some evaluator =>
          let! wasMatch :=
            select (fun s => bool_decide ((userId, segmentId) ∈ segmentUsers s)) in
          let! isMatch := (fun s => (segmentMatchesUser s evaluator userId, s)) in
          if negb (Bool.eqb isMatch wasMatch) then
            if isMatch then
              let! _ := insertIgnoreSegmentUser userId segmentId in
              ret {| added := added results ++ [segmentId];
                     removed := removed results |}
            else
              let! _ := deleteSegmentUser userId segmentId in
              ret {| added := added results;
                     removed := removed results ++ [segmentId] |}
          else ret results
      end)
    {| added := []; removed := [] |} triggeredSegments.

Definition reevaluateUserMembershipsAfterAttributeChange (now : Z)
    (userId reason : string) (event : option string)
    : M (CampaignChanges * CampaignChanges) :=
  let! segmentUpdates :=
    match event with
    | Some name => evaluateUserSegmentsAfterEvent userId name
    | None => evaluateUserSegments userId
    end in
  let! campaignUpdates := evaluateUserCampaigns userId in
  let! _ := forEach (added campaignUpdates)
              (fun campaignId => createExecution now userId campaignId) in
  let! dynamicCampaigns :=
    select (fun s =>
      filter (fun row => row.1 ∈ removed campaignUpdates
                         ∧ behavior row.2 = dynamic)
        (map_to_list (campaigns s))) in
  let! _ := forEach dynamicCampaigns
              (fun campaign => killExecution userId campaign.1 reason) in
  ret (segmentUpdates, campaignUpdates).

Definition setupExecutionState (state : ExecutionState.t) : M ExecutionSetup :=
  let! campaign := select (fun s => campaigns s !! ExecutionState.campaignId state) in
  match campaign with
  | None => throw "Campaign not found"
  | Some campaign =>
      let! user := select (fun s => users s !! ExecutionState.userId state) in
      match user with
      | None => throw "User not found"
      | Some user =>
          match ExecutionState.status state with
          | pending =>
              ret {| setupCampaign := campaign; setupUser := user;
                     setupStepIndex := 0; setupAttributeStates := [user] |}
          | sleeping =>
              let! history :=
                select (fun s =>
                  merge_sort byStepIndex
                    (filter (fun h =>
                         historyUserId h = ExecutionState.userId state
                         ∧ historyCampaignId h = ExecutionState.campaignId state)
                       (executionHistory s))) in
              if (length history =? 0)%nat then
                throw "No execution history found for sleeping state"
              else
                ret {| setupCampaign := campaign; setupUser := user;
                       setupStepIndex := Z.of_nat (length history);
                       setupAttributeStates :=
                         (historyAttributes <$> history) ++ [user] |}
          | _ => throw "Unknown execution state"
          end
      end
  end.

Definition getEmailProvider : M EmailProvider :=
  let! config := select emailProvider in
  match config with
  | None => throw "No email provider configured"
  | Some provider => ret provider
  end.

Definition sendEmail (to : JSValue) (subject html : string) : M unit :=
  let! provider := getEmailProvider in
  let email := {| to := to; emailSubject := subject; emailHtml := html |} in
  let! _ := lift (deliver provider email) in
  update (fun s => set_outbox (outbox s ++ [email]) s).

(** A [templateId] that is not a string selects no row. *)
Definition sendTemplateEmail (templateId : JSValue) (user : JSValue) : M unit :=
  let! to := lift (get user "email") in
  let! template :=
    select (fun s =>
      match templateId with
      | JStr id => templates s !! id
      | _ => None
      end) in
  match template with
  | None => throw ("template not found: " ++ templateLiteral templateId)
  | Some template =>
      let! processedSubject := lift (evalSandboxedWithUser (subject template) user) in
      let! processedHtml :=
        lift (renderTemplate (html template) (preamble template) user) in
      sendEmail to processedSubject processedHtml
  end.

(** [if (component) sleepUntil.setX(sleepUntil.getX() + component)] *)
Definition addComponent (getX : Z -> Z) (setX : Z -> Z -> option Z)
    (component : JSValue) (sleepUntil : option Z) : option Z :=
  if truthy component then
    match sleepUntil with
    | None => None
    | Some t =>
        match plus (getX t) component with
        | Some x => setX t x
        | None => None
        end
    end
  else sleepUntil.

(** [if (duration.weeks)
       sleepUntil.setDate(sleepUntil.getDate() + duration.weeks * 7)] *)
Definition addWeeks (component : JSValue) (sleepUntil : option Z) : option Z :=
  if truthy component then
    match sleepUntil with
    | None => None
    | Some t =>
        match times component 7 with
        | Some d => Date.setDate localTZA t (Date.getDate localTZA t + d)%Z
        | None => None
        end
    end
  else sleepUntil.

Definition handleExecutionCommand (now : Z) (command : JSValue)
    (state : ExecutionState.t) (user : JSValue) : M unit :=
  let type := prop command "type" in
  if is_str type "WAIT" then
    let duration := prop command "duration" in
    let sleepUntil := Some now in
    if negb (truthy duration) then throw "Wait command missing duration"
    else
      let sleepUntil :=
        addComponent (Date.getSeconds localTZA) (Date.setSeconds localTZA)
          (prop duration "seconds") sleepUntil in
      let sleepUntil :=
        addComponent (Date.getMinutes localTZA) (Date.setMinutes localTZA)
          (prop duration "minutes") sleepUntil in
      let sleepUntil :=
        addComponent (Date.getHours localTZA) (Date.setHours localTZA)
          (prop duration "hours") sleepUntil in
      let sleepUntil :=
        addComponent (Date.getDate localTZA) (Date.setDate localTZA)
          (prop duration "days") sleepUntil in
      let sleepUntil := addWeeks (prop duration "weeks") sleepUntil in
      match sleepUntil with
      | None => throw "Invalid time value"
      | Some sleepUntil =>
          updateExecution (ExecutionState.userId state)
            (ExecutionState.campaignId state)
            (fun row => {| status := sleeping; sleepUntil := sleepUntil;
                           error := error row |})
      end
  else if is_str type "SEND_EMAIL" then
    let! _ := sendTemplateEmail (prop command "templateId") user in
    updateExecution (ExecutionState.userId state)
      (ExecutionState.campaignId state)
      (fun row => {| status := sleeping; sleepUntil := now;
                     error := error row |})
  else if is_str type "SEND_SMS" then throw "SMS sending not implemented"
  else throw ("Unknown command type: " ++ templateLiteral type).

Definition insertExecutionHistory (row : HistoryRow) : M unit :=
  let! existing :=
    select (fun s =>
      filter (fun h => historyUserId h = historyUserId row
                       ∧ historyCampaignId h = historyCampaignId row
                       ∧ stepIndex h = stepIndex row)
        (executionHistory s)) in
  match existing with
  | _ :: _ => throw "Duplicate entry for key 'execution_history.ehs_pk'"
  | [] => update (fun s => set_executionHistory (executionHistory s ++ [row]) s)
  end.

(** [processExecution] up to and including the write-back of changed
    attributes: [None] when the dynamic-exit check made before the step
    terminated the execution (the first [return true]), otherwise the
    campaign, the user as loaded and the result of the sandbox. *)
Definition advanceExecution (now : Z) (state : ExecutionState.t)
    : M (option (Campaign * JSValue * GeneratorResult)) :=
  let userId := ExecutionState.userId state in
  let campaignId := ExecutionState.campaignId state in
  let! setup := setupExecutionState state in
  let campaign := setupCampaign setup in
  let user := setupUser setup in
  let stepIndex := setupStepIndex setup in
  let attributeStates := setupAttributeStates setup in
  let! stillMatches :=
    if bool_decide (behavior campaign = dynamic) && negb (stepIndex =? 0)%Z
    then evaluateUserCampaign userId campaignId
    else ret true in
  if negb stillMatches then
    let! _ := killExecution userId campaignId
                "User no longer matches campaign criteria" in
    ret None
  else
    (* Record execution state history *)
    let! _ := insertExecutionHistory
                {| historyUserId := userId; historyCampaignId := campaignId;
                   stepIndex := stepIndex; historyAttributes := user |} in
    let! result :=
      lift (executeGeneratorToIndex evalFlow next (flow campaign)
              attributeStates stepIndex) in
    (* Handle attribute changes *)
    let! _ :=
      if negb (equal (attributes result) user) then
        let! _ := update (fun s =>
                    set_users (alter (fun _ => attributes result) userId
                                 (users s)) s) in
        let! _ := reevaluateUserMembershipsAfterAttributeChange now userId
                    "user attributes changed and no longer matches campaign criteria"
                    None in
        ret tt
      else ret tt in
    ret (Some (campaign, user, result)).

(** The rest of the [try] block: what is done with the result. *)
Definition interpretResult (now : Z) (state : ExecutionState.t)
    (campaign : Campaign) (user : JSValue) (result : GeneratorResult)
    : M bool :=
  let userId := ExecutionState.userId state in
  let campaignId := ExecutionState.campaignId state in
  if done result && negb (truthy (value result)) then
    let! _ := updateExecution userId campaignId
                (fun row => {| status := completed;
                               sleepUntil := sleepUntil row;
                               error := error row |}) in
    ret true
  else if negb (truthy (value result)) then
    throw "Generator yielded undefined"
  else
    (* Check dynamic campaign criteria again before executing command *)
    let! stillMatches :=
      if bool_decide (behavior campaign = dynamic)
      then evaluateUserCampaign userId campaignId
      else ret true in
    if negb stillMatches then
      let! _ := killExecution userId campaignId
                  "User no longer matches campaign criteria" in
      ret true
    else
      let! _ := handleExecutionCommand now (value result) state user in
      ret true.

Definition processExecution (now : Z) (state : ExecutionState.t) : M bool :=
  try_catch
    (let! advanced := advanceExecution now state in
     match advanced with
     | None => ret true
     | Some (campaign, user, result) =>
         interpretResult now state campaign user result
     end)
    (fun error =>
       let! _ := updateExecution (ExecutionState.userId state)
                   (ExecutionState.campaignId state)
                   (fun row => {| status := failed;
                                  sleepUntil := sleepUntil row;
                                  error := Some error |}) in
       ret false).
End Executor.

(** ** Event triggers of a segment ([extractEventTriggersFromSQL]) *)

(** [sql.replace(/`([^`]+)`/g, "$1")]: scanning from the left, a backtick
    followed by one or more characters other than a backtick and then a
    backtick is replaced by those characters.  [pending] holds the
    characters read since a backtick that may still open such a match. *)
Fixpoint unquoteFrom (sql : string) (pending : option string) : string :=
  match sql with
  | EmptyString =>
      match pending with
      | None => ""
      | Some run => String "`"%char run
      end
  | String c rest =>
      if Ascii.eqb c "`"%char then
        match pending with
        | None => unquoteFrom rest (Some "")
        | Some "" => String "`"%char (unquoteFrom rest (Some ""))
        | Some run => run ++ unquoteFrom rest None
        end
      else
        match pending with
        | None => String c (unquoteFrom rest None)
        | Some run => unquoteFrom rest (Some (run ++ String c ""))
        end
  end.

Definition unquote (sql : string) : string := unquoteFrom sql None.

Definition lowerAscii (c : ascii) : ascii :=
  let n := nat_of_ascii c in
  if ((65 <=? n) && (n <=? 90))%nat then ascii_of_nat (n + 32) else c.

Fixpoint toLowerCase (s : string) : string :=
  match s with
  | EmptyString => EmptyString
  | String c rest => String (lowerAscii c) (toLowerCase rest)
  end.

(** Equality of the elements of a [Set]: primitives by value; two object
    nodes of a syntax tree are never the same object. *)
Definition sameValueZero (a b : JSValue) : bool :=
  match a, b with
  | JUndefined, JUndefined => true
  | JNull, JNull => true
  | JBool x, JBool y => Bool.eqb x y
  | JNum x, JNum y => (x =? y)%Z
  | JStr x, JStr y => String.eqb x y
  | _, _ => false
  end.

(** [eventTriggers.add(v)] *)
Definition setAdd (v : JSValue) (eventTriggers : list JSValue) : list JSValue :=
  if existsb (sameValueZero v) eventTriggers then eventTriggers
  else eventTriggers ++ [v].

(** [n?.type === "column_ref" && n.table === "events" && n.column === "name"] *)
Definition isEventsName (n : JSValue) : bool :=
  is_str (prop n "type") "column_ref"
  && is_str (prop n "table") "events"
  && is_str (prop n "column") "name".

(** [n?.type === "single_quote_string" || n?.type === "string"] *)
Definition isStringNode (n : JSValue) : bool :=
  is_str (prop n "type") "single_quote_string" || is_str (prop n "type") "string".

(** [right.value.forEach((item) => { ... })] of the IN branch. *)
Fixpoint addListItems (items : list JSValue) (eventTriggers : list JSValue)
    : outcome (list JSValue) :=
  match items with
  | [] => Ok eventTriggers
  | item :: rest =>
      match get item "type" with
      | Throw e => Throw e
      | Ok _ =>
          addListItems rest
            (if isStringNode item then setAdd (prop item "value") eventTriggers
             else eventTriggers)
      end
  end.

(** The two [if] statements on a [binary_expr] node. *)
Definition visitNode (node : JSValue) (eventTriggers : list JSValue)
    : outcome (list JSValue) :=
  if is_str (prop node "type") "binary_expr" then
    match prop node "operator" with
    | JStr operator =>
        let left := prop node "left" in
        let right := prop node "right" in
        (* Handle IN expressions *)
        let afterIn :=
          if String.eqb (toLowerCase operator) "in" && isEventsName left then
            match get right "value" with
            | Throw e => Throw e
            | Ok (JArr items) => addListItems items eventTriggers
            | Ok _ => Ok eventTriggers
            end
          else Ok eventTriggers in
        (* Handle simple equality comparisons *)
        match afterIn with
        | Throw e => Throw e
        | Ok eventTriggers =>
            if String.eqb operator "=" || String.eqb operator "==" then
              let eventTriggers :=
                if isEventsName left && isStringNode right
                then setAdd (prop right "value") eventTriggers
                else eventTriggers in
              let eventTriggers :=
                if isEventsName right && isStringNode left
                then setAdd (prop left "value") eventTriggers
                else eventTriggers in
              Ok eventTriggers
            else Ok eventTriggers
        end
    | JUndefined | JNull =>
        Throw "Cannot read properties of undefined (reading 'toLowerCase')"
    | _ => Throw "node.operator.toLowerCase is not a function"
    end
  else Ok eventTriggers.

Fixpoint traverseAST (node : JSValue) (eventTriggers : list JSValue)
    {struct node} : outcome (list JSValue) :=
  if negb (truthy node) then Ok eventTriggers
  else
    match visitNode node eventTriggers with
    | Throw e => Throw e
    | Ok eventTriggers =>
        (* Recursively traverse all properties *)
        match node with
        | JObj props =>
            (fix values (props : list (string * JSValue))
                 (eventTriggers : list JSValue) {struct props} :=
               match props with
               | [] => Ok eventTriggers
               | (_, value) :: rest =>
                   match
                     match value with
                     | JArr items =>
                         (fix each (items : list JSValue)
                              (eventTriggers : list JSValue) {struct items} :=
                            match items with
                            | [] => Ok eventTriggers
                            | item :: rest =>
                                match traverseAST item eventTriggers with
                                | Throw e => Throw e
                                | Ok eventTriggers => each rest eventTriggers
                                end
                            end) items eventTriggers
                     | JObj _ => traverseAST value eventTriggers
                     | _ => Ok eventTriggers
                     end
                   with
                   | Throw e => Throw e
                   | Ok eventTriggers => values rest eventTriggers
                   end
               end) props eventTriggers
        | JArr elements =>
            (fix values (elements : list JSValue)
                 (eventTriggers : list JSValue) {struct elements} :=
               match elements with
               | [] => Ok eventTriggers
               | value :: rest =>
                   match
                     match value with
                     | JArr items =>
                         (fix each (items : list JSValue)
                              (eventTriggers : list JSValue) {struct items} :=
                            match items with
                            | [] => Ok eventTriggers
                            | item :: rest =>
                                match traverseAST item eventTriggers with
                                | Throw e => Throw e
                                | Ok eventTriggers => each rest eventTriggers
                                end
                            end) items eventTriggers
                     | JObj _ => traverseAST value eventTriggers
                     | _ => Ok eventTriggers
                     end
                   with
                   | Throw e => Throw e
                   | Ok eventTriggers => values rest eventTriggers
                   end
               end) elements eventTriggers
        | _ => Ok eventTriggers
        end
    end.

(** The loops of [traverseAST], by name. *)
Fixpoint traverseItems (items : list JSValue) (eventTriggers : list JSValue)
    : outcome (list JSValue) :=
  match items with
  | [] => Ok eventTriggers
  | item :: rest =>
      match traverseAST item eventTriggers with
      | Throw e => Throw e
      | Ok eventTriggers => traverseItems rest eventTriggers
      end
  end.

Definition traverseValue (value : JSValue) (eventTriggers : list JSValue)
    : outcome (list JSValue) :=
  match value with
  | JArr items => traverseItems items eventTriggers
  | JObj _ => traverseAST value eventTriggers
  | _ => Ok eventTriggers
  end.

Fixpoint traverseValues (values : list JSValue) (eventTriggers : list JSValue)
    : outcome (list JSValue) :=
  match values with
  | [] => Ok eventTriggers
  | value :: rest =>
      match traverseValue value eventTriggers with
      | Throw e => Throw e
      | Ok eventTriggers => traverseValues rest eventTriggers
      end
  end.

Section Triggers.
(** [new Parser().astify(sql, { database: "mysql" })] of node-sql-parser:
    the syntax tree, or a thrown syntax error. *)
Variable astify : string -> outcome JSValue.

Definition extractEventTriggersFromSQL (sql : string) : outcome (list JSValue) :=
  let unquotedSQL := unquote sql in
  match astify unquotedSQL with
  | Throw e => Throw e
  | Ok ast => traverseAST ast []
  end.
End Triggers.

(** ** The configuration diff ([config.ts]) *)

Inductive Operation (A : Type) : Type :=
  | OpAdd (id : string) (data : A)
  | OpUpdate (id : string) (data : A)
  | OpDelete (id : string).
Arguments OpAdd {A} id data.
Arguments OpUpdate {A} id data.
Arguments OpDelete {A} id.

Record ConfigDelta : Type := {
  templateOperations : list (Operation Template);
  segmentOperations : list (Operation string);
  campaignOperations : list (Operation CampaignConfig.t);
  transactionOperations : list (Operation Transaction.t);
  emailProviderOperations : list EmailProvider
}.

(** [new Set(keys)], in insertion order. *)
Fixpoint setOf (keys : list string) : list string :=
  match keys with
  | [] => []
  | k :: rest => k :: filter (fun k' => k' ≠ k) (setOf rest)
  end.

Definition has (ids : list string) (id : string) : bool := bool_decide (id ∈ ids).

(** The two loops shared by the four [compute...Operations] functions:
    deletions in the key order of the old record, then additions and
    updates in the key order of the new one. *)
Definition computeOperations {A : Type} (differs : A -> A -> bool)
    (oldEntries newEntries : list (string * A)) : list (Operation A) :=
  let oldIds := setOf (fst <$> oldEntries) in
  let newIds := setOf (fst <$> newEntries) in
  flat_map (fun id => if has newIds id then [] else [OpDelete id]) oldIds
  ++ flat_map (fun id =>
       match assoc id newEntries with
       | None => []
       | Some newEntry =>
           if negb (has oldIds id) then [OpAdd id newEntry]
           else
             match assoc id oldEntries with
             | None => []
             | Some oldEntry =>
                 if differs oldEntry newEntry then [OpUpdate id newEntry] else []
             end
       end) newIds.

Definition computeTemplateOperations
    : list (string * Template) -> list (string * Template)
      -> list (Operation Template) :=
  computeOperations (fun oldTemplate newTemplate =>
    negb (String.eqb (subject oldTemplate) (subject newTemplate))
    || negb (String.eqb (html oldTemplate) (html newTemplate))
    || negb (String.eqb (preamble oldTemplate) (preamble newTemplate))).

Definition computeSegmentOperations
    : list (string * string) -> list (string * string)
      -> list (Operation string) :=
  computeOperations (fun oldEvaluator newEvaluator =>
    negb (String.eqb oldEvaluator newEvaluator)).

Definition computeTransactionOperations
    : list (string * Transaction.t) -> list (string * Transaction.t)
      -> list (Operation Transaction.t) :=
  computeOperations (fun oldTransaction newTransaction =>
    negb (String.eqb (Transaction.event oldTransaction) (Transaction.event newTransaction))
    || negb (String.eqb (Transaction.subject oldTransaction) (Transaction.subject newTransaction))
    || negb (String.eqb (Transaction.html oldTransaction) (Transaction.html newTransaction))
    || negb (String.eqb (Transaction.preamble oldTransaction) (Transaction.preamble newTransaction))).

(** [Array.prototype.sort()] on strings. *)
Fixpoint insertSorted (x : string) (l : list string) : list string :=
  match l with
  | [] => [x]
  | y :: l' => if String.leb x y then x :: y :: l' else y :: insertSorted x l'
  end.

Fixpoint sort (l : list string) : list string :=
  match l with
  | [] => []
  | x :: l' => insertSorted x (sort l')
  end.

(** [JSON.stringify(a) !== JSON.stringify(b)] on arrays of strings. *)
Definition stringifyDiffers (a b : list string) : bool := negb (bool_decide (a = b)).

(** The comparison of an old and a new campaign.  [sort] works in place,
    and [||] evaluates its right operand only when the left one is false:
    the result carries the new campaign as the comparison leaves it. *)
Definition campaignDiffers (oldCampaign newCampaign : CampaignConfig.t)
    : bool * CampaignConfig.t :=
  if negb (String.eqb (CampaignConfig.flow oldCampaign) (CampaignConfig.flow newCampaign))
  then (true, newCampaign)
  else if negb (bool_decide (CampaignConfig.behavior oldCampaign = CampaignConfig.behavior newCampaign))
  then (true, newCampaign)
  else
    let newCampaign :=
      {| CampaignConfig.flow := CampaignConfig.flow newCampaign;
         CampaignConfig.behavior := CampaignConfig.behavior newCampaign;
         CampaignConfig.segments := sort (CampaignConfig.segments newCampaign);
         CampaignConfig.excludeSegments := CampaignConfig.excludeSegments newCampaign |} in
    if stringifyDiffers (sort (CampaignConfig.segments oldCampaign))
         (CampaignConfig.segments newCampaign)
    then (true, newCampaign)
    else
      let newCampaign :=
        {| CampaignConfig.flow := CampaignConfig.flow newCampaign;
           CampaignConfig.behavior := CampaignConfig.behavior newCampaign;
           CampaignConfig.segments := CampaignConfig.segments newCampaign;
           CampaignConfig.excludeSegments := sort <$> CampaignConfig.excludeSegments newCampaign |} in
      (stringifyDiffers
         (default [] (sort <$> CampaignConfig.excludeSegments oldCampaign))
         (default [] (CampaignConfig.excludeSegments newCampaign)),
       newCampaign).

(** [record[id] = v] for an existing key. *)
Fixpoint assign {A : Type} (id : string) (v : A) (entries : list (string * A))
    : list (string * A) :=
  match entries with
  | [] => []
  | (k, w) :: rest =>
      if String.eqb id k then (k, v) :: rest else (k, w) :: assign id v rest
  end.

(** The second loop of [computeCampaignOperations]; [newCampaigns] is the
    record of the pushed configuration, which the comparisons sort in place. *)
Fixpoint campaignAddsAndUpdates (oldCampaigns : list (string * CampaignConfig.t))
    (oldIds : list string) (ids : list string)
    (newCampaigns : list (string * CampaignConfig.t))
    : list (Operation CampaignConfig.t) * list (string * CampaignConfig.t) :=
  match ids with
  | [] => ([], newCampaigns)
  | id :: rest =>
      match assoc id newCampaigns with
      | None => campaignAddsAndUpdates oldCampaigns oldIds rest newCampaigns
      | Some newCampaign =>
          if negb (has oldIds id) then
            let (operations, newCampaigns') :=
              campaignAddsAndUpdates oldCampaigns oldIds rest newCampaigns in
            (OpAdd id newCampaign :: operations, newCampaigns')
          else
            match assoc id oldCampaigns with
            | None => campaignAddsAndUpdates oldCampaigns oldIds rest newCampaigns
            | Some oldCampaign =>
                let (differs, newCampaign') := campaignDiffers oldCampaign newCampaign in
                let (operations, newCampaigns') :=
                  campaignAddsAndUpdates oldCampaigns oldIds rest
                    (assign id newCampaign' newCampaigns) in
                (if differs then OpUpdate id newCampaign' :: operations
                 else operations,
                 newCampaigns')
            end
      end
  end.

Definition computeCampaignOperations
    (oldCampaigns newCampaigns : list (string * CampaignConfig.t))
    : list (Operation CampaignConfig.t) * list (string * CampaignConfig.t) :=
  let oldIds := setOf (fst <$> oldCampaigns) in
  let newIds := setOf (fst <$> newCampaigns) in
  let deletions :=
    flat_map (fun id => if has newIds id then [] else [OpDelete id]) oldIds in
  let (operations, newCampaigns') :=
    campaignAddsAndUpdates oldCampaigns oldIds newIds newCampaigns in
  ((deletions ++ operations)%list, newCampaigns').

(** [!oldProvider || JSON.stringify(oldProvider) !== JSON.stringify(newProvider)]:
    the two texts are the same exactly when the two documents have the
    same keys, in the same order, with the same values. *)
Definition computeEmailProviderOperations (oldProvider : option EmailProvider)
    (newProvider : EmailProvider) : list EmailProvider :=
  match oldProvider with
  | None => [newProvider]
  | Some oldProvider =>
      if bool_decide (oldProvider = newProvider) then [] else [newProvider]
  end.

(** [ORDER BY created_at DESC LIMIT 1]; of several rows with the greatest
    [created_at] the first is returned. *)
Fixpoint latestConfig (rows : list ConfigRow) : option ConfigRow :=
  match rows with
  | [] => None
  | row :: rest =>
      match latestConfig rest with
      | Some later =>
          if (createdAt row <? createdAt later)%Z then Some later else Some row
      | None => Some row
      end
  end.

(** The delta, and the pushed configuration as the comparisons leave it. *)
Definition analyzeConfig (newConfig : Segflow.t) : M (ConfigDelta * Segflow.t) :=
  let! lastConfigResult := select (fun s => latestConfig (configs s)) in
  let lastConfig := configJson <$> lastConfigResult in
  let templateOperations :=
    computeTemplateOperations (default [] (Segflow.templates <$> lastConfig))
      (Segflow.templates newConfig) in
  let segmentOperations :=
    computeSegmentOperations (default [] (Segflow.segments <$> lastConfig))
      (Segflow.segments newConfig) in
  let (campaignOperations, newCampaigns) :=
    computeCampaignOperations (default [] (Segflow.campaigns <$> lastConfig))
      (Segflow.campaigns newConfig) in
  let transactionOperations :=
    computeTransactionOperations (default [] (Segflow.transactions <$> lastConfig))
      (Segflow.transactions newConfig) in
  let emailProviderOperations :=
    computeEmailProviderOperations (Segflow.emailProvider <$> lastConfig)
      (Segflow.emailProvider newConfig) in
  ret ({| templateOperations := templateOperations;
          segmentOperations := segmentOperations;
          campaignOperations := campaignOperations;
          transactionOperations := transactionOperations;
          emailProviderOperations := emailProviderOperations |},
       {| Segflow.templates := Segflow.templates newConfig;
          Segflow.segments := Segflow.segments newConfig;
          Segflow.campaigns := newCampaigns;
          Segflow.transactions := Segflow.transactions newConfig;
          Segflow.emailProvider := Segflow.emailProvider newConfig |}).

(** The services of [services.ts] that [executeConfigDelta] calls. *)
Inductive ServiceCall : Type :=
  | createTemplate (id subject html preamble : string)
  | updateTemplate (id subject html preamble : string)
  | deleteTemplate (id : string)
  | createTransaction (id event subject html preamble : string)
  | updateTransaction (id event subject html preamble : string)
  | deleteTransaction (id : string)
  | createSegment (id evaluator : string)
  | updateSegment (id evaluator : string)
  | deleteSegment (id : string)
  | createCampaign (id flow : string) (behavior : Behavior)
      (segments : list string) (excludeSegments : option (list string))
  | deleteCampaign (id : string)
  | setEmailProvider (data : EmailProvider).

(** What one operation of a delta asks for: a service call, or the
    rejection of a campaign update. *)
Inductive Action : Type :=
  | Call (call : ServiceCall)
  | Reject (message : string).

Section ConfigReconciler.
Variable service : ServiceCall -> M unit.
(** What the JSON column [config_json] returns for a document stored in
    it: MySQL keeps the keys of an object in an order of its own. *)
Variable jsonColumn : Segflow.t -> Segflow.t.

Definition executeConfigDelta (delta : ConfigDelta) : M unit :=
  (* Execute template operations first *)
  let! _ := forEach (templateOperations delta) (fun op =>
    match op with
    | OpAdd id data =>
        service (createTemplate id (subject data) (html data) (preamble data))
    | OpUpdate id data =>
        service (updateTemplate id (subject data) (html data) (preamble data))
    | OpDelete id => service (deleteTemplate id)
    end) in
  (* Execute transaction operations second *)
  let! _ := forEach (transactionOperations delta) (fun op =>
    match op with
    | OpAdd id data =>
        service (createTransaction id (Transaction.event data)
                   (Transaction.subject data) (Transaction.html data)
                   (Transaction.preamble data))
    | OpUpdate id data =>
        service (updateTransaction id (Transaction.event data)
                   (Transaction.subject data) (Transaction.html data)
                   (Transaction.preamble data))
    | OpDelete id => service (deleteTransaction id)
    end) in
  (* Execute segment operations *)
  let! _ := forEach (segmentOperations delta) (fun op =>
    match op with
    | OpAdd id data => service (createSegment id data)
    | OpUpdate id data => service (updateSegment id data)
    | OpDelete id => service (deleteSegment id)
    end) in
  (* Execute campaign operations *)
  let! _ := forEach (campaignOperations delta) (fun op =>
    match op with
    | OpAdd id data =>
        service (createCampaign id (CampaignConfig.flow data) (CampaignConfig.behavior data)
                   (CampaignConfig.segments data) (CampaignConfig.excludeSegments data))
    | OpUpdate id data =>
        throw ("campaign updates are not supported: tried to update '"
               ++ id ++ "'")
    | OpDelete id => service (deleteCampaign id)
    end) in
  (* Execute email provider operations last *)
  forEach (emailProviderOperations delta) (fun data =>
    service (setEmailProvider data)).

Definition nextConfigId (s : Store) : Z :=
  (1 + foldr Z.max 0 (configId <$> configs s))%Z.

(** [createConfig]; the result is [None] for [undefined] ("no changes").
    The row holds the document as it will be read back, and the time of
    the insert ([created_at] defaults to the current time, in seconds). *)
Definition createConfig (now : Z) (config : Segflow.t) : M (option Z) :=
  let! result :=
    transaction
      (let! analysis := analyzeConfig config in
       let (delta, config) := analysis in
       if ((length (templateOperations delta) =? 0)
           && (length (segmentOperations delta) =? 0)
           && (length (campaignOperations delta) =? 0)
           && (length (transactionOperations delta) =? 0)
           && (length (emailProviderOperations delta) =? 0))%nat
       then ret (None, true)
       else
         let! _ := executeConfigDelta delta in
         let! id := select nextConfigId in
         let! _ := update (fun s =>
           set_configs (configs s ++ [{| configId := id;
                                          configJson := jsonColumn config;
                                          createdAt := now |}]) s) in
         ret (Some id, false)) in
  let (newConfigId, noChanges) := result : option Z * bool in
  if negb (match newConfigId with Some id => negb (id =? 0)%Z | None => false end)
     && negb noChanges
  then throw "new config id not found"
  else ret (if noChanges then None else newConfigId).

(** *** The order of application, as the specification words it *)

Definition templateAction (op : Operation Template) : Action :=
  match op with
  | OpAdd id data =>
      Call (createTemplate id (subject data) (html data) (preamble data))
  | OpUpdate id data =>
      Call (updateTemplate id (subject data) (html data) (preamble data))
  | OpDelete id => Call (deleteTemplate id)
  end.

Definition transactionAction (op : Operation Transaction.t) : Action :=
  match op with
  | OpAdd id data =>
      Call (createTransaction id (Transaction.event data) (Transaction.subject data)
              (Transaction.html data) (Transaction.preamble data))
  | OpUpdate id data =>
      Call (updateTransaction id (Transaction.event data) (Transaction.subject data)
              (Transaction.html data) (Transaction.preamble data))
  | OpDelete id => Call (deleteTransaction id)
  end.

Definition segmentAction (op : Operation string) : Action :=
  match op with
  | OpAdd id data => Call (createSegment id data)
  | OpUpdate id data => Call (updateSegment id data)
  | OpDelete id => Call (deleteSegment id)
  end.

Definition campaignAction (op : Operation CampaignConfig.t) : Action :=
  match op with
  | OpAdd id data =>
      Call (createCampaign id (CampaignConfig.flow data) (CampaignConfig.behavior data)
              (CampaignConfig.segments data) (CampaignConfig.excludeSegments data))
  | OpUpdate id data =>
      Reject ("campaign updates are not supported: tried to update '"
              ++ id ++ "'")
  | OpDelete id => Call (deleteCampaign id)
  end.

(** templates, then transactions, then segments, then campaigns, then the
    email provider; each category in the order of its operation list. *)
Definition deltaActions (delta : ConfigDelta) : list Action :=
  (templateAction <$> templateOperations delta)
  ++ (transactionAction <$> transactionOperations delta)
  ++ (segmentAction <$> segmentOperations delta)
  ++ (campaignAction <$> campaignOperations delta)
  ++ ((fun data => Call (setEmailProvider data)) <$> emailProviderOperations delta).

Definition perform (action : Action) : M unit :=
  match action with
  | Call call => service call
  | Reject message => throw message
  end.

(** One action after the other, stopping at the first that throws. *)
Definition performAll (actions : list Action) : M unit :=
  forEach actions perform.
End ConfigReconciler.

(** ** The runtime object [rt] ([buildRuntimeContext]) *)

Definition rt_sendEmail (arg : JSValue) : JSValue :=
  JObj [("type", JStr "SEND_EMAIL"); ("templateId", arg)].

Definition rt_sendSMS (arg : JSValue) : JSValue :=
  JObj [("type", JStr "SEND_SMS"); ("message", arg)].

Definition rt_wait (arg : JSValue) : JSValue :=
  JObj [("type", JStr "WAIT"); ("duration", arg)].

(** [TimeUnits] of [types.ts]: every component is optional.  The
    components are integers, as all numbers are here. *)
Module TimeUnits.
Record t : Type := {
  seconds : option Z;
  minutes : option Z;
  hours : option Z;
  days : option Z;
  weeks : option Z
}.

Definition field (k : string) (v : option Z) : list (string * JSValue) :=
  match v with
  | Some n => [(k, JNum n)]
  | None => []
  end.

(** The object literal with exactly the components that are present. *)
Definition toObject (d : t) : JSValue :=
  JObj (field "seconds" (seconds d) ++ field "minutes" (minutes d)
        ++ field "hours" (hours d) ++ field "days" (days d)
        ++ field "weeks" (weeks d))%list.

(** The sum of the components in milliseconds; a week is 7 days and an
    absent component counts for nothing. *)
Definition total (d : t) : Z :=
  (default 0 (seconds d) * 1000
   + default 0 (minutes d) * 60000
   + default 0 (hours d) * 3600000
   + default 0 (days d) * 86400000
   + default 0 (weeks d) * 7 * 86400000)%Z.

(** The time values on the way from [now] to [now + total d]: after the
    seconds, the minutes, the hours, the days and the weeks. *)
Definition steps (now : Z) (d : t) : list Z :=
  let afterSeconds := (now + default 0 (seconds d) * 1000)%Z in
  let afterMinutes := (afterSeconds + default 0 (minutes d) * 60000)%Z in
  let afterHours := (afterMinutes + default 0 (hours d) * 3600000)%Z in
  let afterDays := (afterHours + default 0 (days d) * 86400000)%Z in
  let afterWeeks := (afterDays + default 0 (weeks d) * 7 * 86400000)%Z in
  [afterSeconds; afterMinutes; afterHours; afterDays; afterWeeks].

(** No component exceeds 10^9 in magnitude: the numbers the setters work
    with then stay below 2^53, where JavaScript adds and multiplies
    integers exactly. *)
Definition moderate (d : t) : Prop :=
  Forall (fun component => (Z.abs (default 0 component) <= 10 ^ 9)%Z)
    [seconds d; minutes d; hours d; days d; weeks d].
End TimeUnits.

(** ** The two ways a step ends without a command *)

(** The execution row of [state], marked [completed]. *)
Definition markCompleted (state : ExecutionState.t) (s : Store) : Store :=
  set_executions
    (alter (fun row => {| status := completed; sleepUntil := sleepUntil row;
                          error := error row |})
       (ExecutionState.userId state, ExecutionState.campaignId state)
       (executions s)) s.

(** The execution row of [state], marked [failed] with an error message. *)
Definition markFailed (state : ExecutionState.t) (message : string) (s : Store)
    : Store :=
  set_executions
    (alter (fun row => {| status := failed; sleepUntil := sleepUntil row;
                          error := Some message |})
       (ExecutionState.userId state, ExecutionState.campaignId state)
       (executions s)) s.

(** ** Syntax trees *)

(** [node] occurs in the syntax tree [ast]: it is [ast] itself, or occurs
    in an element of the array [ast], or in a property value of the object
    [ast]. *)
Inductive occursIn (node : JSValue) : JSValue -> Prop :=
  | occurs_here : occursIn node node
  | occurs_item items item :
      item ∈ items -> occursIn node item -> occursIn node (JArr items)
  | occurs_prop props k v :
      (k, v) ∈ props -> occursIn node v -> occursIn node (JObj props).

(** ** Event triggers: what the traversal does at a node *)

(** The values the two [if] statements of [traverseAST] add at [node], in
    the terms of the tests they make. *)
Definition visitAdds (node V : JSValue) : Prop :=
  is_str (prop node "type") "binary_expr" = true
  ∧ exists operator, prop node "operator" = JStr operator
    ∧ (((operator = "=" ∨ operator = "==")
        ∧ ((isEventsName (prop node "left") = true
            ∧ isStringNode (prop node "right") = true
            ∧ V = prop (prop node "right") "value")
           ∨ (isEventsName (prop node "right") = true
              ∧ isStringNode (prop node "left") = true
              ∧ V = prop (prop node "left") "value")))
       ∨ (toLowerCase operator = "in"
          ∧ isEventsName (prop node "left") = true
          ∧ exists items, prop (prop node "right") "value" = JArr items
            ∧ exists item, item ∈ items ∧ isStringNode item = true
              ∧ V = prop item "value")).

Definition traversalAdds (ast V : JSValue) : Prop :=
  exists node, occursIn node ast ∧ visitAdds node V.

(** A node at which the traversal raises no [TypeError] and adds strings
    only: [node.operator] is a string and [right] is not missing when the
    node is a binary expression, the value of a node the traversal takes
    for a string literal is a string, and no element of a list value is
    [null] or [undefined]. *)
Definition safeNode (node : JSValue) : Prop :=
  (is_str (prop node "type") "binary_expr" = true ->
     (exists operator, prop node "operator" = JStr operator)
     ∧ nullish (prop node "right") = false)
  ∧ (isStringNode node = true -> exists s, prop node "value" = JStr s)
  ∧ (forall items, prop node "value" = JArr items ->
       Forall (fun item => nullish item = false) items).

(** [SELECT id FROM events WHERE events.name = 'purchase'
     OR events.name IN ('signup', 'purchase')], in outline. *)
Definition eventsName : JSValue :=
  JObj [("type", JStr "column_ref"); ("table", JStr "events");
        ("column", JStr "name")].

Definition literal (s : string) : JSValue :=
  JObj [("type", JStr "single_quote_string"); ("value", JStr s)].

Definition purchaseOrSignup : JSValue :=
  JObj [("type", JStr "select");
        ("where",
         JObj [("type", JStr "binary_expr"); ("operator", JStr "OR");
               ("left",
                JObj [("type", JStr "binary_expr"); ("operator", JStr "=");
                      ("left", eventsName); ("right", literal "purchase")]);
               ("right",
                JObj [("type", JStr "binary_expr"); ("operator", JStr "IN");
                      ("left", eventsName);
                      ("right",
                       JObj [("type", JStr "expr_list");
                             ("value",
                              JArr [literal "signup"; literal "purchase"])])])])].

(** ** Example data *)

Definition emptyStore : Store :=
  {| users := ∅; events := []; segments := ∅; segmentUsers := ∅;
     segmentEventTriggers := ∅; campaigns := ∅;
     schema.campaignSegments := ∅; schema.campaignExcludeSegments := ∅;
     campaignUsers := ∅; executions := ∅; executionHistory := [];
     templates := ∅; transactions := ∅; emailProvider := None;
     configs := []; outbox := [] |}.

(** One user [u1] in the segment [active]; a dynamic campaign [trial] over
    that segment, which the user has not joined yet. *)
Definition trialCampaign : Campaign :=
  {| flow := "function* (ctx, rt) { yield rt.sendEmail('welcome'); }";
     behavior := dynamic |}.

Definition trialStore : Store :=
  {| users := {[ "u1" := JObj [("email", JStr "a@x")] ]};
     events := [];
     segments := {[ "active" := "SELECT id FROM users" ]};
     segmentUsers := {[ ("u1", "active") ]};
     segmentEventTriggers := ∅;
     campaigns := {[ "trial" := trialCampaign ]};
     schema.campaignSegments := {[ ("trial", "active") ]};
     schema.campaignExcludeSegments := ∅;
     campaignUsers := ∅; executions := ∅; executionHistory := [];
     templates := ∅; transactions := ∅; emailProvider := None;
     configs := []; outbox := [] |}.

(** The same store once the user has joined [trial]: a pending execution. *)
Definition joinedStore : Store :=
  set_executions
    {[ ("u1", "trial") := {| status := running; sleepUntil := 0; error := None |} ]}
    (set_campaignUsers {[ ("u1", "trial") ]} trialStore).

Definition claimedRow : ExecutionState.t :=
  {| ExecutionState.userId := "u1"; ExecutionState.campaignId := "trial";
     ExecutionState.status := pending; ExecutionState.sleepUntil := 0 |}.

(** Flow programs as state machines over the number of advances made. *)

(** [function* (ctx, rt) { yield rt.sendEmail("welcome"); yield rt.wait({days: 1}); }] *)
Definition welcomeFlow (g : nat) (attrs : JSValue) : @IterResult nat :=
  match g with
  | 0%nat => IterYield (rt_sendEmail (JStr "welcome")) 1%nat attrs
  | 1%nat => IterYield (rt_wait (JObj [("days", JNum 1)])) 2%nat attrs
  | _ => IterReturn JUndefined attrs
  end.

(** [function* (ctx, rt) { return "x"; }] *)
Definition returningFlow (g : nat) (attrs : JSValue) : @IterResult nat :=
  IterReturn (JStr "x") attrs.

(** [function* (ctx, rt) { }] *)
Definition emptyFlow (g : nat) (attrs : JSValue) : @IterResult nat :=
  IterReturn JUndefined attrs.

(** [function* (ctx, rt) { yield; }] *)
Definition undefinedFlow (g : nat) (attrs : JSValue) : @IterResult nat :=
  match g with
  | 0%nat => IterYield JUndefined 1%nat attrs
  | _ => IterReturn JUndefined attrs
  end.

(** [function* (ctx, rt) { return null; }] *)
Definition nullFlow (g : nat) (attrs : JSValue) : @IterResult nat :=
  IterReturn JNull attrs.

(** [function* (ctx, rt) { yield 0; }] *)
Definition zeroFlow (g : nat) (attrs : JSValue) : @IterResult nat :=
  match g with
  | 0%nat => IterYield (JNum 0) 1%nat attrs
  | _ => IterReturn JUndefined attrs
  end.

Definition startFlow (code : string) : outcome nat := Ok 0%nat.

(** ** Properties of the store, as the specification words them *)

(** [matches(user, campaign)]: the user is in every include segment of the
    campaign and in none of its exclude segments. *)
Definition matchesCampaign (s : Store) (userId campaignId : string) : Prop :=
  (forall segmentId, (campaignId, segmentId) ∈ schema.campaignSegments s ->
     (userId, segmentId) ∈ segmentUsers s)
  ∧ (forall segmentId, (campaignId, segmentId) ∈ schema.campaignExcludeSegments s ->
       (userId, segmentId) ∉ segmentUsers s).

Definition isMember (s : Store) (userId campaignId : string) : Prop :=
  (userId, campaignId) ∈ campaignUsers s.

(** ** Order of operations, as the specification words it *)

Definition isDelete {A : Type} (op : Operation A) : bool :=
  match op with
  | OpDelete _ => true
  | _ => false
  end.

Definition operationId {A : Type} (op : Operation A) : string :=
  match op with
  | OpAdd id _ | OpUpdate id _ | OpDelete id => id
  end.

(** Rank of an operation in the order "deletes, then adds, then updates". *)
Definition kindRank {A : Type} (op : Operation A) : nat :=
  match op with
  | OpDelete _ => 0
  | OpAdd _ _ => 1
  | OpUpdate _ _ => 2
  end.

(** All deletes first, then all adds, then all updates. *)
Definition deletesAddsUpdates {A : Type} (ops : list (Operation A)) : Prop :=
  Sorted (fun a b => kindRank a <= kindRank b)%nat ops.

(** All deletes first, in the key order of the old record; then adds and
    updates, in the key order of the new record. *)
Definition deletesThenRest {A : Type} (oldKeys newKeys : list string)
    (ops : list (Operation A)) : Prop :=
  exists deletions rest,
    ops = (deletions ++ rest)%list
    ∧ Forall (fun op => isDelete op = true) deletions
    ∧ Forall (fun op => isDelete op = false) rest
    ∧ sublist (operationId <$> deletions) oldKeys
    ∧ sublist (operationId <$> rest) newKeys.

(** ** Example configurations *)

Definition welcomeV1 : Template :=
  {| subject := "(user) => 'Welcome'"; html := "<p>Hi</p>"; preamble := "" |}.
Definition welcomeV2 : Template :=
  {| subject := "(user) => 'Welcome back'"; html := "<p>Hi</p>"; preamble := "" |}.
Definition goodbye : Template :=
  {| subject := "(user) => 'Bye'"; html := "<p>Bye</p>"; preamble := "" |}.

Definition provider : EmailProvider :=
  {| config := postmark "key"; fromAddress := "noreply@x";
     configFirst := true |}.

Definition configV1 : Segflow.t :=
  {| Segflow.templates := [("welcome", welcomeV1)];
     Segflow.segments := [("all", "SELECT id FROM users")];
     Segflow.campaigns :=
       [("onboarding",
         {| CampaignConfig.flow := "function* (ctx, rt) { }";
            CampaignConfig.behavior := static;
            CampaignConfig.segments := ["b"; "a"];
            CampaignConfig.excludeSegments := None |})];
     Segflow.transactions := [];
     Segflow.emailProvider := provider |}.

(** [configV1] with the template [welcome] changed and [goodbye] added. *)
Definition configV2 : Segflow.t :=
  {| Segflow.templates := [("welcome", welcomeV2); ("goodbye", goodbye)];
     Segflow.segments := Segflow.segments configV1;
     Segflow.campaigns := Segflow.campaigns configV1;
     Segflow.transactions := [];
     Segflow.emailProvider := provider |}.

(** A store whose last accepted configuration is [configV1]. *)
Definition storeV1 : Store :=
  set_configs [{| configId := 1; configJson := configV1; createdAt := 100 |}]
    emptyStore.

(** Services for the template table only: [createTemplate] inserts the row,
    [updateTemplate] fails on a template that does not exist. *)
Definition templateServices (call : ServiceCall) : M unit :=
  match call with
  | createTemplate id subject html preamble =>
      fun s =>
        (Ok tt,
         {| users := users s; events := events s; segments := segments s;
            segmentUsers := segmentUsers s;
            segmentEventTriggers := segmentEventTriggers s;
            campaigns := campaigns s;
            schema.campaignSegments := schema.campaignSegments s;
            schema.campaignExcludeSegments := schema.campaignExcludeSegments s;
            campaignUsers := campaignUsers s; executions := executions s;
            executionHistory := executionHistory s;
            templates := <[id := {| subject := subject; html := html;
                                    preamble := preamble |}]> (templates s);
            transactions := transactions s; emailProvider := emailProvider s;
            configs := configs s; outbox := outbox s |})
  | updateTemplate id _ _ _ =>
      let! template := select (fun s => templates s !! id) in
      match template with
      | None => throw "template not found"
      | Some _ => ret tt
      end
  | _ => ret tt
  end.

(** ** Notions used in the proofs *)

(** The tables that decide [matchesCampaign]. *)
Definition sameSegments (s s0 : Store) : Prop :=
  segmentUsers s = segmentUsers s0
  ∧ schema.campaignSegments s = schema.campaignSegments s0
  ∧ schema.campaignExcludeSegments s = schema.campaignExcludeSegments s0.

(** Membership of a campaign after one pass of the loop body. *)
Definition membershipAfter (s0 : Store) (userId id : string) (campaign : Campaign)
    : Prop :=
  match behavior campaign with
  | static => isMember s0 userId id ∨ matchesCampaign s0 userId id
  | dynamic => matchesCampaign s0 userId id
  end.

(** Every node below [node] has the shape the parser gives it. *)
Definition safeWithin (node : JSValue) : Prop :=
  forall n, occursIn n node -> safeNode n.

(** What a traversal does to the set collected so far. *)
Definition collects {A : Type} (run : A -> list JSValue -> outcome (list JSValue))
    (mentions : A -> JSValue -> Prop) (a : A) : Prop :=
  forall names, NoDup names ->
  exists names', run a (JStr <$> names) = Ok (JStr <$> names')
    ∧ NoDup names'
    ∧ forall V, V ∈ names' <-> V ∈ names ∨ mentions a (JStr V).

(** Sorted for the order [sort] uses. *)
Definition lebSorted : list string -> Prop :=
  Sorted (fun a b => String.leb a b = true).

(** What [campaignDiffers] compares. *)
Definition campaignKey (c : CampaignConfig.t)
    : string * Behavior * list string * list string :=
  (CampaignConfig.flow c, CampaignConfig.behavior c,
   sort (CampaignConfig.segments c),
   default [] (sort <$> CampaignConfig.excludeSegments c)).

(** Two records of campaigns with the same keys in the same order and
    entries that [campaignDiffers] does not tell apart. *)
Definition sameCampaigns
    (entries1 entries2 : list (string * CampaignConfig.t)) : Prop :=
  Forall2 (fun p q => p.1 = q.1 ∧ campaignKey p.2 = campaignKey q.2)
    entries1 entries2.

(** A stored configuration that the diff does not tell apart from the
    pushed one. *)
Definition sameConfig (stored pushed : Segflow.t) : Prop :=
  Segflow.templates stored = Segflow.templates pushed
  ∧ Segflow.segments stored = Segflow.segments pushed
  ∧ sameCampaigns (Segflow.campaigns stored) (Segflow.campaigns pushed)
  ∧ Segflow.transactions stored = Segflow.transactions pushed
  ∧ Segflow.emailProvider stored = Segflow.emailProvider pushed.

(** Two records of campaigns with the same keys, in whatever order, and
    entries that [campaignDiffers] does not tell apart. *)
Definition sameCampaignKeys
    (entries1 entries2 : list (string * CampaignConfig.t)) : Prop :=
  forall id,
    campaignKey <$> assoc id entries1 = campaignKey <$> assoc id entries2.

(** The document [stored] reads as the configuration [pushed]: each record
    has the same entries under the same keys, whatever the order of the
    keys; the campaigns have the same flow, behavior and sets of segments;
    and the email provider has the same keys in the same order with the
    same values, that is, the same JSON text. *)
Definition readsBackAs (stored pushed : Segflow.t) : Prop :=
  (forall id, assoc id (Segflow.templates stored)
              = assoc id (Segflow.templates pushed))
  ∧ (forall id, assoc id (Segflow.segments stored)
                = assoc id (Segflow.segments pushed))
  ∧ sameCampaignKeys (Segflow.campaigns stored) (Segflow.campaigns pushed)
  ∧ (forall id, assoc id (Segflow.transactions stored)
                = assoc id (Segflow.transactions pushed))
  ∧ Segflow.emailProvider stored = Segflow.emailProvider pushed.

(** A delta with no operation for any entity type. *)
Definition noOperations (delta : ConfigDelta) : Prop :=
  templateOperations delta = [] ∧ segmentOperations delta = []
  ∧ campaignOperations delta = [] ∧ transactionOperations delta = []
  ∧ emailProviderOperations delta = [].

(** ** The other tables: setters *)

Definition set_events (v : list EventRow) (s : Store) : Store :=
  {| users := users s; events := v; segments := segments s;
     segmentUsers := segmentUsers s;
     segmentEventTriggers := segmentEventTriggers s;
     campaigns := campaigns s; campaignSegments := schema.campaignSegments s;
     campaignExcludeSegments := schema.campaignExcludeSegments s;
     campaignUsers := campaignUsers s; executions := executions s;
     executionHistory := executionHistory s; templates := templates s;
     transactions := transactions s; emailProvider := emailProvider s;
     configs := configs s; outbox := outbox s |}.

Definition set_segments (v : gmap string string) (s : Store) : Store :=
  {| users := users s; events := events s; segments := v;
     segmentUsers := segmentUsers s;
     segmentEventTriggers := segmentEventTriggers s;
     campaigns := campaigns s; campaignSegments := schema.campaignSegments s;
     campaignExcludeSegments := schema.campaignExcludeSegments s;
     campaignUsers := campaignUsers s; executions := executions s;
     executionHistory := executionHistory s; templates := templates s;
     transactions := transactions s; emailProvider := emailProvider s;
     configs := configs s; outbox := outbox s |}.

Definition set_segmentEventTriggers (v : gset (string * string)) (s : Store)
    : Store :=
  {| users := users s; events := events s; segments := segments s;
     segmentUsers := segmentUsers s; segmentEventTriggers := v;
     campaigns := campaigns s; campaignSegments := schema.campaignSegments s;
     campaignExcludeSegments := schema.campaignExcludeSegments s;
     campaignUsers := campaignUsers s; executions := executions s;
     executionHistory := executionHistory s; templates := templates s;
     transactions := transactions s; emailProvider := emailProvider s;
     configs := configs s; outbox := outbox s |}.

Definition set_campaigns (v : gmap string Campaign) (s : Store) : Store :=
  {| users := users s; events := events s; segments := segments s;
     segmentUsers := segmentUsers s;
     segmentEventTriggers := segmentEventTriggers s; campaigns := v;
     campaignSegments := schema.campaignSegments s;
     campaignExcludeSegments := schema.campaignExcludeSegments s;
     campaignUsers := campaignUsers s; executions := executions s;
     executionHistory := executionHistory s; templates := templates s;
     transactions := transactions s; emailProvider := emailProvider s;
     configs := configs s; outbox := outbox s |}.

Definition set_campaignSegments (v : gset (string * string)) (s : Store)
    : Store :=
  {| users := users s; events := events s; segments := segments s;
     segmentUsers := segmentUsers s;
     segmentEventTriggers := segmentEventTriggers s;
     campaigns := campaigns s; campaignSegments := v;
     campaignExcludeSegments := schema.campaignExcludeSegments s;
     campaignUsers := campaignUsers s; executions := executions s;
     executionHistory := executionHistory s; templates := templates s;
     transactions := transactions s; emailProvider := emailProvider s;
     configs := configs s; outbox := outbox s |}.

Definition set_campaignExcludeSegments (v : gset (string * string)) (s : Store)
    : Store :=
  {| users := users s; events := events s; segments := segments s;
     segmentUsers := segmentUsers s;
     segmentEventTriggers := segmentEventTriggers s;
     campaigns := campaigns s; campaignSegments := schema.campaignSegments s;
     campaignExcludeSegments := v; campaignUsers := campaignUsers s;
     executions := executions s; executionHistory := executionHistory s;
     templates := templates s; transactions := transactions s;
     emailProvider := emailProvider s; configs := configs s;
     outbox := outbox s |}.

Definition set_templates (v : gmap string Template) (s : Store) : Store :=
  {| users := users s; events := events s; segments := segments s;
     segmentUsers := segmentUsers s;
     segmentEventTriggers := segmentEventTriggers s;
     campaigns := campaigns s; campaignSegments := schema.campaignSegments s;
     campaignExcludeSegments := schema.campaignExcludeSegments s;
     campaignUsers := campaignUsers s; executions := executions s;
     executionHistory := executionHistory s; templates := v;
     transactions := transactions s; emailProvider := emailProvider s;
     configs := configs s; outbox := outbox s |}.

Definition set_transactions (v : gmap string Transaction.t) (s : Store)
    : Store :=
  {| users := users s; events := events s; segments := segments s;
     segmentUsers := segmentUsers s;
     segmentEventTriggers := segmentEventTriggers s;
     campaigns := campaigns s; campaignSegments := schema.campaignSegments s;
     campaignExcludeSegments := schema.campaignExcludeSegments s;
     campaignUsers := campaignUsers s; executions := executions s;
     executionHistory := executionHistory s; templates := templates s;
     transactions := v; emailProvider := emailProvider s;
     configs := configs s; outbox := outbox s |}.

Definition set_emailProvider (v : option EmailProvider) (s : Store) : Store :=
  {| users := users s; events := events s; segments := segments s;
     segmentUsers := segmentUsers s;
     segmentEventTriggers := segmentEventTriggers s;
     campaigns := campaigns s; campaignSegments := schema.campaignSegments s;
     campaignExcludeSegments := schema.campaignExcludeSegments s;
     campaignUsers := campaignUsers s; executions := executions s;
     executionHistory := executionHistory s; templates := templates s;
     transactions := transactions s; emailProvider := v;
     configs := configs s; outbox := outbox s |}.

(** ** Notions used in the further properties *)

(** The store after the user has joined the campaign. *)
Definition joinCampaign (userId campaignId : string) (s : Store) : Store :=
  set_campaignUsers ({[ (userId, campaignId) ]} ∪ campaignUsers s) s.

(** The store after the membership row has been deleted, together with the
    execution and the history rows that cascade from it. *)
Definition leaveCampaign (userId campaignId : string) (s : Store) : Store :=
  set_campaignUsers (campaignUsers s ∖ {[ (userId, campaignId) ]})
    (set_executions (delete (userId, campaignId) (executions s))
       (set_executionHistory
          (filter (fun h => ¬ (historyUserId h = userId
                               ∧ historyCampaignId h = campaignId))
             (executionHistory s)) s)).

(** A membership of [s0] that is gone in [s]. *)
Definition membershipEnded (s0 s : Store) (key : string * string) : Prop :=
  key ∈ campaignUsers s0 ∧ key ∉ campaignUsers s.

(** [s] differs from [s0] in campaign memberships only, and in the
    executions and history rows of the memberships that ended. *)
Definition membershipsChanged (s0 s : Store) : Prop :=
  s = set_campaignUsers (campaignUsers s)
        (set_executions (executions s)
           (set_executionHistory (executionHistory s) s0))
  ∧ (forall key,
       executions s !! key
       = if decide (membershipEnded s0 s key) then None
         else executions s0 !! key)
  ∧ executionHistory s
    = filter (fun h =>
          ¬ membershipEnded s0 s (historyUserId h, historyCampaignId h))
        (executionHistory s0).

(** The changes reported for a user are the changes made between [s0] and
    [s], among the campaigns [ids]. *)
Definition reportsChanges (s0 s : Store) (userId : string) (ids : list string)
    (results : CampaignChanges) : Prop :=
  (forall c, c ∈ added results
     <-> c ∈ ids ∧ ~ isMember s0 userId c ∧ isMember s userId c)
  ∧ (forall c, c ∈ removed results
       <-> c ∈ ids ∧ isMember s0 userId c ∧ ~ isMember s userId c)
  ∧ NoDup (added results) ∧ NoDup (removed results).

(** Every execution row belongs to a campaign membership (the foreign key
    [e_user_campaign_fk]). *)
Definition executionsHaveMembership (s : Store) : Prop :=
  forall key, is_Some (executions s !! key) -> key ∈ campaignUsers s.

(** The state of the loop of [evaluateUserCampaigns] once the campaigns
    [seen] have been evaluated against the snapshot taken in [s0]. *)
Definition campaignsEvaluated (s0 : Store) (userId : string)
    (seen : list (string * Campaign)) (results : CampaignChanges) (s : Store)
    : Prop :=
  membershipsChanged s0 s
  ∧ (forall id campaign, (id, campaign) ∈ seen ->
       isMember s userId id <-> membershipAfter s0 userId id campaign)
  ∧ (forall p, (forall id, id ∈ seen.*1 -> p ≠ (userId, id)) ->
       p ∈ campaignUsers s <-> p ∈ campaignUsers s0)
  ∧ reportsChanges s0 s userId seen.*1 results
  ∧ ((forall id campaign, (id, campaign) ∈ seen ->
        isMember s0 userId id <-> membershipAfter s0 userId id campaign) ->
     s = s0 ∧ results = {| added := []; removed := [] |}).

(** The row [createExecution] inserts. *)
Definition pendingExecution (now : Z) : Execution :=
  {| status := pending; sleepUntil := now; error := None |}.

(** Every history row belongs to an execution row (the foreign key
    [ehs_execution_fk]). *)
Definition historyHasExecution (s : Store) : Prop :=
  forall h, h ∈ executionHistory s ->
    is_Some (executions s !! (historyUserId h, historyCampaignId h)).

(** The tables other than the segment and campaign memberships, the
    executions and the history. *)
Definition otherTables (s : Store) :=
  (users s, events s, segments s, segmentEventTriggers s, campaigns s,
   schema.campaignSegments s, schema.campaignExcludeSegments s, templates s,
   transactions s, emailProvider s, configs s, outbox s).

(** [s'] differs from [s] in the segment and campaign memberships, the
    executions and the history at most. *)
Definition membershipsOnly (s s' : Store) : Prop :=
  otherTables s' = otherTables s.

(** Whether a backtick occurs in a string. *)
Fixpoint hasBacktick (sql : string) : bool :=
  match sql with
  | EmptyString => false
  | String c rest => Ascii.eqb c "`"%char || hasBacktick rest
  end.

(** ** Event triggers, as the specification words them *)

(** The text with its backticks stripped. *)
Fixpoint withoutBackticks (sql : string) : string :=
  match sql with
  | EmptyString => EmptyString
  | String c rest =>
      if Ascii.eqb c "`"%char then withoutBackticks rest
      else String c (withoutBackticks rest)
  end.

(** The backticks of the text quote identifiers: they come in pairs, each
    pair around a name that is not empty and holds no backtick. *)
Inductive backtickQuoted : string -> Prop :=
  | quoted_none (sql : string) :
      hasBacktick sql = false -> backtickQuoted sql
  | quoted_identifier (before name rest : string) :
      hasBacktick before = false -> hasBacktick name = false -> name ≠ "" ->
      backtickQuoted rest ->
      backtickQuoted (before ++ "`" ++ name ++ "`" ++ rest).

(** The node that stands for the column [events.name]. *)
Definition eventsNameColumn (node : JSValue) : Prop :=
  prop node "type" = JStr "column_ref"
  ∧ prop node "table" = JStr "events"
  ∧ prop node "column" = JStr "name".

(** The node that stands for the string literal ['V']: the parser gives
    it the type [single_quote_string] ([string] in its older versions). *)
Definition stringLiteral (V : string) (node : JSValue) : Prop :=
  (prop node "type" = JStr "single_quote_string"
   ∨ prop node "type" = JStr "string")
  ∧ prop node "value" = JStr V.

(** [node] is one of the comparisons [events.name = 'V'],
    ['V' = events.name] and [events.name IN (..., 'V', ...)], the keyword
    [IN] written in any letter case. *)
Definition comparesEventName (node : JSValue) (V : string) : Prop :=
  prop node "type" = JStr "binary_expr"
  ∧ ((prop node "operator" = JStr "="
      ∧ ((eventsNameColumn (prop node "left")
          ∧ stringLiteral V (prop node "right"))
         ∨ (stringLiteral V (prop node "left")
            ∧ eventsNameColumn (prop node "right"))))
     ∨ ((exists operator, prop node "operator" = JStr operator
           ∧ operator ∈ ["IN"; "in"; "In"; "iN"])
        ∧ eventsNameColumn (prop node "left")
        ∧ exists items item,
            prop (prop node "right") "value" = JArr items
            ∧ item ∈ items ∧ stringLiteral V item)).

(** Such a comparison appears somewhere in the tree. *)
Definition mentionsTrigger (ast : JSValue) (V : string) : Prop :=
  exists node, occursIn node ast ∧ comparesEventName node V.

(** The shape of the trees the parser builds for MySQL: a binary
    expression has an operator, which is a string and never [==] (MySQL
    has no such operator), and a right operand; the value of a string
    literal is a string; the elements of a list value are nodes. *)
Definition wellFormedNode (node : JSValue) : Prop :=
  (prop node "type" = JStr "binary_expr" ->
     (exists operator, prop node "operator" = JStr operator ∧ operator ≠ "==")
     ∧ prop node "right" ≠ JUndefined ∧ prop node "right" ≠ JNull)
  ∧ (prop node "type" = JStr "single_quote_string"
     ∨ prop node "type" = JStr "string" ->
     exists V, prop node "value" = JStr V)
  ∧ (forall items item, prop node "value" = JArr items -> item ∈ items ->
       item ≠ JUndefined ∧ item ≠ JNull).

Definition wellFormed (ast : JSValue) : Prop :=
  forall node, occursIn node ast -> wellFormedNode node.

(** [wellFormedNode] and [wellFormed], decided. *)
Definition wellFormedNodeb (node : JSValue) : bool :=
  (if is_str (prop node "type") "binary_expr"
   then match prop node "operator" with
        | JStr operator => negb (String.eqb operator "==")
        | _ => false
        end
        && negb (nullish (prop node "right"))
   else true)
  && (if is_str (prop node "type") "single_quote_string"
         || is_str (prop node "type") "string"
      then match prop node "value" with JStr _ => true | _ => false end
      else true)
  && match prop node "value" with
     | JArr items => forallb (fun item => negb (nullish item)) items
     | _ => true
     end.

Fixpoint wellFormedb (ast : JSValue) : bool :=
  wellFormedNodeb ast
  && match ast with
     | JArr items =>
         (fix all (items : list JSValue) : bool :=
            match items with
            | [] => true
            | item :: rest => wellFormedb item && all rest
            end) items
     | JObj props =>
         (fix all (props : list (string * JSValue)) : bool :=
            match props with
            | [] => true
            | (_, v) :: rest => wellFormedb v && all rest
            end) props
     | _ => true
     end.

(** A parser that knows one statement, and the tree it builds for it. *)
Definition purchaseOrSignupParser (sql : string) : outcome JSValue :=
  if String.eqb sql
       "SELECT id FROM events WHERE events.name = 'purchase' OR events.name IN ('signup', 'purchase')"
  then Ok purchaseOrSignup
  else Throw "syntax error".

(** ** Rows, foreign keys and object spread *)

(** [record[k] = v]: an existing key keeps its place, a new key comes
    last. *)
Fixpoint setProp (k : string) (v : JSValue) (props : list (string * JSValue))
    : list (string * JSValue) :=
  match props with
  | [] => [(k, v)]
  | (k', w) :: rest =>
      if String.eqb k k' then (k', v) :: rest else (k', w) :: setProp k v rest
  end.

(** The own enumerable properties that an object spread copies: those of an
    object, the elements of an array and the characters of a string under
    their indices, nothing for the other values. *)
Definition ownEntries (v : JSValue) : list (string * JSValue) :=
  match v with
  | JObj props => props
  | JArr items => imap (fun i item => (pretty i, item)) items
  | JStr s =>
      imap (fun i c => (pretty i, JStr (String c ""))) (list_ascii_of_string s)
  | _ => []
  end.

(** [{ ...existing, ...attributes }], the second operand being a record. *)
Definition spread (existing : JSValue) (attributes : list (string * JSValue))
    : JSValue :=
  JObj (foldl (fun props entry => setProp entry.1 entry.2 props)
          (foldl (fun props entry => setProp entry.1 entry.2 props) []
             (ownEntries existing))
          attributes).

Record DeleteCampaignResponse : Type := {
  deletedMemberships : nat;
  deletedExecutions : nat
}.

(** [DELETE FROM users WHERE id = ?].  The events and the segment
    memberships of the user go with the row ([ON DELETE CASCADE]); the
    foreign key of [campaign_users] has no such clause, so that a user
    with a campaign membership cannot be deleted. *)
Definition deleteUserRow (userId : string) : M unit :=
  let! existing := select (fun s => users s !! userId) in
  match existing with
  | None => ret tt
  | Some _ =>
      let! memberships := select (fun s => whereFirst userId (campaignUsers s)) in
      match memberships with
      | _ :: _ =>
          throw "Cannot delete or update a parent row: a foreign key constraint fails"
      | [] =>
          update (fun s =>
            set_users (delete userId (users s))
              (set_events
                 (filter (fun e => eventUserId e ≠ userId) (events s))
                 (set_segmentUsers
                    (filter (fun r => r.1 ≠ userId) (segmentUsers s)) s)))
      end
  end.

(** [DELETE FROM segments WHERE id = ?].  Memberships and event triggers
    cascade; a row of [campaign_segments] or [campaign_exclude_segments]
    that references the segment blocks the deletion. *)
Definition deleteSegmentRow (segmentId : string) : M unit :=
  let! existing := select (fun s => segments s !! segmentId) in
  match existing with
  | None => ret tt
  | Some _ =>
      let! references :=
        select (fun s =>
          filter (fun r => r.2 = segmentId)
            (elements (schema.campaignSegments s)
             ++ elements (schema.campaignExcludeSegments s))%list) in
      match references with
      | _ :: _ =>
          throw "Cannot delete or update a parent row: a foreign key constraint fails"
      | [] =>
          update (fun s =>
            set_segments (delete segmentId (segments s))
              (set_segmentUsers
                 (filter (fun r => r.2 ≠ segmentId) (segmentUsers s))
                 (set_segmentEventTriggers
                    (filter (fun r => r.1 ≠ segmentId)
                       (segmentEventTriggers s)) s)))
      end
  end.

(** [DELETE FROM campaigns WHERE id = ?], with everything that cascades
    from the row: its segment relations, its memberships, the executions
    of those memberships and the history of those executions. *)
Definition deleteCampaignRow (campaignId : string) : M unit :=
  let! existing := select (fun s => campaigns s !! campaignId) in
  match existing with
  | None => ret tt
  | Some _ =>
      update (fun s =>
        let gone := filter (fun r => r.2 = campaignId) (campaignUsers s) in
        let ended :=
          filter (fun row => row.1 ∈ gone) (executions s) in
        set_campaigns (delete campaignId (campaigns s))
          (set_campaignSegments
             (filter (fun r => r.1 ≠ campaignId) (schema.campaignSegments s))
             (set_campaignExcludeSegments
                (filter (fun r => r.1 ≠ campaignId)
                   (schema.campaignExcludeSegments s))
                (set_campaignUsers (campaignUsers s ∖ gone)
                   (set_executions
                      (filter (fun row => row.1 ∉ gone) (executions s))
                      (set_executionHistory
                         (filter (fun h =>
                            ¬ is_Some (ended !! (historyUserId h,
                                                 historyCampaignId h)))
                            (executionHistory s)) s))))))
  end.

Inductive SegmentReference : Type := include | exclude.

(** The join of [campaigns] with the two relation tables, restricted to
    the segment; the rows come in the order of the campaigns table. *)
Definition checkSegmentDeletionConstraints (segmentId : string)
    : M (option (list (string * SegmentReference))) :=
  let! referencingCampaigns :=
    select (fun s =>
      omap (fun row : string * Campaign =>
          if bool_decide ((row.1, segmentId) ∈ schema.campaignSegments s)
          then Some (row.1, include)
          else if bool_decide
                    ((row.1, segmentId) ∈ schema.campaignExcludeSegments s)
          then Some (row.1, exclude)
          else None)
        (map_to_list (campaigns s))) in
  ret (if (0 <? length referencingCampaigns)%nat
       then Some referencingCampaigns else None).

(** [ids.join(", ")] *)
Fixpoint join (separator : string) (ids : list string) : string :=
  match ids with
  | [] => ""
  | [id] => id
  | id :: rest => id ++ separator ++ join separator rest
  end.

Definition nextEventId (s : Store) : Z :=
  (1 + foldr Z.max 0 (eventId <$> events s))%Z.

Section TransactionEmail.
Variable evalSandboxedWithUserAndEvent
  : string -> JSValue -> JSValue -> outcome string.
Variable renderTransaction
  : string -> string -> JSValue -> JSValue -> outcome string.
Variable deliver : EmailProvider -> Email -> outcome unit.

Definition sendTransactionEmail (transactionId : string) (eventId' : Z)
    : M unit :=
  let! event :=
    select (fun s =>
      head (filter (fun e => eventId e = eventId') (events s))) in
  match event with
  | None => throw ("Event not found: " ++ pretty eventId')
  | Some event =>
      let! transaction := select (fun s => transactions s !! transactionId) in
      match transaction with
      | None => throw ("Transaction not found: " ++ transactionId)
      | Some transaction =>
          if negb (String.eqb (Transaction.event transaction) (eventName event))
          then
            throw ("event " ++ eventName event
                   ++ " does not match transaction " ++ transactionId
                   ++ " (expected " ++ Transaction.event transaction ++ ")")
          else
            let! user := select (fun s => users s !! eventUserId event) in
            match user with
            | None => throw ("user not found: " ++ eventUserId event)
            | Some user =>
                let! processedSubject :=
                  lift (evalSandboxedWithUserAndEvent
                          (Transaction.subject transaction) user
                          (eventAttributes event)) in
                let! processedHtml :=
                  lift (renderTransaction (Transaction.html transaction)
                          (Transaction.preamble transaction) user
                          (eventAttributes event)) in
                try_catch
                  (let! to := lift (get user "email") in
                   sendEmail deliver to processedSubject processedHtml)
                  (fun e => throw e)
            end
      end
  end.
End TransactionEmail.

(** ** [services.ts] *)

Module services.

(** [INSERT INTO templates]: the primary key rejects a second row with the
    same id. *)
Definition createTemplate (id subject html preamble : string) : M unit :=
  let! existing := select (fun s => templates s !! id) in
  match existing with
  | Some _ =>
      throw ("Duplicate entry '" ++ id ++ "' for key 'templates.PRIMARY'")
  | None =>
      update (fun s =>
        set_templates
          (<[id := {| subject := subject; html := html; preamble := preamble |}]>
             (templates s)) s)
  end.

Definition getTemplate (id : string) : M Template :=
  let! template := select (fun s => templates s !! id) in
  match template with
  | None => throw ("template not found: " ++ id)
  | Some template => ret template
  end.

Definition deleteTemplate (id : string) : M unit :=
  update (fun s => set_templates (delete id (templates s)) s).

Definition updateTemplate (id subject html preamble : string) : M unit :=
  let! template := select (fun s => templates s !! id) in
  match template with
  | None => throw "template not found"
  | Some _ =>
      update (fun s =>
        set_templates
          (<[id := {| subject := subject; html := html; preamble := preamble |}]>
             (templates s)) s)
  end.

Definition createTransaction (id event subject html preamble : string)
    : M unit :=
  let! existing := select (fun s => transactions s !! id) in
  match existing with
  | Some _ =>
      throw ("Duplicate entry '" ++ id ++ "' for key 'transactions.PRIMARY'")
  | None =>
      update (fun s =>
        set_transactions
          (<[id := {| Transaction.event := event;
                      Transaction.subject := subject;
                      Transaction.html := html;
                      Transaction.preamble := preamble |}]>
             (transactions s)) s)
  end.

Definition updateTransaction (id event subject html preamble : string)
    : M unit :=
  let! transaction := select (fun s => transactions s !! id) in
  match transaction with
  | None => throw "transaction not found"
  | Some _ =>
      update (fun s =>
        set_transactions
          (<[id := {| Transaction.event := event;
                      Transaction.subject := subject;
                      Transaction.html := html;
                      Transaction.preamble := preamble |}]>
             (transactions s)) s)
  end.

Definition deleteTransaction (id : string) : M unit :=
  update (fun s => set_transactions (delete id (transactions s)) s).

Definition getTransaction (id : string) : M Transaction.t :=
  let! transaction := select (fun s => transactions s !! id) in
  match transaction with
  | None => throw ("transaction not found: " ++ id)
  | Some transaction => ret transaction
  end.

(** The table is emptied and the one row with id 1 inserted, in a
    transaction of its own. *)
Definition setEmailProvider (config : EmailProvider) : M unit :=
  try_catch
    (transaction
       (let! _ := update (set_emailProvider None) in
        update (set_emailProvider (Some config))))
    (fun e => throw ("error creating email config: " ++ e)).

(** [getEmailProvider] of [services.ts]; the one of [email.ts] differs in
    the capital letter of its message. *)
Definition getEmailProvider : M EmailProvider :=
  let! config := select emailProvider in
  match config with
  | None => throw "no email provider configured"
  | Some provider => ret provider
  end.


(** *** Users, events, segments and campaigns *)

Section UserServices.
Variable segmentMatchesUser : Store -> string -> string -> outcome bool.
Variable evalSandboxedWithUserAndEvent
  : string -> JSValue -> JSValue -> outcome string.
Variable renderTransaction
  : string -> string -> JSValue -> JSValue -> outcome string.
Variable deliver : EmailProvider -> Email -> outcome unit.

Definition getUser (userId : string) : M JSValue :=
  let! user := select (fun s => users s !! userId) in
  match user with
  | None => throw ("User not found: " ++ userId)
  | Some attributes => ret attributes
  end.

Definition createUser (now : Z) (id : string) (attributes : JSValue)
    : M (CampaignChanges * CampaignChanges) :=
  transaction
    (let! existing := select (fun s => users s !! id) in
     match existing with
     | Some _ =>
         throw ("Duplicate entry '" ++ id ++ "' for key 'users.PRIMARY'")
     | None =>
         let! _ := update (fun s => set_users (<[id := attributes]> (users s)) s) in
         reevaluateUserMembershipsAfterAttributeChange segmentMatchesUser now
           id "initial user evaluation" None
     end).

Definition updateUser (now : Z) (userId : string)
    (attributes : list (string * JSValue))
    : M (CampaignChanges * CampaignChanges) :=
  transaction
    (let! existing := select (fun s => users s !! userId) in
     match existing with
     | None => throw "user not found"
     | Some existing =>
         let! _ := update (fun s =>
           set_users
             (alter (fun _ => spread existing attributes) userId (users s)) s) in
         reevaluateUserMembershipsAfterAttributeChange segmentMatchesUser now
           userId "User was updated and no longer matches campaign criteria"
           None
     end).

Definition deleteUser (userId : string) : M unit := deleteUserRow userId.

(** The event row is inserted and the memberships are reevaluated in one
    transaction; the transactional email is sent afterwards, and a failure
    to send it is logged and goes no further. *)
Definition createEvent (now : Z) (userId name : string) (attributes : JSValue)
    : M (CampaignChanges * CampaignChanges) :=
  let! result :=
    transaction
      (let! user := select (fun s => users s !! userId) in
       match user with
       | None =>
           throw "Cannot add or update a child row: a foreign key constraint fails"
       | Some _ =>
           let! eventId := select nextEventId in
           let! _ := update (fun s =>
             set_events
               (events s ++ [{| eventId := eventId; eventName := name;
                                eventUserId := userId;
                                eventAttributes := attributes |}]) s) in
           let! updates :=
             reevaluateUserMembershipsAfterAttributeChange segmentMatchesUser
               now userId ("user removed due to event: " ++ name) (Some name) in
           ret (updates, eventId)
       end) in
  let (updates, eventId) := result : (CampaignChanges * CampaignChanges) * Z in
  let! _ :=
    try_catch
      (let! matchingTransaction :=
         select (fun s =>
           head (filter (fun row => Transaction.event row.2 = name)
                   (map_to_list (transactions s)))) in
       match matchingTransaction with
       | None => ret tt
       | Some (transactionId, _) => sendTransactionEmail evalSandboxedWithUserAndEvent renderTransaction
             deliver transactionId eventId
       end)
      (fun _ => ret tt) in
  ret updates.

Definition deleteSegment (segmentId : string) : M unit :=
  transaction
    (let! referencingCampaigns := checkSegmentDeletionConstraints segmentId in
     match referencingCampaigns with
     | Some (reference :: references) =>
         throw ("cannot delete segment '" ++ segmentId
                ++ "' because it is referenced by campaigns: "
                ++ join ", " (fst <$> reference :: references))
     | _ => deleteSegmentRow segmentId
     end).

Definition deleteCampaign (campaignId : string) : M DeleteCampaignResponse :=
  transaction
    (let! memberships :=
       select (fun s =>
         filter (fun r => r.2 = campaignId) (elements (campaignUsers s))) in
     let! executions :=
       select (fun s =>
         filter (fun row => row.1.2 = campaignId) (map_to_list (executions s))) in
     let! _ := forEach executions (fun execution =>
                 killExecution execution.1.1 campaignId "Campaign deleted") in
     let! _ := deleteCampaignRow campaignId in
     ret {| deletedMemberships := length memberships;
            deletedExecutions := length executions |}).
End UserServices.

End services.


(** The services a delta of templates, transactions and the email provider
    needs; the other calls are not made by such a delta. *)
Definition catalogueServices (call : ServiceCall) : M unit :=
  match call with
  | createTemplate id subject html preamble =>
      services.createTemplate id subject html preamble
  | updateTemplate id subject html preamble =>
      services.updateTemplate id subject html preamble
  | deleteTemplate id => services.deleteTemplate id
  | createTransaction id event subject html preamble =>
      services.createTransaction id event subject html preamble
  | updateTransaction id event subject html preamble =>
      services.updateTransaction id event subject html preamble
  | deleteTransaction id => services.deleteTransaction id
  | setEmailProvider data => services.setEmailProvider data
  | _ => throw "not a service of the catalogue"
  end.

(** ** Further example data *)

(** [joinedStore] once the user has left the segment [active]. *)
Definition lapsedStore : Store := set_segmentUsers ∅ joinedStore.

(** [joinedStore] with the template [welcome] and an email provider. *)
Definition mailStore : Store :=
  set_emailProvider (Some provider)
    (set_templates {[ "welcome" := welcomeV1 ]} joinedStore).

(** [function* (ctx, rt) { yield rt.sendSMS("hi"); }] *)
Definition smsFlow (g : nat) (attrs : JSValue) : @IterResult nat :=
  match g with
  | 0%nat => IterYield (rt_sendSMS (JStr "hi")) 1%nat attrs
  | _ => IterReturn JUndefined attrs
  end.

(** [function* (ctx, rt) { yield { type: [1, 2] }; }] *)
Definition arrayTypeFlow (g : nat) (attrs : JSValue) : @IterResult nat :=
  match g with
  | 0%nat => IterYield (JObj [("type", JArr [JNum 1; JNum 2])]) 1%nat attrs
  | _ => IterReturn JUndefined attrs
  end.

(** [function* (ctx, rt) { ctx.attributes.plan = "pro"; yield rt.wait({days: 1}); }] *)
Definition upgradeFlow (g : nat) (attrs : JSValue) : @IterResult nat :=
  match g with
  | 0%nat =>
      IterYield (rt_wait (JObj [("days", JNum 1)])) 1%nat
        (JObj [("email", JStr "a@x"); ("plan", JStr "pro")])
  | _ => IterReturn JUndefined attrs
  end.

(** [configV1] with the campaign [onboarding] made dynamic. *)
Definition configV3 : Segflow.t :=
  {| Segflow.templates := Segflow.templates configV1;
     Segflow.segments := Segflow.segments configV1;
     Segflow.campaigns :=
       [("onboarding",
         {| CampaignConfig.flow := "function* (ctx, rt) { }";
            CampaignConfig.behavior := dynamic;
            CampaignConfig.segments := ["b"; "a"];
            CampaignConfig.excludeSegments := None |})];
     Segflow.transactions := [];
     Segflow.emailProvider := provider |}.

(** A time zone with daylight saving: at UTC until 31 March 2024, 01:00
    UTC (the instant 1711846800000), one hour ahead from then on.  The
    local times of the hour that is skipped are read with the offset in
    force before the change. *)
Definition summerTimeTZA (t : Z) (isUTC : bool) : Z :=
  if isUTC then if (t <? 1711846800000)%Z then 0%Z else 3600000%Z
  else if (t <? 1711846800000 + 3600000)%Z then 0%Z else 3600000%Z.

(** A store in which [configV1] has been accepted at time 100 and its
    template created. *)
Definition acceptedV1 : Store :=
  set_configs [{| configId := 1; configJson := configV1; createdAt := 100 |}]
    (set_templates {[ "welcome" := welcomeV1 ]} emptyStore).

(** A store that holds the template of [configV1]. *)
Definition templateStore : Store :=
  set_templates (list_to_map [("welcome", welcomeV1)]) emptyStore.

(** * Properties *)

(** ** Executions: [killExecution] *)

Lemma alter_lookup_Some {K : Type} `{Countable K} {A : Type} (f : A -> A)
    (k : K) (m : gmap K A) (x : A) :
  m !! k = Some x -> alter f k m = <[k := f x]> m.
Proof.
  intros Hk. apply map_eq. intros j.
  destruct (decide (k = j)) as [->|Hne].
  - rewrite lookup_alter_eq, lookup_insert_eq, Hk. reflexivity.
  - rewrite lookup_alter_ne, lookup_insert_ne by done. reflexivity.
Qed.

(** C9.  [killExecution] never throws.  When no execution row exists for
    the pair the store is left as it is; when a row exists, that row (and
    nothing else) becomes [terminated] with [error] set to the reason.
    A second call with the same arguments changes nothing more. *)
Theorem killExecution_idempotent (userId campaignId reason : string) (s : Store) :
  let once := killExecution userId campaignId reason s in
  once.1 = Ok tt
  ∧ (executions s !! (userId, campaignId) = None -> once.2 = s)
  ∧ (forall row, executions s !! (userId, campaignId) = Some row ->
       once.2 = set_executions
                  (<[(userId, campaignId) :=
                       {| status := terminated; sleepUntil := sleepUntil row;
                          error := Some reason |}]> (executions s)) s)
  ∧ killExecution userId campaignId reason once.2 = (Ok tt, once.2).
Proof.
  unfold killExecution, updateExecution, bind, select, update, ret. simpl.
  destruct (executions s !! (userId, campaignId)) as [row|] eqn:Hrow; simpl.
  - repeat split.
    + discriminate.
    + intros row' [= <-]. f_equal.
      erewrite alter_lookup_Some by eassumption. reflexivity.
    + rewrite lookup_alter_eq, Hrow. simpl. unfold set_executions. simpl.
      do 2 f_equal. apply map_eq. intros j.
      destruct (decide ((userId, campaignId) = j)) as [<-|Hne].
      * rewrite !lookup_alter_eq, Hrow. reflexivity.
      * rewrite !lookup_alter_ne by done. reflexivity.
  - repeat split; try done. by rewrite Hrow.
Qed.

(** ** Campaign membership: [evaluateUserCampaigns] *)

Lemma elem_of_whereFirst (k : string) (table : gset (string * string))
    (r : string * string) :
  r ∈ whereFirst k table <-> r ∈ table ∧ r.1 = k.
Proof.
  unfold whereFirst. rewrite list_elem_of_filter, elem_of_elements. tauto.
Qed.

Lemma elem_of_snapshot (k x : string) (table : gset (string * string)) :
  x ∈ (list_to_set (snd <$> whereFirst k table) : gset string) <-> (k, x) ∈ table.
Proof.
  rewrite elem_of_list_to_set, list_elem_of_fmap. split.
  - intros [[a b] [-> Hr]]. apply elem_of_whereFirst in Hr as [Hr Ha].
    simpl in *. by subst.
  - intros Hin. exists (k, x). split; [done|]. by apply elem_of_whereFirst.
Qed.

(** The boolean computed by the code agrees with [matchesCampaign]. *)
Lemma shouldBeInCampaign_spec (s : Store) (userId id : string) :
  forallb (fun r => bool_decide (r.2 ∈ (list_to_set (snd <$> whereFirst userId (segmentUsers s)) : gset string)))
    (whereFirst id (schema.campaignSegments s))
  && negb (existsb (fun r => bool_decide (r.2 ∈ (list_to_set (snd <$> whereFirst userId (segmentUsers s)) : gset string)))
             (whereFirst id (schema.campaignExcludeSegments s))) = true
  <-> matchesCampaign s userId id.
Proof.
  rewrite andb_true_iff, negb_true_iff, forallb_forall.
  rewrite <- not_true_iff_false, existsb_exists.
  unfold matchesCampaign. split.
  - intros [Hin Hex]. split.
    + intros seg Hseg.
      specialize (Hin (id, seg)). rewrite bool_decide_eq_true in Hin.
      apply elem_of_snapshot, Hin.
      apply list_elem_of_In, elem_of_whereFirst. done.
    + intros seg Hseg Hmem. apply Hex. exists (id, seg). split.
      * apply list_elem_of_In, elem_of_whereFirst. done.
      * apply bool_decide_eq_true, elem_of_snapshot. done.
  - intros [Hin Hex]. split.
    + intros [c seg] Hr. apply list_elem_of_In, elem_of_whereFirst in Hr as [Hr Hc].
      simpl in *. subst c. apply bool_decide_eq_true, elem_of_snapshot. auto.
    + intros [[c seg] [Hr Hmem]].
      apply list_elem_of_In, elem_of_whereFirst in Hr as [Hr Hc].
      simpl in *. subst c. apply bool_decide_eq_true, elem_of_snapshot in Hmem.
      by eapply Hex.
Qed.


Lemma matchesCampaign_sameSegments (s s0 : Store) (userId id : string) :
  sameSegments s s0 -> matchesCampaign s userId id <-> matchesCampaign s0 userId id.
Proof.
  intros (H1 & H2 & H3). unfold matchesCampaign. by rewrite H1, H2, H3.
Qed.


Lemma evaluateUserCampaignsBody_spec (s0 s : Store) (userId id : string)
    (campaign : Campaign) (results : CampaignChanges) :
  sameSegments s s0 ->
  (isMember s userId id <-> isMember s0 userId id) ->
  exists results' s',
    evaluateUserCampaignsBody userId
      (list_to_set (snd <$> whereFirst userId (campaignUsers s0)))
      (list_to_set (snd <$> whereFirst userId (segmentUsers s0)))
      results (id, campaign) s = (Ok results', s')
    ∧ sameSegments s' s0
    ∧ (isMember s' userId id <-> membershipAfter s0 userId id campaign)
    ∧ (forall p, p ≠ (userId, id) -> p ∈ campaignUsers s' <-> p ∈ campaignUsers s).
Proof.
  intros Hsame Hmem.
  assert (Hmatch := matchesCampaign_sameSegments s s0 userId id Hsame).
  destruct Hsame as (Hsu & Hcs & Hces).
  unfold evaluateUserCampaignsBody, bind, select, ret. simpl.
  rewrite <- Hsu.
  destruct (forallb _ _ && negb (existsb _ _)) eqn:Hsh;
    [apply shouldBeInCampaign_spec, Hmatch in Hsh
    |assert (~ matchesCampaign s0 userId id)
       by (intros Hm; apply Hmatch, shouldBeInCampaign_spec in Hm; congruence);
     clear Hsh];
    (destruct (bool_decide (id ∈ _)) eqn:Hin;
     [apply bool_decide_eq_true in Hin|apply bool_decide_eq_false in Hin];
     rewrite elem_of_snapshot in Hin);
    unfold membershipAfter; destruct (behavior campaign) eqn:Hb; simpl;
    unfold insertIgnoreCampaignUser, deleteCampaignUser, update, bind, ret;
    simpl; unfold isMember in *.
  - (* static, matching, member: nothing to do *)
    exists results, s. split_and!; [done|done|tauto|done].
  - (* dynamic, matching, member: nothing to do *)
    exists results, s. split_and!; [done|done|tauto|done].
  - (* static, matching, not a member: added *)
    eexists _, _. split; [reflexivity|]. simpl.
    split_and!; [done|set_solver|set_solver].
  - (* dynamic, matching, not a member: added *)
    eexists _, _. split; [reflexivity|]. simpl.
    split_and!; [done|set_solver|set_solver].
  - (* static, not matching, member: kept *)
    exists results, s. split_and!; [done|done|tauto|done].
  - (* dynamic, not matching, member: removed *)
    eexists _, _. split; [reflexivity|].
    case_bool_decide; simpl.
    + split_and!; [done|set_solver|set_solver].
    + split_and!; [done|tauto|done].
  - (* static, not matching, not a member: nothing to do *)
    exists results, s. split_and!; [done|done|tauto|done].
  - (* dynamic, not matching, not a member: nothing to do *)
    exists results, s. split_and!; [done|done|tauto|done].
Qed.

Lemma foldM_cons {A B : Type} (body : B -> A -> M B) (acc : B) (x : A)
    (l : list A) (s : Store) :
  foldM body acc (x :: l) s =
  match body acc x s with
  | (Ok acc', s') => foldM body acc' l s'
  | (Throw e, s') => (Throw e, s')
  end.
Proof. reflexivity. Qed.

(** The whole loop, over campaigns with pairwise distinct ids. *)
Lemma evaluateUserCampaigns_loop (s0 : Store) (userId : string)
    (rows : list (string * Campaign)) :
  NoDup rows.*1 ->
  forall (s : Store) (results : CampaignChanges),
  sameSegments s s0 ->
  (forall id, id ∈ rows.*1 -> isMember s userId id <-> isMember s0 userId id) ->
  exists results' s',
    foldM (evaluateUserCampaignsBody userId
             (list_to_set (snd <$> whereFirst userId (campaignUsers s0)))
             (list_to_set (snd <$> whereFirst userId (segmentUsers s0))))
      results rows s = (Ok results', s')
    ∧ sameSegments s' s0
    ∧ (forall id campaign, (id, campaign) ∈ rows ->
         isMember s' userId id <-> membershipAfter s0 userId id campaign)
    ∧ (forall p, (forall id, id ∈ rows.*1 -> p ≠ (userId, id)) ->
         p ∈ campaignUsers s' <-> p ∈ campaignUsers s).
Proof.
  induction rows as [|[id campaign] rows IH]; intros Hnodup s results Hsame Hmem.
  - exists results, s. split_and!; [done|done|set_solver|done].
  - simpl in Hnodup. apply NoDup_cons in Hnodup as [Hfresh Hnodup].
    destruct (evaluateUserCampaignsBody_spec s0 s userId id campaign results)
      as (results1 & s1 & Hstep & Hsame1 & Hthis & Hothers); [done| |].
    { apply Hmem. simpl. left. }
    destruct (IH Hnodup s1 results1 Hsame1) as (results2 & s2 & Hrest & Hsame2 & Hdone & Hframe).
    { intros id' Hid'. unfold isMember. rewrite Hothers.
      - apply Hmem. simpl. by right.
      - intros [= ->]. done. }
    exists results2, s2. split.
    { rewrite foldM_cons, Hstep. exact Hrest. }
    split; [done|]. split.
    + intros id' campaign' [[= -> ->]|Hin]%elem_of_cons.
      * unfold isMember. rewrite Hframe; [exact Hthis|].
        intros id'' Hid'' [= ->]. done.
      * by apply Hdone.
    + intros p Hp. rewrite Hframe.
      * apply Hothers, Hp. simpl. left.
      * intros id' Hid'. apply Hp. simpl. by right.
Qed.

(** C1.  Reevaluating the campaign memberships of a user never throws, and
    for every campaign [c] of the campaigns table:
    - a user who matches and is not yet a member becomes a member;
    - a membership of a [static] campaign is never deleted;
    - a membership of a [dynamic] campaign is deleted exactly when the user
      is a member and no longer matches;
    - after the call, membership of a [dynamic] campaign holds iff the user
      matches. *)
Theorem evaluateUserCampaigns_membership (s : Store) (userId c : string)
    (campaign : Campaign) :
  campaigns s !! c = Some campaign ->
  exists results s',
    evaluateUserCampaigns userId s = (Ok results, s')
    ∧ (matchesCampaign s userId c -> ~ isMember s userId c -> isMember s' userId c)
    ∧ (behavior campaign = static -> isMember s userId c -> isMember s' userId c)
    ∧ (behavior campaign = dynamic ->
         (isMember s userId c ∧ ~ isMember s' userId c
          <-> isMember s userId c ∧ ~ matchesCampaign s userId c))
    ∧ (behavior campaign = dynamic ->
         (isMember s' userId c <-> matchesCampaign s userId c)).
Proof.
  intros Hc.
  destruct (evaluateUserCampaigns_loop s userId (map_to_list (campaigns s))
              (NoDup_fst_map_to_list _) s {| added := []; removed := [] |})
    as (results & s' & Hrun & _ & Hdone & _); [done|done|].
  exists results, s'. split.
  { unfold evaluateUserCampaigns, bind, select. exact Hrun. }
  specialize (Hdone c campaign). rewrite elem_of_map_to_list in Hdone.
  specialize (Hdone Hc). unfold membershipAfter in Hdone.
  split_and!.
  - intros Hm _. apply Hdone. destruct (behavior campaign); tauto.
  - intros Hb Hin. apply Hdone. rewrite Hb. tauto.
  - intros Hb. rewrite Hb in Hdone. tauto.
  - intros Hb. rewrite Hb in Hdone. tauto.
Qed.

(** ** Waiting: [Date] arithmetic and the WAIT command *)

Section DateArithmetic.
Local Open Scope Z_scope.
Variable localTZA : Z -> bool -> Z.
Variable offset : Z.
Hypothesis fixed_offset : forall t isUTC, localTZA t isUTC = offset.

Lemma time_components (t : Z) :
  Date.MakeDate (Date.Day t)
    (Date.MakeTime (Date.HourFromTime t) (Date.MinFromTime t)
       (Date.SecFromTime t) (Date.msFromTime t)) = t.
Proof.
  unfold Date.MakeDate, Date.MakeTime, Date.Day, Date.HourFromTime,
    Date.MinFromTime, Date.SecFromTime, Date.msFromTime, Date.msPerDay,
    Date.msPerHour, Date.msPerMinute, Date.msPerSecond.
  Z.to_euclidean_division_equations. lia.
Qed.

Lemma setSeconds_plus (t d : Z) :
  Date.setSeconds localTZA t (Date.getSeconds localTZA t + d)
  = Date.TimeClip (t + d * 1000).
Proof.
  unfold Date.setSeconds, Date.getSeconds, Date.UTC, Date.LocalTime.
  rewrite !fixed_offset. f_equal.
  pose proof (time_components (t + offset)) as H.
  unfold Date.MakeDate, Date.MakeTime, Date.msPerSecond in *. lia.
Qed.

Lemma setMinutes_plus (t d : Z) :
  Date.setMinutes localTZA t (Date.getMinutes localTZA t + d)
  = Date.TimeClip (t + d * 60000).
Proof.
  unfold Date.setMinutes, Date.getMinutes, Date.UTC, Date.LocalTime.
  rewrite !fixed_offset. f_equal.
  pose proof (time_components (t + offset)) as H.
  unfold Date.MakeDate, Date.MakeTime, Date.msPerMinute in *. lia.
Qed.

Lemma setHours_plus (t d : Z) :
  Date.setHours localTZA t (Date.getHours localTZA t + d)
  = Date.TimeClip (t + d * 3600000).
Proof.
  unfold Date.setHours, Date.getHours, Date.UTC, Date.LocalTime.
  rewrite !fixed_offset. f_equal.
  pose proof (time_components (t + offset)) as H.
  unfold Date.MakeDate, Date.MakeTime, Date.msPerHour in *. lia.
Qed.

Lemma setDate_plus (t d : Z) :
  Date.setDate localTZA t (Date.getDate localTZA t + d)
  = Date.TimeClip (t + d * 86400000).
Proof.
  unfold Date.setDate, Date.getDate, Date.UTC, Date.MakeDayInMonthOf,
    Date.MakeDate, Date.LocalTime.
  rewrite !fixed_offset. f_equal.
  generalize (Date.DateFromTime (t + offset)). intros dt.
  unfold Date.Day, Date.TimeWithinDay, Date.msPerDay.
  Z.to_euclidean_division_equations. lia.
Qed.
End DateArithmetic.

Lemma TimeClip_Some (time : Z) :
  (Z.abs time <= 8640000000000000)%Z -> Date.TimeClip time = Some time.
Proof.
  intros Hrange. unfold Date.TimeClip.
  by rewrite (proj2 (Z.leb_le _ _) Hrange).
Qed.

Section WaitCommand.
Local Open Scope Z_scope.
Variable localTZA : Z -> bool -> Z.
Variable offset : Z.
Hypothesis fixed_offset : forall t isUTC, localTZA t isUTC = offset.
Variable coercedPlus : Z -> JSValue -> option Z.
Variable coercedTimes : JSValue -> Z -> option Z.

Lemma addComponent_absent getX setX (sleepUntil : option Z) :
  addComponent coercedPlus getX setX JUndefined sleepUntil = sleepUntil.
Proof. reflexivity. Qed.

Lemma addComponent_number getX setX (unit n t : Z) :
  (forall t d, setX t (getX t + d) = Date.TimeClip (t + d * unit)) ->
  Z.abs (t + n * unit) <= 8640000000000000 ->
  addComponent coercedPlus getX setX (JNum n) (Some t) = Some (t + n * unit).
Proof.
  intros Hset Hrange. unfold addComponent, plus. simpl.
  destruct (n =? 0) eqn:Hn; simpl.
  - apply Z.eqb_eq in Hn. subst n. f_equal. lia.
  - by rewrite Hset, TimeClip_Some.
Qed.

Lemma addWeeks_number (n t : Z) :
  Z.abs (t + n * 7 * 86400000) <= 8640000000000000 ->
  addWeeks localTZA coercedTimes (JNum n) (Some t) = Some (t + n * 7 * 86400000).
Proof.
  intros Hrange. unfold addWeeks, times. simpl.
  destruct (n =? 0) eqn:Hn; simpl.
  - apply Z.eqb_eq in Hn. subst n. f_equal. lia.
  - by rewrite (setDate_plus localTZA offset fixed_offset), TimeClip_Some.
Qed.
End WaitCommand.

Lemma prop_toObject (d : TimeUnits.t) :
  prop (TimeUnits.toObject d) "seconds" = from_option JNum JUndefined (TimeUnits.seconds d)
  ∧ prop (TimeUnits.toObject d) "minutes" = from_option JNum JUndefined (TimeUnits.minutes d)
  ∧ prop (TimeUnits.toObject d) "hours" = from_option JNum JUndefined (TimeUnits.hours d)
  ∧ prop (TimeUnits.toObject d) "days" = from_option JNum JUndefined (TimeUnits.days d)
  ∧ prop (TimeUnits.toObject d) "weeks" = from_option JNum JUndefined (TimeUnits.weeks d).
Proof.
  destruct d as [[?|] [?|] [?|] [?|] [?|]]; repeat split; reflexivity.
Qed.




(** ** The sandbox: driving a flow to a step index *)

Section SandboxProperties.
Context {Gen : Type}.
Variable evalFlow : string -> outcome Gen.
Variable next : Gen -> JSValue -> @IterResult Gen.

(** The loop, started at index [i] on the attribute states from [i] on. *)
Lemma driveGenerator_yields (attributeStates : list JSValue) (run : list JSValue)
    (g : Gen) (v a' : JSValue) :
  yields_through next g run v a' ->
  forall (i : nat) (last : GeneratorResult),
  (forall k, (k < length run)%nat ->
     attributeStates !! (i + k)%nat = run !! k) ->
  driveGenerator next attributeStates (length run) i g last
  = Ok {| value := v; done := false; attributes := a' |}.
Proof.
  induction 1 as [g a v g' a' Hnext|g a rest v0 g0 a0 v a' Hnext Hrun IH];
    intros i last Hstates.
  - simpl. rewrite <- (Nat.add_0_r i) at 1.
    rewrite (Hstates 0%nat) by (simpl; lia). simpl. by rewrite Hnext.
  - simpl. rewrite <- (Nat.add_0_r i) at 1.
    rewrite (Hstates 0%nat) by (simpl; lia). simpl. rewrite Hnext.
    apply IH. intros k Hk.
    replace (S i + k)%nat with (i + S k)%nat by lia.
    rewrite Hstates by (simpl; lia). reflexivity.
Qed.

Lemma driveGenerator_returns (attributeStates : list JSValue) (run : list JSValue)
    (g : Gen) (v a' : JSValue) :
  returns_within next g run v a' ->
  forall (i remaining : nat) (last : GeneratorResult),
  (length run <= remaining)%nat ->
  (forall k, (k < length run)%nat ->
     attributeStates !! (i + k)%nat = run !! k) ->
  driveGenerator next attributeStates remaining i g last
  = Ok {| value := v; done := true; attributes := a' |}.
Proof.
  induction 1 as [g a v a' Hnext|g a rest v0 g0 a0 v a' Hnext Hrun IH];
    intros i remaining last Hlen Hstates;
    (destruct remaining as [|remaining]; [simpl in Hlen; lia|]).
  - simpl. rewrite <- (Nat.add_0_r i) at 1.
    rewrite (Hstates 0%nat) by (simpl; lia). simpl. by rewrite Hnext.
  - simpl. rewrite <- (Nat.add_0_r i) at 1.
    rewrite (Hstates 0%nat) by (simpl; lia). simpl. rewrite Hnext.
    apply IH; [simpl in Hlen; lia|]. intros k Hk.
    replace (S i + k)%nat with (i + S k)%nat by lia.
    rewrite Hstates by (simpl; lia). reflexivity.
Qed.

(** C4 (as the code has it).  Let the flow source evaluate to a generator,
    [0 <= targetIndex] and [attributeStates] hold at least
    [targetIndex + 1] states.
    - If the program, started from its beginning and presented with
      [attributeStates[i]] immediately before its [i]-th advance, produces
      [targetIndex + 1] yields, the result is the last yielded value with
      [done = false] and the attributes read back after that advance.
    - If the program returns on advance [k <= targetIndex] after [k]
      yields, the result has [done = true], the attributes read back
      after that advance, and as [value] the value the program returned
      with: [undefined] when it returned without one. *)
Theorem executeGeneratorToIndex_run (generatorCode : string)
    (attributeStates : list JSValue) (targetIndex : Z) (g : Gen) :
  (0 <= targetIndex)%Z ->
  (targetIndex + 1 <= Z.of_nat (length attributeStates))%Z ->
  evalFlow generatorCode = Ok g ->
  (forall v a',
     yields_through next g (take (Z.to_nat (targetIndex + 1)) attributeStates) v a' ->
     executeGeneratorToIndex evalFlow next generatorCode attributeStates targetIndex
     = Ok {| value := v; done := false; attributes := a' |})
  ∧ (forall (k : nat) v a',
       (Z.of_nat k <= targetIndex)%Z ->
       returns_within next g (take (S k) attributeStates) v a' ->
       executeGeneratorToIndex evalFlow next generatorCode attributeStates targetIndex
       = Ok {| value := v; done := true; attributes := a' |}).
Proof.
  intros Hpos Hlen Heval. unfold executeGeneratorToIndex. rewrite Heval. split.
  - intros v a' Hrun.
    pose proof (driveGenerator_yields attributeStates _ g v a' Hrun 0%nat) as Hdrive.
    rewrite length_take, Nat.min_l in Hdrive by lia.
    apply Hdrive. intros k Hk. simpl. rewrite lookup_take_lt by lia. reflexivity.
  - intros k v a' Hk Hrun.
    eapply (driveGenerator_returns attributeStates _ g v a' Hrun 0%nat).
    + rewrite length_take. lia.
    + intros j Hj. rewrite length_take in Hj. simpl.
      rewrite lookup_take_lt by lia. reflexivity.
Qed.
End SandboxProperties.

(** ** The executor: what is done with the result of a step *)

Section ExecutorProperties.
Context {Gen : Type}.
Variable evalFlow : string -> outcome Gen.
Variable next : Gen -> JSValue -> @IterResult Gen.
Variable evalSandboxedWithUser : string -> JSValue -> outcome string.
Variable renderTemplate : string -> string -> JSValue -> outcome string.
Variable segmentMatchesUser : Store -> string -> string -> outcome bool.
Variable deliver : EmailProvider -> Email -> outcome unit.
Variable localTZA : Z -> bool -> Z.
Variable coercedPlus : Z -> JSValue -> option Z.
Variable coercedTimes : JSValue -> Z -> option Z.

(** Marking the row writes no email and touches no other table. *)
Lemma markCompleted_frame (state : ExecutionState.t) (s : Store) :
  outbox (markCompleted state s) = outbox s
  ∧ campaignUsers (markCompleted state s) = campaignUsers s
  ∧ users (markCompleted state s) = users s
  ∧ executionHistory (markCompleted state s) = executionHistory s.
Proof. done. Qed.

Lemma markFailed_frame (state : ExecutionState.t) (message : string) (s : Store) :
  outbox (markFailed state message s) = outbox s
  ∧ campaignUsers (markFailed state message s) = campaignUsers s
  ∧ users (markFailed state message s) = users s
  ∧ executionHistory (markFailed state message s) = executionHistory s.
Proof. done. Qed.

(** A result whose value is falsy is never handed to
    [handleExecutionCommand]: the row is completed when [done] is set and
    failed otherwise, and nothing else is written. *)
Lemma processExecution_falsy (now : Z) (state : ExecutionState.t)
    (s s1 : Store) (campaign : Campaign) (user : JSValue)
    (result : GeneratorResult) :
  advanceExecution evalFlow next segmentMatchesUser now state s
    = (Ok (Some (campaign, user, result)), s1) ->
  truthy (value result) = false ->
  processExecution evalFlow next evalSandboxedWithUser renderTemplate
    segmentMatchesUser deliver localTZA coercedPlus coercedTimes now state s
  = if done result
    then (Ok true, markCompleted state s1)
    else (Ok false, markFailed state "Generator yielded undefined" s1).
Proof.
  intros Hadvance Hfalsy.
  unfold processExecution, try_catch, bind. rewrite Hadvance.
  unfold interpretResult. rewrite Hfalsy. simpl.
  destruct (done result); reflexivity.
Qed.

(** C2.  Suppose the step of a claimed execution row reaches the
    interpretation of the sandbox result, in store [s1], and the result
    has [value = undefined].  With [done = true] the execution's status is
    set to [completed]; with [done = false] its status is set to [failed]
    with error message "Generator yielded undefined".  In both cases the
    final store is [s1] with that one change to the execution row: no
    command is executed. *)
Theorem processExecution_undefined_value (now : Z) (state : ExecutionState.t)
    (s s1 : Store) (campaign : Campaign) (user : JSValue)
    (result : GeneratorResult) :
  advanceExecution evalFlow next segmentMatchesUser now state s
    = (Ok (Some (campaign, user, result)), s1) ->
  value result = JUndefined ->
  (done result = true ->
     processExecution evalFlow next evalSandboxedWithUser renderTemplate
       segmentMatchesUser deliver localTZA coercedPlus coercedTimes now state s
     = (Ok true, markCompleted state s1))
  ∧ (done result = false ->
       processExecution evalFlow next evalSandboxedWithUser renderTemplate
         segmentMatchesUser deliver localTZA coercedPlus coercedTimes now state s
       = (Ok false, markFailed state "Generator yielded undefined" s1)).
Proof.
  intros Hadvance Hvalue.
  rewrite (processExecution_falsy now state s s1 campaign user result Hadvance)
    by (rewrite Hvalue; reflexivity).
  split; intros ->; reflexivity.
Qed.

(** C10.  Suppose the step of a claimed execution row reaches the
    interpretation of the sandbox result, in store [s1], and the value is
    defined but falsy: [0], [false], the empty string or [null].  The
    executor does what it does for [undefined]: the execution is marked
    [failed] with error "Generator yielded undefined", or [completed] when
    [done] is also true, and the final store is [s1] with that one change
    to the execution row, so the value is never interpreted as a
    command. *)
Theorem processExecution_falsy_value (now : Z) (state : ExecutionState.t)
    (s s1 : Store) (campaign : Campaign) (user : JSValue)
    (result : GeneratorResult) :
  advanceExecution evalFlow next segmentMatchesUser now state s
    = (Ok (Some (campaign, user, result)), s1) ->
  value result ∈ [JNum 0; JBool false; JStr ""; JNull] ->
  truthy (value result) = truthy JUndefined
  ∧ processExecution evalFlow next evalSandboxedWithUser renderTemplate
      segmentMatchesUser deliver localTZA coercedPlus coercedTimes now state s
    = if done result
      then (Ok true, markCompleted state s1)
      else (Ok false, markFailed state "Generator yielded undefined" s1).
Proof.
  intros Hadvance Hvalue.
  assert (Hfalsy : truthy (value result) = false).
  { repeat (apply elem_of_cons in Hvalue as [->|Hvalue]; [reflexivity|]).
    by apply elem_of_nil in Hvalue. }
  split; [exact Hfalsy|].
  exact (processExecution_falsy now state s s1 campaign user result Hadvance Hfalsy).
Qed.
End ExecutorProperties.

(** ** Instances on the example data *)

Lemma evaluateUserCampaigns_membership_witness :
  campaigns trialStore !! "trial" = Some trialCampaign
  ∧ exists results s',
      evaluateUserCampaigns "u1" trialStore = (Ok results, s')
      ∧ (matchesCampaign trialStore "u1" "trial" ->
         ~ isMember trialStore "u1" "trial" -> isMember s' "u1" "trial")
      ∧ (behavior trialCampaign = static ->
         isMember trialStore "u1" "trial" -> isMember s' "u1" "trial")
      ∧ (behavior trialCampaign = dynamic ->
           (isMember trialStore "u1" "trial" ∧ ~ isMember s' "u1" "trial"
            <-> isMember trialStore "u1" "trial"
                ∧ ~ matchesCampaign trialStore "u1" "trial"))
      ∧ (behavior trialCampaign = dynamic ->
           (isMember s' "u1" "trial" <-> matchesCampaign trialStore "u1" "trial")).
Proof.
  split; [vm_compute; reflexivity|].
  apply (evaluateUserCampaigns_membership trialStore "u1" "trial" trialCampaign).
  vm_compute. reflexivity.
Defined.

Lemma executeGeneratorToIndex_run_witness :
  executeGeneratorToIndex startFlow welcomeFlow "welcome" [JNull; JNull] 1
    = Ok {| value := rt_wait (JObj [("days", JNum 1)]); done := false;
            attributes := JNull |}
  ∧ executeGeneratorToIndex startFlow welcomeFlow "welcome"
      [JNull; JNull; JNull; JNull] 3
    = Ok {| value := JUndefined; done := true; attributes := JNull |}.
Proof.
  split.
  - refine (proj1 (executeGeneratorToIndex_run startFlow welcomeFlow "welcome"
                     [JNull; JNull] 1 0%nat _ _ _) _ _ _).
    + lia.
    + simpl. lia.
    + reflexivity.
    + eapply yields_more; [reflexivity|]. eapply yields_last. reflexivity.
  - refine (proj2 (executeGeneratorToIndex_run startFlow welcomeFlow "welcome"
                     [JNull; JNull; JNull; JNull] 3 0%nat _ _ _) 2%nat _ _ _ _).
    + lia.
    + simpl. lia.
    + reflexivity.
    + lia.
    + eapply returns_later; [reflexivity|].
      eapply returns_later; [reflexivity|]. eapply returns_now. reflexivity.
Defined.

Lemma processExecution_undefined_value_witness :
  processExecution startFlow emptyFlow (fun _ _ => Ok "") (fun _ _ _ => Ok "")
    (fun _ _ _ => Ok true) (fun _ _ => Ok tt) (fun _ _ => 0%Z) (fun _ _ => None)
    (fun _ _ => None) 0 claimedRow joinedStore
    = (Ok true,
       markCompleted claimedRow
         (set_executionHistory
            [{| historyUserId := "u1"; historyCampaignId := "trial";
                stepIndex := 0;
                historyAttributes := JObj [("email", JStr "a@x")] |}]
            joinedStore))
  ∧ processExecution startFlow undefinedFlow (fun _ _ => Ok "")
      (fun _ _ _ => Ok "") (fun _ _ _ => Ok true) (fun _ _ => Ok tt) (fun _ _ => 0%Z)
      (fun _ _ => None) (fun _ _ => None) 0 claimedRow joinedStore
    = (Ok false,
       markFailed claimedRow "Generator yielded undefined"
         (set_executionHistory
            [{| historyUserId := "u1"; historyCampaignId := "trial";
                stepIndex := 0;
                historyAttributes := JObj [("email", JStr "a@x")] |}]
            joinedStore)).
Proof.
  split.
  - refine (proj1 (processExecution_undefined_value startFlow emptyFlow
                     (fun _ _ => Ok "") (fun _ _ _ => Ok "")
                     (fun _ _ _ => Ok true) (fun _ _ => Ok tt) (fun _ _ => 0%Z)
                     (fun _ _ => None) (fun _ _ => None) 0 claimedRow joinedStore
                     _ trialCampaign (JObj [("email", JStr "a@x")])
                     {| value := JUndefined; done := true;
                        attributes := JObj [("email", JStr "a@x")] |} _ _) _).
    + vm_compute. reflexivity.
    + reflexivity.
    + reflexivity.
  - refine (proj2 (processExecution_undefined_value startFlow undefinedFlow
                     (fun _ _ => Ok "") (fun _ _ _ => Ok "")
                     (fun _ _ _ => Ok true) (fun _ _ => Ok tt) (fun _ _ => 0%Z)
                     (fun _ _ => None) (fun _ _ => None) 0 claimedRow joinedStore
                     _ trialCampaign (JObj [("email", JStr "a@x")])
                     {| value := JUndefined; done := false;
                        attributes := JObj [("email", JStr "a@x")] |} _ _) _).
    + vm_compute. reflexivity.
    + reflexivity.
    + reflexivity.
Defined.

Lemma processExecution_falsy_value_witness :
  processExecution startFlow zeroFlow (fun _ _ => Ok "") (fun _ _ _ => Ok "")
    (fun _ _ _ => Ok true) (fun _ _ => Ok tt) (fun _ _ => 0%Z) (fun _ _ => None)
    (fun _ _ => None) 0 claimedRow joinedStore
    = (Ok false,
       markFailed claimedRow "Generator yielded undefined"
         (set_executionHistory
            [{| historyUserId := "u1"; historyCampaignId := "trial";
                stepIndex := 0;
                historyAttributes := JObj [("email", JStr "a@x")] |}]
            joinedStore))
  ∧ processExecution startFlow nullFlow (fun _ _ => Ok "") (fun _ _ _ => Ok "")
      (fun _ _ _ => Ok true) (fun _ _ => Ok tt) (fun _ _ => 0%Z) (fun _ _ => None)
      (fun _ _ => None) 0 claimedRow joinedStore
    = (Ok true,
       markCompleted claimedRow
         (set_executionHistory
            [{| historyUserId := "u1"; historyCampaignId := "trial";
                stepIndex := 0;
                historyAttributes := JObj [("email", JStr "a@x")] |}]
            joinedStore)).
Proof.
  split.
  - refine (proj2 (processExecution_falsy_value startFlow zeroFlow
                     (fun _ _ => Ok "") (fun _ _ _ => Ok "")
                     (fun _ _ _ => Ok true) (fun _ _ => Ok tt) (fun _ _ => 0%Z)
                     (fun _ _ => None) (fun _ _ => None) 0 claimedRow joinedStore
                     _ trialCampaign (JObj [("email", JStr "a@x")])
                     {| value := JNum 0; done := false;
                        attributes := JObj [("email", JStr "a@x")] |} _ _)).
    + vm_compute. reflexivity.
    + apply elem_of_cons. left. reflexivity.
  - refine (proj2 (processExecution_falsy_value startFlow nullFlow
                     (fun _ _ => Ok "") (fun _ _ _ => Ok "")
                     (fun _ _ _ => Ok true) (fun _ _ => Ok tt) (fun _ _ => 0%Z)
                     (fun _ _ => None) (fun _ _ => None) 0 claimedRow joinedStore
                     _ trialCampaign (JObj [("email", JStr "a@x")])
                     {| value := JNull; done := true;
                        attributes := JObj [("email", JStr "a@x")] |} _ _)).
    + vm_compute. reflexivity.
    + do 3 (apply elem_of_cons; right). apply elem_of_cons. left. reflexivity.
Defined.

(** The sentence of C4 on a program that returns early fails for a program
    that returns a value: the program below returns ["x"] on its first
    advance, before any yield, and the result carries ["x"], not
    [undefined]. *)
Lemma executeGeneratorToIndex_returned_value :
  returns_within returningFlow 0%nat (take 1 [JNull; JNull]) (JStr "x") JNull
  ∧ executeGeneratorToIndex startFlow returningFlow "return" [JNull; JNull] 1
    = Ok {| value := JStr "x"; done := true; attributes := JNull |}
  ∧ ~ (exists r, executeGeneratorToIndex startFlow returningFlow "return"
                   [JNull; JNull] 1 = Ok r
                 ∧ done r = true ∧ value r = JUndefined).
Proof.
  split; [|split].
  - apply returns_now. reflexivity.
  - reflexivity.
  - intros (r & Hr & _ & Hvalue). vm_compute in Hr.
    injection Hr as <-. discriminate Hvalue.
Qed.

(** ** Event triggers: [extractEventTriggersFromSQL] *)

Lemma JSValue_nested_ind (P : JSValue -> Prop) :
  P JUndefined -> P JNull -> (forall b, P (JBool b)) -> (forall n, P (JNum n)) ->
  (forall s, P (JStr s)) ->
  (forall items, Forall P items -> P (JArr items)) ->
  (forall props, Forall (fun p => P p.2) props -> P (JObj props)) ->
  forall v, P v.
Proof.
  intros Hundef Hnull Hbool Hnum Hstr Harr Hobj.
  fix IH 1. intros [| |b|n|s|items|props].
  - exact Hundef.
  - exact Hnull.
  - apply Hbool.
  - apply Hnum.
  - apply Hstr.
  - apply Harr. induction items as [|item items IHitems]; constructor.
    + apply IH.
    + exact IHitems.
  - apply Hobj. induction props as [|[k v] props IHprops]; constructor.
    + apply IH.
    + exact IHprops.
Qed.

Lemma occursIn_trans (a b c : JSValue) :
  occursIn a b -> occursIn b c -> occursIn a c.
Proof.
  intros Hab Hbc. induction Hbc as [|items item Hin _ IH|props k v Hin _ IH].
  - exact Hab.
  - eapply occurs_item; eauto.
  - eapply occurs_prop; eauto.
Qed.

Lemma assoc_Some_elem {A : Type} (k : string) (l : list (string * A)) (v : A) :
  assoc k l = Some v -> (k, v) ∈ l.
Proof.
  induction l as [|[k' v'] l IH]; simpl; [discriminate|].
  destruct (String.eqb k k') eqn:Hk.
  - apply String.eqb_eq in Hk. subst k'. intros [= ->]. apply elem_of_cons. by left.
  - intros Hl. apply elem_of_cons. right. auto.
Qed.

(** A property that is not [undefined] is a node of the tree. *)
Lemma prop_occursIn (node : JSValue) (k : string) :
  prop node k ≠ JUndefined -> occursIn (prop node k) node.
Proof.
  destruct node as [| | | | | |props]; simpl; try congruence.
  destruct (assoc k props) as [v|] eqn:Hv; simpl; [|congruence].
  intros _. eapply occurs_prop; [by apply assoc_Some_elem|constructor].
Qed.

Lemma isStringNode_defined (v : JSValue) : isStringNode v = true -> v ≠ JUndefined.
Proof. intros H ->. discriminate H. Qed.

Lemma isEventsName_defined (v : JSValue) : isEventsName v = true -> v ≠ JUndefined.
Proof. intros H ->. discriminate H. Qed.

(** The elements of the set so far are pairwise distinct strings. *)
Lemma existsb_sameValueZero (x : string) (names : list string) :
  existsb (sameValueZero (JStr x)) (JStr <$> names) = true <-> x ∈ names.
Proof.
  induction names as [|y names IH]; simpl.
  - split; [discriminate|]. intros H. by apply elem_of_nil in H.
  - rewrite orb_true_iff, IH, elem_of_cons, String.eqb_eq. tauto.
Qed.

Lemma setAdd_string (x : string) (names : list string) :
  NoDup names ->
  exists names', setAdd (JStr x) (JStr <$> names) = JStr <$> names'
    ∧ NoDup names' ∧ forall V, V ∈ names' <-> V ∈ names ∨ V = x.
Proof.
  intros Hnodup. unfold setAdd.
  destruct (existsb _ _) eqn:Hex.
  - apply existsb_sameValueZero in Hex. exists names.
    split_and!; [done|done|]. intros V. split; [tauto|]. intros [?| ->]; done.
  - exists (names ++ [x])%list. split_and!.
    + by rewrite fmap_app.
    + apply NoDup_app. split_and!; [done| |apply NoDup_singleton].
      intros y Hy ->%list_elem_of_singleton.
      apply existsb_sameValueZero in Hy. congruence.
    + intros V. rewrite elem_of_app, list_elem_of_singleton. tauto.
Qed.

Lemma addListItems_spec (items : list JSValue) :
  Forall (fun item => nullish item = false) items ->
  Forall (fun item => isStringNode item = true ->
                      exists s, prop item "value" = JStr s) items ->
  forall names, NoDup names ->
  exists names', addListItems items (JStr <$> names) = Ok (JStr <$> names')
    ∧ NoDup names'
    ∧ forall V, V ∈ names' <->
        V ∈ names ∨ exists item, item ∈ items ∧ isStringNode item = true
                                 ∧ JStr V = prop item "value".
Proof.
  induction items as [|item items IH]; intros Hnodes Hvalues names Hnodup.
  - exists names. split_and!; [done|done|]. intros V. split; [tauto|].
    intros [?|(item & Hin & _)]; [done|]. by apply elem_of_nil in Hin.
  - apply Forall_cons in Hnodes as [Hnode Hnodes].
    apply Forall_cons in Hvalues as [Hvalue Hvalues].
    simpl. unfold get. rewrite Hnode.
    destruct (isStringNode item) eqn:Hstring.
    + destruct (Hvalue eq_refl) as [x Hx]. rewrite Hx.
      destruct (setAdd_string x names Hnodup) as (names1 & -> & Hnodup1 & Hmem1).
      destruct (IH Hnodes Hvalues names1 Hnodup1) as (names2 & -> & Hnodup2 & Hmem2).
      exists names2. split_and!; [done|done|]. intros V.
      rewrite Hmem2, Hmem1. split.
      * intros [[?| ->]|(item' & Hin & Hs & Hv)]; [by left| |].
        -- right. exists item. split_and!; [apply elem_of_cons; by left|done|done].
        -- right. exists item'. split_and!; [apply elem_of_cons; by right|done|done].
      * intros [?|(item' & [->|Hin]%elem_of_cons & Hs & Hv)]; [by left; left| |].
        -- left. right. rewrite Hx in Hv. congruence.
        -- right. by exists item'.
    + destruct (IH Hnodes Hvalues names Hnodup) as (names2 & -> & Hnodup2 & Hmem2).
      exists names2. split_and!; [done|done|]. intros V. rewrite Hmem2. split.
      * intros [?|(item' & Hin & Hs & Hv)]; [by left|].
        right. exists item'. split_and!; [apply elem_of_cons; by right|done|done].
      * intros [?|(item' & [->|Hin]%elem_of_cons & Hs & Hv)]; [by left|congruence|].
        right. by exists item'.
Qed.

(** [if (condition) eventTriggers.add(v)] where [v] is a string whenever the
    condition holds. *)
Lemma conditional_setAdd (condition : bool) (v : JSValue) (names : list string) :
  NoDup names ->
  (condition = true -> exists s, v = JStr s) ->
  exists names',
    (if condition then setAdd v (JStr <$> names) else JStr <$> names)
      = JStr <$> names'
    ∧ NoDup names'
    ∧ forall V, V ∈ names' <-> V ∈ names ∨ (condition = true ∧ JStr V = v).
Proof.
  intros Hnodup Hstring. destruct condition.
  - destruct (Hstring eq_refl) as [x ->].
    destruct (setAdd_string x names Hnodup) as (names' & -> & Hnodup' & Hmem).
    exists names'. split_and!; [done|done|]. intros V. rewrite Hmem.
    split; intros [?|?]; try tauto; right; [split; congruence|].
    destruct H as [_ [= ->]]. reflexivity.
  - exists names. split_and!; [done|done|]. intros V. split; [tauto|].
    intros [?|[? _]]; [done|discriminate].
Qed.


Lemma safeWithin_string_value (node : JSValue) (k : string) :
  safeWithin node ->
  isStringNode (prop node k) = true ->
  exists s, prop (prop node k) "value" = JStr s.
Proof.
  intros Hwf Hstring.
  apply (Hwf (prop node k)); [|done].
  by apply prop_occursIn, isStringNode_defined.
Qed.

(** The two [if] statements on a node add exactly the literals the node
    compares [events.name] with. *)
Lemma visitNode_spec (node : JSValue) (names : list string) :
  NoDup names -> safeWithin node ->
  exists names', visitNode node (JStr <$> names) = Ok (JStr <$> names')
    ∧ NoDup names'
    ∧ forall V, V ∈ names' <-> V ∈ names ∨ visitAdds node (JStr V).
Proof.
  intros Hnodup Hwf. unfold visitNode, visitAdds.
  destruct (is_str (prop node "type") "binary_expr") eqn:Htype.
  2:{ exists names. split_and!; [done|done|]. intros V. split; [tauto|].
      intros [?|[? _]]; [done|discriminate]. }
  destruct (Hwf node (occurs_here _)) as (Hbinary & _ & _).
  destruct (Hbinary Htype) as ([operator Hoperator] & Hright). clear Hbinary.
  rewrite Hoperator.
  set (left := prop node "left") in *. set (right := prop node "right") in *.
  assert (Hright_in : occursIn right node).
  { apply prop_occursIn. fold right. intros Hundef. rewrite Hundef in Hright.
    discriminate. }
  (* the IN branch *)
  assert (HIN : exists names1,
             (if String.eqb (toLowerCase operator) "in" && isEventsName left
              then match get right "value" with
                   | Throw e => Throw e
                   | Ok (JArr items) => addListItems items (JStr <$> names)
                   | Ok _ => Ok (JStr <$> names)
                   end
              else Ok (JStr <$> names)) = Ok (JStr <$> names1)
             ∧ NoDup names1
             ∧ forall V, V ∈ names1 <->
                 V ∈ names
                 ∨ (toLowerCase operator = "in" ∧ isEventsName left = true
                    ∧ exists items, prop right "value" = JArr items
                      ∧ exists item, item ∈ items ∧ isStringNode item = true
                        ∧ JStr V = prop item "value")).
  { destruct (String.eqb (toLowerCase operator) "in") eqn:Hop; simpl.
    2:{ exists names. split_and!; [done|done|]. intros V. split; [tauto|].
        intros [?|(Hin & _)]; [done|]. apply String.eqb_neq in Hop. done. }
    apply String.eqb_eq in Hop.
    destruct (isEventsName left) eqn:Hleft.
    2:{ exists names. split_and!; [done|done|]. intros V. split; [tauto|].
        intros [?|(_ & ? & _)]; [done|discriminate]. }
    unfold get. rewrite Hright.
    destruct (prop right "value") as [| | | | |items|] eqn:Hvalue;
      try (exists names; split_and!; [done|done|]; intros V; split; [tauto|];
           intros [?|(_ & _ & items' & ? & _)]; [done|discriminate]).
    destruct (addListItems_spec items) with (names := names)
      as (names1 & Hrun & Hnodup1 & Hmem1); [| |done|].
    - destruct (Hwf right Hright_in) as (_ & _ & Hitems). by apply Hitems.
    - apply Forall_forall. intros item Hitem Hstring.
      apply (Hwf item); [|done].
      eapply occursIn_trans; [|exact Hright_in].
      eapply occursIn_trans; [|apply (prop_occursIn right "value"); congruence].
      rewrite Hvalue. eapply occurs_item; [exact Hitem|constructor].
    - exists names1. split_and!; [done|done|]. intros V. rewrite Hmem1.
      split; intros [?|Hitem]; try tauto; right.
      + split_and!; [done|done|]. by exists items.
      + destruct Hitem as (_ & _ & items' & [= <-] & Hitem). done. }
  destruct HIN as (names1 & -> & Hnodup1 & Hmem1).
  (* the equality branch *)
  destruct (String.eqb operator "=" || String.eqb operator "==") eqn:Heq.
  2:{ exists names1. split_and!; [done|done|]. intros V. rewrite Hmem1.
      apply orb_false_iff in Heq as [Heq1%String.eqb_neq Heq2%String.eqb_neq].
      split.
      - intros [?|Hin]; [by left|]. right. split; [done|].
        exists operator. split; [done|]. by right.
      - intros [?|(_ & operator' & [= <-] & [[[?|?] _]|Hin])]; try done;
          [by left|by right]. }
  assert (Heq' : operator = "=" ∨ operator = "==").
  { apply orb_true_iff in Heq as [?%String.eqb_eq|?%String.eqb_eq]; auto. }
  destruct (conditional_setAdd (isEventsName left && isStringNode right)
              (prop right "value") names1 Hnodup1)
    as (names2 & -> & Hnodup2 & Hmem2).
  { intros [_ Hstring]%andb_true_iff.
    by apply (safeWithin_string_value node "right"). }
  destruct (conditional_setAdd (isEventsName right && isStringNode left)
              (prop left "value") names2 Hnodup2)
    as (names3 & -> & Hnodup3 & Hmem3).
  { intros [_ Hstring]%andb_true_iff.
    by apply (safeWithin_string_value node "left"). }
  exists names3. split_and!; [done|done|]. intros V.
  rewrite Hmem3, Hmem2, Hmem1. rewrite !andb_true_iff. split.
  - intros [[[?|Hin]|[[? ?] ?]]|[[? ?] ?]]; [by left|right..];
      (split; [done|]); exists operator; (split; [done|]).
    + by right.
    + left. split; [done|]. left. done.
    + left. split; [done|]. right. done.
  - intros [?|(_ & operator' & [= <-] & [[_ [(?&?&?)|(?&?&?)]]|Hin])].
    + by left; left; left.
    + left. right. done.
    + right. done.
    + left. left. right. done.
Qed.

Lemma traverseItems_eq (items : list JSValue) (acc : list JSValue) :
  (fix each (items : list JSValue) (eventTriggers : list JSValue)
       {struct items} :=
     match items with
     | [] => Ok eventTriggers
     | item :: rest =>
         match traverseAST item eventTriggers with
         | Throw e => Throw e
         | Ok eventTriggers => each rest eventTriggers
         end
     end) items acc = traverseItems items acc.
Proof.
  revert acc. induction items as [|item items IH]; intros acc; simpl; [done|].
  destruct (traverseAST item acc); [apply IH|done].
Qed.

Lemma traverseAST_unfold (node : JSValue) (acc : list JSValue) :
  traverseAST node acc =
  if negb (truthy node) then Ok acc
  else
    match visitNode node acc with
    | Throw e => Throw e
    | Ok acc =>
        match node with
        | JObj props => traverseValues (snd <$> props) acc
        | JArr items => traverseValues items acc
        | _ => Ok acc
        end
    end.
Proof.
  destruct node as [| |b|n|s|vs|props]; try reflexivity.
  simpl. generalize (visitNode (JObj props) acc). intros [acc'|e]; [|done].
  revert acc'. induction props as [|[k value] props IH]; intros acc'; [done|].
  destruct value; cbn -[traverseAST]; try apply IH.
  - rewrite traverseItems_eq. destruct (traverseItems items acc'); [apply IH|done].
  - match goal with |- context [traverseAST ?v ?a] =>
      destruct (traverseAST v a) end; [apply IH|done].
Qed.

Lemma safeWithin_child (child node : JSValue) :
  safeWithin node -> occursIn child node -> safeWithin child.
Proof.
  intros Hwf Hchild n Hn. apply Hwf. by eapply occursIn_trans.
Qed.

Lemma traversalAdds_array (items : list JSValue) (V : JSValue) :
  traversalAdds (JArr items) V <->
  exists item, item ∈ items ∧ traversalAdds item V.
Proof.
  split.
  - intros (node & Hnode & Hcompares). inversion Hnode; subst.
    + destruct Hcompares as [Htype _]. discriminate Htype.
    + exists item. split; [done|]. by exists node.
  - intros (item & Hitem & node & Hnode & Hcompares). exists node.
    split; [|done]. by eapply occurs_item.
Qed.

Lemma traversalAdds_object (props : list (string * JSValue)) (V : JSValue) :
  traversalAdds (JObj props) V <->
  visitAdds (JObj props) V
  ∨ exists value, value ∈ props.*2 ∧ traversalAdds value V.
Proof.
  split.
  - intros (node & Hnode & Hcompares). inversion Hnode; subst.
    + by left.
    + right. exists v. split; [|by exists node].
      apply list_elem_of_fmap. by exists (k, v).
  - intros [Hcompares|(value & Hvalue & node & Hnode & Hcompares)].
    + exists (JObj props). split; [constructor|done].
    + apply list_elem_of_fmap in Hvalue as [[k v] [-> Hin]].
      exists node. split; [|done]. by eapply occurs_prop.
Qed.

Lemma traversalAdds_primitive (v V : JSValue) :
  match v with JArr _ | JObj _ => False | _ => True end ->
  ~ traversalAdds v V.
Proof.
  intros Hprim (node & Hnode & [Htype _]).
  destruct v; try done; inversion Hnode; subst; discriminate Htype.
Qed.


Lemma collects_list {A : Type}
    (run : A -> list JSValue -> outcome (list JSValue))
    (mentions : A -> JSValue -> Prop)
    (runAll : list A -> list JSValue -> outcome (list JSValue)) :
  (forall acc, runAll [] acc = Ok acc) ->
  (forall a l acc, runAll (a :: l) acc =
     match run a acc with Throw e => Throw e | Ok acc' => runAll l acc' end) ->
  forall l, Forall (collects run mentions) l ->
  collects runAll (fun l V => exists a, a ∈ l ∧ mentions a V) l.
Proof.
  intros Hnil Hcons l Hl. induction Hl as [|a l Ha Hl IH]; intros names Hnodup.
  - exists names. rewrite Hnil. split_and!; [done|done|]. intros V. split; [tauto|].
    intros [?|(a & Ha & _)]; [done|]. by apply elem_of_nil in Ha.
  - destruct (Ha names Hnodup) as (names1 & Hrun1 & Hnodup1 & Hmem1).
    destruct (IH names1 Hnodup1) as (names2 & Hrun2 & Hnodup2 & Hmem2).
    exists names2. rewrite Hcons, Hrun1. split_and!; [done|done|]. intros V.
    rewrite Hmem2, Hmem1. split.
    + intros [[?|?]|(a' & Ha' & ?)]; [by left|right..].
      * exists a. split; [apply elem_of_cons; by left|done].
      * exists a'. split; [apply elem_of_cons; by right|done].
    + intros [?|(a' & [->|Ha']%elem_of_cons & ?)]; [by left; left|by left; right|].
      right. by exists a'.
Qed.

Lemma collects_primitive (v : JSValue) :
  match v with JArr _ | JObj _ => False | _ => True end ->
  collects traverseAST traversalAdds v
  ∧ collects traverseValue traversalAdds v.
Proof.
  intros Hprim.
  assert (Hnone : forall (names : list string) (V : string),
            V ∈ names <-> V ∈ names ∨ traversalAdds v (JStr V)).
  { intros names V. split; [tauto|]. intros [?|Hm]; [done|].
    by apply traversalAdds_primitive in Hm. }
  split; intros names Hnodup; exists names; (split_and!; [|done|apply Hnone]).
  - rewrite traverseAST_unfold.
    destruct v as [| |[|]|n|s| |]; try done; simpl.
    + by destruct (n =? 0)%Z.
    + by destruct (String.eqb s "").
  - by destruct v.
Qed.

(** The traversal of a well-formed tree collects exactly the literals that
    a comparison somewhere in the tree compares [events.name] with. *)
Lemma traverseAST_spec (node : JSValue) :
  safeWithin node ->
  collects traverseAST traversalAdds node
  ∧ collects traverseValue traversalAdds node.
Proof.
  induction node as [| |b|n|s|items IH|props IH] using JSValue_nested_ind;
    intros Hwf.
  1-5: by apply collects_primitive.
  - (* an array *)
    assert (Hitems : Forall (collects traverseAST traversalAdds) items
                     ∧ Forall (collects traverseValue traversalAdds) items).
    { rewrite !Forall_forall. split; intros item Hitem;
        (eapply Forall_forall in IH; [|exact Hitem]); apply IH;
        (eapply safeWithin_child; [exact Hwf|]);
        (eapply occurs_item; [exact Hitem|constructor]). }
    destruct Hitems as [Hnodes Hvalues]. split.
    + intros names Hnodup. rewrite traverseAST_unfold. simpl.
      destruct (collects_list traverseValue traversalAdds traverseValues
                  (fun _ => eq_refl) (fun _ _ _ => eq_refl) items Hvalues
                  names Hnodup) as (names' & Hrun & Hnodup' & Hmem).
      exists names'. split_and!; [done|done|]. intros V.
      rewrite Hmem, traversalAdds_array. reflexivity.
    + intros names Hnodup. simpl.
      destruct (collects_list traverseAST traversalAdds traverseItems
                  (fun _ => eq_refl) (fun _ _ _ => eq_refl) items Hnodes
                  names Hnodup) as (names' & Hrun & Hnodup' & Hmem).
      exists names'. split_and!; [done|done|]. intros V.
      rewrite Hmem, traversalAdds_array. reflexivity.
  - (* an object *)
    assert (Hvalues : Forall (collects traverseValue traversalAdds) props.*2).
    { rewrite Forall_forall. intros value Hvalue.
      apply list_elem_of_fmap in Hvalue as [[k v] [-> Hin]].
      eapply Forall_forall in IH; [|exact Hin]. apply IH.
      eapply safeWithin_child; [exact Hwf|].
      eapply occurs_prop; [exact Hin|constructor]. }
    assert (Hnode : collects traverseAST traversalAdds (JObj props));
      [|split; [exact Hnode|exact Hnode]].
    intros names Hnodup. rewrite traverseAST_unfold.
    change (negb (truthy (JObj props))) with false. cbv iota.
    destruct (visitNode_spec (JObj props) names Hnodup Hwf)
      as (names1 & -> & Hnodup1 & Hmem1).
    destruct (collects_list traverseValue traversalAdds traverseValues
                (fun _ => eq_refl) (fun _ _ _ => eq_refl) props.*2 Hvalues
                names1 Hnodup1) as (names2 & Hrun & Hnodup2 & Hmem2).
    exists names2. split_and!; [done|done|]. intros V.
    rewrite Hmem2, Hmem1, traversalAdds_object. tauto.
Qed.

(** *** Strings *)

Lemma append_cons (c : ascii) (s t : string) :
  String c s ++ t = String c (s ++ t).
Proof. reflexivity. Qed.

Lemma append_nil_l (s : string) : "" ++ s = s.
Proof. reflexivity. Qed.

Lemma append_nil_r (s : string) : s ++ "" = s.
Proof.
  induction s as [|c s IH]; [done|]. rewrite append_cons. f_equal. exact IH.
Qed.

Lemma append_assoc (s1 s2 s3 : string) : (s1 ++ s2) ++ s3 = s1 ++ (s2 ++ s3).
Proof.
  induction s1 as [|c s1 IH]; [done|]. rewrite !append_cons. f_equal. exact IH.
Qed.

Lemma unquoteFrom_plain (sql rest : string) :
  hasBacktick sql = false ->
  unquoteFrom (sql ++ rest) None = sql ++ unquoteFrom rest None.
Proof.
  induction sql as [|c sql IH]; [done|]. simpl hasBacktick.
  intros [Hc Hsql]%orb_false_iff. rewrite !append_cons. simpl.
  rewrite Hc. f_equal. by apply IH.
Qed.

Lemma unquoteFrom_run (sql rest run : string) :
  hasBacktick sql = false ->
  unquoteFrom (sql ++ rest) (Some run) = unquoteFrom rest (Some (run ++ sql)).
Proof.
  revert run. induction sql as [|c sql IH]; intros run.
  - intros _. by rewrite append_nil_r.
  - simpl hasBacktick. intros [Hc Hsql]%orb_false_iff.
    rewrite append_cons. simpl. rewrite Hc, IH by done.
    by rewrite append_assoc.
Qed.

Lemma unquote_plain (sql : string) :
  hasBacktick sql = false -> unquote sql = sql.
Proof.
  intros Hsql. unfold unquote. rewrite <- (append_nil_r sql) at 1.
  rewrite unquoteFrom_plain by done. simpl. by rewrite append_nil_r.
Qed.

Lemma unquote_quoted (before name rest : string) :
  hasBacktick before = false -> hasBacktick name = false -> name ≠ "" ->
  unquote (before ++ "`" ++ name ++ "`" ++ rest)
  = before ++ name ++ unquote rest.
Proof.
  intros Hbefore Hname Hnonempty. unfold unquote.
  rewrite unquoteFrom_plain by done. f_equal.
  rewrite append_cons, append_nil_l. simpl.
  rewrite unquoteFrom_run by done.
  rewrite append_cons, !append_nil_l. simpl.
  destruct name; [done|reflexivity].
Qed.

Lemma withoutBackticks_plain (sql : string) :
  hasBacktick sql = false -> withoutBackticks sql = sql.
Proof.
  induction sql as [|c sql IH]; [done|]. simpl.
  intros [Hc Hsql]%orb_false_iff. rewrite Hc. f_equal. by apply IH.
Qed.

Lemma withoutBackticks_app (sql rest : string) :
  withoutBackticks (sql ++ rest)
  = withoutBackticks sql ++ withoutBackticks rest.
Proof.
  induction sql as [|c sql IH]; [done|]. rewrite append_cons. simpl.
  destruct (Ascii.eqb c "`"); [exact IH|]. rewrite append_cons. by f_equal.
Qed.

(** On a text whose backticks quote identifiers, the replacement of the
    code strips the backticks. *)
Lemma unquote_backtickQuoted (sql : string) :
  backtickQuoted sql -> unquote sql = withoutBackticks sql.
Proof.
  induction 1 as [sql Hsql|before name rest Hbefore Hname Hnonempty _ IH].
  - by rewrite unquote_plain, withoutBackticks_plain.
  - rewrite unquote_quoted by done.
    rewrite !withoutBackticks_app, IH.
    rewrite (withoutBackticks_plain before), (withoutBackticks_plain name)
      by done.
    reflexivity.
Qed.

(** *** The tests of the code and the words of the specification *)

Lemma is_str_true (v : JSValue) (s : string) : is_str v s = true <-> v = JStr s.
Proof.
  destruct v; simpl; try (split; [discriminate|congruence]).
  rewrite String.eqb_eq. split; [by intros ->|by intros [= ->]].
Qed.

Lemma nullish_false (v : JSValue) :
  nullish v = false <-> v ≠ JUndefined ∧ v ≠ JNull.
Proof. destruct v; simpl; split; try done; intros [? ?]; done. Qed.

Lemma isEventsName_column (node : JSValue) :
  isEventsName node = true <-> eventsNameColumn node.
Proof.
  unfold isEventsName, eventsNameColumn.
  rewrite !andb_true_iff, !is_str_true. tauto.
Qed.

Lemma isStringNode_literal (node : JSValue) (V : string) :
  isStringNode node = true ∧ JStr V = prop node "value" <-> stringLiteral V node.
Proof.
  unfold isStringNode, stringLiteral.
  rewrite orb_true_iff, !is_str_true. split; intros [? ?]; split; done.
Qed.

Lemma lowerAscii_i (c : ascii) :
  lowerAscii c = "i"%char <-> c = "i"%char ∨ c = "I"%char.
Proof.
  destruct c as [[] [] [] [] [] [] [] []]; vm_compute;
    (split; [intros; first [discriminate|by left|by right]
            |intros [|]; first [discriminate|reflexivity]]).
Qed.

Lemma lowerAscii_n (c : ascii) :
  lowerAscii c = "n"%char <-> c = "n"%char ∨ c = "N"%char.
Proof.
  destruct c as [[] [] [] [] [] [] [] []]; vm_compute;
    (split; [intros; first [discriminate|by left|by right]
            |intros [|]; first [discriminate|reflexivity]]).
Qed.

(** [operator.toLowerCase() === "in"]: the keyword in any letter case. *)
Lemma toLowerCase_in (operator : string) :
  toLowerCase operator = "in" <-> operator ∈ ["IN"; "in"; "In"; "iN"].
Proof.
  rewrite !elem_of_cons, elem_of_nil. split.
  - destruct operator as [|c1 [|c2 [|c3 rest]]]; simpl; try discriminate.
    intros [= H1 H2]. apply lowerAscii_i in H1. apply lowerAscii_n in H2.
    destruct H1 as [-> | ->], H2 as [-> | ->]; tauto.
  - intros [->|[->|[->|[->|[]]]]]; reflexivity.
Qed.

Lemma wellFormedNode_safe (node : JSValue) :
  wellFormedNode node -> safeNode node.
Proof.
  intros (Hbinary & Hliteral & Hitems). split_and!.
  - intros Htype%is_str_true.
    destruct (Hbinary Htype) as ((operator & Hoperator & _) & Hright).
    split; [by exists operator|by apply nullish_false].
  - unfold isStringNode. rewrite orb_true_iff, !is_str_true. exact Hliteral.
  - intros items Hvalue. apply Forall_forall. intros item Hitem.
    apply nullish_false. by eapply Hitems.
Qed.

Lemma wellFormed_safeWithin (ast : JSValue) : wellFormed ast -> safeWithin ast.
Proof. intros Hwf node Hnode. apply wellFormedNode_safe, Hwf, Hnode. Qed.

(** At a node of the shape the parser builds, the two [if] statements add
    [V] exactly when the node is a comparison of [events.name] with the
    literal [V]. *)
Lemma visitAdds_comparesEventName (node : JSValue) (V : string) :
  wellFormedNode node ->
  visitAdds node (JStr V) <-> comparesEventName node V.
Proof.
  intros (Hbinary & _). unfold visitAdds, comparesEventName.
  rewrite is_str_true. split.
  - intros (Htype & operator & Hoperator & Hcases). split; [done|].
    destruct (Hbinary Htype) as ((operator' & Hoperator' & Hne) & _).
    rewrite Hoperator in Hoperator'. injection Hoperator' as <-.
    destruct Hcases as [[[-> | ->] Hsides]|(Hin & Hleft & items & Hitems & item
                                           & Hitem & Hstring & HV)].
    + left. split; [done|].
      destruct Hsides as [(Hl & Hr & HV)|(Hr & Hl & HV)]; [left|right];
        (split; [by apply isStringNode_literal || by apply isEventsName_column
                |by apply isStringNode_literal || by apply isEventsName_column]).
    + done.
    + right. split_and!.
      * exists operator. split; [done|by apply toLowerCase_in].
      * by apply isEventsName_column.
      * exists items, item. split_and!; [done|done|].
        by apply isStringNode_literal.
  - intros (Htype & Hcases). split; [done|].
    destruct Hcases as [(Hoperator & Hsides)|((operator & Hoperator & Hin)
                          & Hleft & items & item & Hitems & Hitem & Hliteral)].
    + exists "=". split; [done|]. left. split; [by left|].
      destruct Hsides as [[Hl Hr]|[Hl Hr]]; [left|right].
      * apply isEventsName_column in Hl.
        apply isStringNode_literal in Hr as [Hr HV]. done.
      * apply isEventsName_column in Hr.
        apply isStringNode_literal in Hl as [Hl HV]. done.
    + exists operator. split; [done|]. right. split_and!.
      * by apply toLowerCase_in.
      * by apply isEventsName_column.
      * exists items. split; [done|]. exists item.
        apply isStringNode_literal in Hliteral as [Hstring HV]. done.
Qed.

Lemma traversalAdds_mentionsTrigger (ast : JSValue) (V : string) :
  wellFormed ast ->
  traversalAdds ast (JStr V) <-> mentionsTrigger ast V.
Proof.
  intros Hwf. unfold traversalAdds, mentionsTrigger.
  split; intros (node & Hnode & Hcompares); exists node; (split; [done|]);
    by apply (visitAdds_comparesEventName node V (Hwf node Hnode)).
Qed.

Section TriggerProperties.
Variable astify : string -> outcome JSValue.

(** C7 (as the code has it).  When the parser throws on the unquoted SQL,
    [extractEventTriggersFromSQL] throws the same error: no set, empty or
    not, is returned. *)
Theorem extractEventTriggersFromSQL_parse_failure (sql message : string) :
  astify (unquote sql) = Throw message ->
  extractEventTriggersFromSQL astify sql = Throw message
  ∧ forall triggers, extractEventTriggersFromSQL astify sql ≠ Ok triggers.
Proof.
  intros Hparse. unfold extractEventTriggersFromSQL. rewrite Hparse. done.
Qed.

End TriggerProperties.

Lemma wellFormedNodeb_sound (node : JSValue) :
  wellFormedNodeb node = true -> wellFormedNode node.
Proof.
  unfold wellFormedNodeb, wellFormedNode.
  rewrite !andb_true_iff. intros [[Hbinary Hstring] Hitems]. split_and!.
  - intros Htype. rewrite Htype in Hbinary. simpl in Hbinary.
    apply andb_true_iff in Hbinary as [Hoperator Hright].
    apply negb_true_iff, nullish_false in Hright.
    split; [|exact Hright].
    destruct (prop node "operator") as [| | | |operator| |];
      try discriminate.
    exists operator. split; [done|].
    apply negb_true_iff, String.eqb_neq in Hoperator. exact Hoperator.
  - intros Htype.
    assert (Hkind : is_str (prop node "type") "single_quote_string"
                    || is_str (prop node "type") "string" = true).
    { rewrite orb_true_iff, !is_str_true. exact Htype. }
    rewrite Hkind in Hstring.
    destruct (prop node "value"); try discriminate. by eexists.
  - intros items item Hvalue Hitem. rewrite Hvalue in Hitems.
    rewrite forallb_forall in Hitems.
    apply nullish_false, negb_true_iff, Hitems, list_elem_of_In, Hitem.
Qed.

Lemma wellFormedb_sound (ast : JSValue) :
  wellFormedb ast = true -> wellFormed ast.
Proof.
  intros Hast node Hnode. induction Hnode as [|items item Hin _ IH|props k v Hin _ IH].
  - apply wellFormedNodeb_sound.
    destruct node; cbn -[wellFormedNodeb] in Hast;
      apply andb_true_iff in Hast as [Hast _]; exact Hast.
  - apply IH. cbn -[wellFormedNodeb] in Hast.
    apply andb_true_iff in Hast as [_ Hast].
    induction Hin as [item items|item item' items _ IHin];
      apply andb_true_iff in Hast as [Hitem Hrest]; auto.
  - apply IH. cbn -[wellFormedNodeb] in Hast.
    apply andb_true_iff in Hast as [_ Hast].
    remember (k, v) as p eqn:Hp.
    induction Hin as [p props|p [k' v'] props _ IHin]; subst;
      apply andb_true_iff in Hast as [Hitem Hrest]; auto.
Qed.

Lemma extractEventTriggersFromSQL_parse_failure_witness :
  extractEventTriggersFromSQL (fun _ => Throw "syntax error") "SELEC id"
    = Throw "syntax error"
  ∧ forall triggers,
      extractEventTriggersFromSQL (fun _ => Throw "syntax error") "SELEC id"
      ≠ Ok triggers.
Proof.
  apply (extractEventTriggersFromSQL_parse_failure
           (fun _ => Throw "syntax error") "SELEC id" "syntax error").
  reflexivity.
Defined.

(** The sentence of C7 fails on any input the parser rejects: the call
    ends in the parser's error, not in the empty set. *)
Lemma extractEventTriggersFromSQL_throws :
  (fun _ : string => @Throw JSValue "syntax error") (unquote "SELEC id")
    = Throw "syntax error"
  ∧ extractEventTriggersFromSQL (fun _ => Throw "syntax error") "SELEC id" ≠ Ok [].
Proof. split; [reflexivity|discriminate]. Qed.


(** ** The configuration diff: order of application *)

Lemma forEach_app {A : Type} (l1 l2 : list A) (body : A -> M unit) (s : Store) :
  forEach (l1 ++ l2) body s =
  bind (forEach l1 body) (fun _ => forEach l2 body) s.
Proof.
  revert s. induction l1 as [|x l1 IH]; intros s; [reflexivity|].
  unfold forEach in *. rewrite <- app_comm_cons, !foldM_cons.
  unfold bind at 1. rewrite foldM_cons.
  destruct (body x s) as [[[]|e] s']; [|reflexivity].
  apply IH.
Qed.

Lemma forEach_fmap {A B : Type} (f : A -> B) (l : list A) (body : B -> M unit)
    (s : Store) :
  forEach (f <$> l) body s = forEach l (fun x => body (f x)) s.
Proof.
  revert s. induction l as [|x l IH]; intros s; [reflexivity|].
  unfold forEach in *. rewrite fmap_cons, !foldM_cons.
  destruct (body (f x) s) as [[[]|e] s']; [|reflexivity].
  apply IH.
Qed.

Lemma forEach_ext {A : Type} (l : list A) (body body' : A -> M unit) (s : Store) :
  (forall x s, body x s = body' x s) ->
  forEach l body s = forEach l body' s.
Proof.
  intros Hext. revert s. induction l as [|x l IH]; intros s; [reflexivity|].
  unfold forEach in *. rewrite !foldM_cons, Hext.
  destruct (body' x s) as [[[]|e] s']; [|reflexivity].
  apply IH.
Qed.

Lemma setOf_NoDup (keys : list string) : NoDup (setOf keys).
Proof.
  induction keys as [|k keys IH]; simpl; [constructor|].
  apply NoDup_cons. split.
  - rewrite list_elem_of_filter. tauto.
  - by apply NoDup_filter.
Qed.

Lemma sublist_flat_map_ids {A : Type} (f : string -> list (Operation A))
    (ids : list string) :
  (forall id op, op ∈ f id -> f id = [op] ∧ operationId op = id) ->
  sublist (operationId <$> flat_map f ids) ids.
Proof.
  intros Hf. induction ids as [|id ids IH]; simpl; [constructor|].
  rewrite fmap_app. destruct (f id) as [|op ops] eqn:Hid.
  - simpl. by apply sublist_cons.
  - destruct (Hf id op) as [Hone Hop]; [rewrite Hid; apply elem_of_cons; by left|].
    rewrite Hid in Hone. injection Hone as ->. simpl. rewrite Hop.
    by apply sublist_skip.
Qed.

(** The operations of a category: deletions, then additions and updates. *)
Lemma computeOperations_order {A : Type} (differs : A -> A -> bool)
    (oldEntries newEntries : list (string * A)) :
  deletesThenRest (setOf oldEntries.*1) (setOf newEntries.*1)
    (computeOperations differs oldEntries newEntries).
Proof.
  unfold computeOperations, deletesThenRest. eexists _, _.
  split; [reflexivity|]. split_and!.
  - apply Forall_flat_map, Forall_forall. intros id _.
    destruct (has _ id); by repeat constructor.
  - apply Forall_flat_map, Forall_forall. intros id _.
    repeat case_match; by repeat constructor.
  - apply sublist_flat_map_ids. intros id op.
    destruct (has _ id); [by intros ?%elem_of_nil|].
    by intros ->%list_elem_of_singleton.
  - apply sublist_flat_map_ids. intros id op.
    repeat case_match; try (by intros ?%elem_of_nil);
      by intros ->%list_elem_of_singleton.
Qed.

Lemma campaignAddsAndUpdates_order (oldCampaigns : list (string * CampaignConfig.t))
    (oldIds ids : list string) (newCampaigns : list (string * CampaignConfig.t)) :
  let operations :=
    (campaignAddsAndUpdates oldCampaigns oldIds ids newCampaigns).1 in
  Forall (fun op => isDelete op = false) operations
  ∧ sublist (operationId <$> operations) ids.
Proof.
  revert newCampaigns. induction ids as [|id ids IH]; intros newCampaigns; simpl.
  { split; constructor. }
  destruct (assoc id newCampaigns) as [newCampaign|].
  2:{ destruct (IH newCampaigns) as [? ?]. split; [done|by apply sublist_cons]. }
  destruct (has oldIds id); simpl.
  - destruct (assoc id oldCampaigns) as [oldCampaign|].
    2:{ destruct (IH newCampaigns) as [? ?]. split; [done|by apply sublist_cons]. }
    destruct (campaignDiffers oldCampaign newCampaign) as [differs newCampaign'].
    specialize (IH (assign id newCampaign' newCampaigns)).
    destruct (campaignAddsAndUpdates _ _ ids _) as [operations newCampaigns'].
    destruct IH as [? ?]. destruct differs; simpl.
    + split; [by constructor|by apply sublist_skip].
    + split; [done|by apply sublist_cons].
  - specialize (IH newCampaigns).
    destruct (campaignAddsAndUpdates _ _ ids _) as [operations newCampaigns'].
    destruct IH as [? ?]. simpl. split; [by constructor|by apply sublist_skip].
Qed.

Lemma computeCampaignOperations_order
    (oldCampaigns newCampaigns : list (string * CampaignConfig.t)) :
  deletesThenRest (setOf oldCampaigns.*1) (setOf newCampaigns.*1)
    (computeCampaignOperations oldCampaigns newCampaigns).1.
Proof.
  unfold computeCampaignOperations, deletesThenRest.
  pose proof (campaignAddsAndUpdates_order oldCampaigns (setOf oldCampaigns.*1)
                (setOf newCampaigns.*1) newCampaigns) as [Hrest Hids].
  destruct (campaignAddsAndUpdates _ _ _ _) as [operations newCampaigns'].
  simpl in *. eexists _, operations. split; [reflexivity|]. split_and!; [| |  |done]; [|done|].
  - apply Forall_flat_map, Forall_forall. intros id _.
    destruct (has _ id); by repeat constructor.
  - apply sublist_flat_map_ids. intros id op.
    destruct (has _ id); [by intros ?%elem_of_nil|].
    by intros ->%list_elem_of_singleton.
Qed.

Section ConfigOrder.
Variable service : ServiceCall -> M unit.

Lemma forEach_actions {A : Type} (action : Operation A -> Action)
    (body : Operation A -> M unit) (ops : list (Operation A)) (s : Store) :
  (forall op s, body op s = perform service (action op) s) ->
  forEach ops body s = performAll service (action <$> ops) s.
Proof.
  intros Hbody. unfold performAll. rewrite forEach_fmap.
  by apply forEach_ext.
Qed.

Lemma performAll_app (first rest : list Action) (s : Store) :
  performAll service (first ++ rest) s =
  match performAll service first s with
  | (Ok _, s') => performAll service rest s'
  | (Throw e, s') => (Throw e, s')
  end.
Proof. unfold performAll. by rewrite forEach_app. Qed.

(** The five loops apply the actions of the delta one after the other. *)
Lemma executeConfigDelta_performAll (delta : ConfigDelta) (s : Store) :
  executeConfigDelta service delta s
  = performAll service (deltaActions delta) s.
Proof.
  unfold executeConfigDelta, deltaActions, bind.
  rewrite performAll_app.
  rewrite (forEach_actions templateAction) by (by intros [] ?).
  destruct (performAll service (templateAction <$> _) s) as [[[]|?] s1]; [|done].
  rewrite performAll_app.
  rewrite (forEach_actions transactionAction) by (by intros [] ?).
  destruct (performAll service (transactionAction <$> _) s1) as [[[]|?] s2]; [|done].
  rewrite performAll_app.
  rewrite (forEach_actions segmentAction) by (by intros [] ?).
  destruct (performAll service (segmentAction <$> _) s2) as [[[]|?] s3]; [|done].
  rewrite performAll_app.
  rewrite (forEach_actions campaignAction) by (by intros [] ?).
  destruct (performAll service (campaignAction <$> _) s3) as [[[]|?] s4]; [|done].
  unfold performAll. by rewrite forEach_fmap.
Qed.

(** C6 (as the code has it).  [executeConfigDelta] applies the operations
    of a delta category by category, templates, then transactions, then
    segments, then campaigns, then the email provider, each category in
    the order of its operation list and stopping at the first operation
    that throws (a campaign update always does).  In a delta computed by
    [analyzeConfig] every category lists all its deletes first, in the
    key order of the last accepted configuration, and then its adds and
    updates together, in the key order of the pushed configuration. *)
Theorem executeConfigDelta_order (delta : ConfigDelta) (s : Store)
    (newConfig : Segflow.t) (s0 : Store) :
  executeConfigDelta service delta s
    = performAll service (deltaActions delta) s
  ∧ exists analysed config' oldTemplates oldTransactions oldSegments oldCampaigns,
      analyzeConfig newConfig s0 = (Ok (analysed, config'), s0)
      ∧ deletesThenRest oldTemplates (setOf (Segflow.templates newConfig).*1)
          (templateOperations analysed)
      ∧ deletesThenRest oldTransactions
          (setOf (Segflow.transactions newConfig).*1)
          (transactionOperations analysed)
      ∧ deletesThenRest oldSegments (setOf (Segflow.segments newConfig).*1)
          (segmentOperations analysed)
      ∧ deletesThenRest oldCampaigns (setOf (Segflow.campaigns newConfig).*1)
          (campaignOperations analysed).
Proof.
  split; [apply executeConfigDelta_performAll|].
  unfold analyzeConfig, bind, select, ret.
  pose proof (computeCampaignOperations_order
                (default [] (Segflow.campaigns <$> (configJson <$> latestConfig (configs s0))))
                (Segflow.campaigns newConfig)) as Hcampaigns.
  destruct (computeCampaignOperations _ _) as [operations newCampaigns].
  eexists _, _, _, _, _, _. split; [reflexivity|]. simpl.
  split_and!; [apply computeOperations_order..|exact Hcampaigns].
Qed.
End ConfigOrder.

(** The sentence of C6 on the order within a category fails: pushing
    [configV2] over [configV1] updates the template [welcome] before it adds
    the template [goodbye].  When [updateTemplate] is called (and fails, the
    templates table being empty) [goodbye] has not been created. *)
Lemma executeConfigDelta_updates_before_adds :
  exists delta config',
    analyzeConfig configV2 storeV1 = (Ok (delta, config'), storeV1)
    ∧ templateOperations delta
      = [OpUpdate "welcome" welcomeV2; OpAdd "goodbye" goodbye]
    ∧ ~ deletesAddsUpdates (templateOperations delta)
    ∧ executeConfigDelta templateServices delta storeV1
      = (Throw "template not found", storeV1).
Proof.
  eexists _, _. split; [vm_compute; reflexivity|]. split; [reflexivity|]. split.
  - intros Hsorted. apply Sorted_inv in Hsorted as [_ Hhd].
    apply HdRel_inv in Hhd. simpl in Hhd. lia.
  - vm_compute. reflexivity.
Qed.

(** ** The configuration diff: pushing the same configuration again *)


Lemma leb_false_flip (x y : string) :
  String.leb x y = false -> String.leb y x = true.
Proof.
  intros Hxy. destruct (String.leb_total x y) as [H|H]; [|exact H].
  rewrite H in Hxy. discriminate Hxy.
Qed.

Lemma insertSorted_sorted (x : string) (l : list string) :
  lebSorted l -> lebSorted (insertSorted x l).
Proof.
  unfold lebSorted. induction 1 as [|y l Hl IH Hhd]; simpl.
  { repeat constructor. }
  destruct (String.leb x y) eqn:Hxy.
  - repeat constructor; done.
  - constructor; [exact IH|].
    destruct l as [|z l]; simpl.
    + constructor. by apply leb_false_flip.
    + destruct (String.leb x z).
      * constructor. by apply leb_false_flip.
      * constructor. by apply HdRel_inv in Hhd.
Qed.

Lemma sort_sorted (l : list string) : lebSorted (sort l).
Proof.
  induction l as [|x l IH]; simpl; [constructor|]. by apply insertSorted_sorted.
Qed.

Lemma sort_of_sorted (l : list string) : lebSorted l -> sort l = l.
Proof.
  unfold lebSorted. induction 1 as [|x l Hl IH Hhd]; simpl; [done|].
  rewrite IH. destruct Hhd as [|y l Hxy]; simpl; [done|]. by rewrite Hxy.
Qed.

Lemma sort_idempotent (l : list string) : sort (sort l) = sort l.
Proof. apply sort_of_sorted, sort_sorted. Qed.


Lemma campaignDiffers_key (oldCampaign newCampaign : CampaignConfig.t) :
  campaignKey (campaignDiffers oldCampaign newCampaign).2 = campaignKey newCampaign
  ∧ (campaignKey oldCampaign = campaignKey newCampaign ->
     (campaignDiffers oldCampaign newCampaign).1 = false).
Proof.
  unfold campaignDiffers, campaignKey, stringifyDiffers.
  destruct oldCampaign as [flow1 behavior1 segments1 exclude1],
    newCampaign as [flow2 behavior2 segments2 exclude2]; simpl.
  destruct (String.eqb flow1 flow2) eqn:Hflow; simpl.
  2:{ split; [done|]. intros [= -> _ _ _]. by rewrite String.eqb_refl in Hflow. }
  case_bool_decide as Hbehavior; simpl.
  2:{ split; [done|]. by intros [= _ -> _ _]. }
  case_bool_decide as Hsegments; simpl.
  2:{ split; [by rewrite sort_idempotent|]. by intros [= _ _ ? _]. }
  split.
  - rewrite sort_idempotent. do 2 f_equal.
    destruct exclude2; simpl; [|done]. by rewrite sort_idempotent.
  - intros [= _ _ _ Hexclude]. apply negb_false_iff, bool_decide_eq_true.
    rewrite Hexclude. reflexivity.
Qed.


Lemma sameCampaigns_refl entries : sameCampaigns entries entries.
Proof. apply Forall2_same_length_lookup_2; [done|]. intros i p q ? ?. naive_solver. Qed.

Lemma sameCampaigns_sym entries1 entries2 :
  sameCampaigns entries1 entries2 -> sameCampaigns entries2 entries1.
Proof.
  intros H. apply Forall2_flip. eapply Forall2_impl; [exact H|].
  simpl. intros p q [? ?]. done.
Qed.

Lemma sameCampaigns_keys entries1 entries2 :
  sameCampaigns entries1 entries2 -> entries1.*1 = entries2.*1.
Proof.
  induction 1 as [|[k1 c1] [k2 c2] l1 l2 [Hk _] _ IH]; [done|].
  rewrite !fmap_cons. simpl in *. by rewrite Hk, IH.
Qed.

Lemma sameCampaigns_assoc entries1 entries2 (id : string) :
  sameCampaigns entries1 entries2 ->
  match assoc id entries1, assoc id entries2 with
  | Some c1, Some c2 => campaignKey c1 = campaignKey c2
  | None, None => True
  | _, _ => False
  end.
Proof.
  induction 1 as [|[k1 c1] [k2 c2] l1 l2 [Hk Hc] _ IH]; simpl in *; [done|].
  subst k2. by destruct (String.eqb id k1).
Qed.

Lemma sameCampaigns_assign entries1 entries2 (id : string)
    (c c' : CampaignConfig.t) :
  sameCampaigns entries1 entries2 ->
  assoc id entries2 = Some c -> campaignKey c' = campaignKey c ->
  sameCampaigns entries1 (assign id c' entries2).
Proof.
  induction 1 as [|[k1 c1] [k2 c2] l1 l2 [Hk Hc] Hrest IH]; simpl in *; [done|].
  subst k2. destruct (String.eqb id k1) eqn:Hid.
  - intros [= ->] Hkey. constructor; [|done]. simpl. split; congruence.
  - intros Hassoc Hkey. constructor; [done|]. by apply IH.
Qed.

(** Whatever the old record, the comparisons change the new record only
    within what [campaignDiffers] does not tell apart. *)
Lemma campaignAddsAndUpdates_sameCampaigns
    (oldCampaigns : list (string * CampaignConfig.t)) (oldIds ids : list string)
    (original newCampaigns : list (string * CampaignConfig.t)) :
  sameCampaigns original newCampaigns ->
  sameCampaigns original
    (campaignAddsAndUpdates oldCampaigns oldIds ids newCampaigns).2.
Proof.
  revert newCampaigns. induction ids as [|id ids IH]; intros newCampaigns Hsame;
    simpl; [done|].
  destruct (assoc id newCampaigns) as [newCampaign|] eqn:Hnew; [|by apply IH].
  destruct (has oldIds id); simpl.
  - destruct (assoc id oldCampaigns) as [oldCampaign|]; [|by apply IH].
    pose proof (campaignDiffers_key oldCampaign newCampaign) as [Hkey _].
    destruct (campaignDiffers oldCampaign newCampaign) as [differs newCampaign'].
    specialize (IH (assign id newCampaign' newCampaigns)).
    destruct (campaignAddsAndUpdates _ _ ids _) as [operations newCampaigns'].
    simpl in *. apply IH. by eapply sameCampaigns_assign.
  - specialize (IH newCampaigns Hsame).
    by destruct (campaignAddsAndUpdates _ _ ids _) as [operations newCampaigns'].
Qed.

(** Against an old record that [campaignDiffers] does not tell apart from
    the new one, the second loop finds nothing to add or update. *)
Lemma campaignAddsAndUpdates_same
    (oldCampaigns : list (string * CampaignConfig.t)) (ids : list string)
    (newCampaigns : list (string * CampaignConfig.t)) :
  sameCampaigns oldCampaigns newCampaigns ->
  (forall id, id ∈ ids -> id ∈ setOf oldCampaigns.*1) ->
  (campaignAddsAndUpdates oldCampaigns (setOf oldCampaigns.*1) ids newCampaigns).1
  = [].
Proof.
  revert newCampaigns. induction ids as [|id ids IH]; intros newCampaigns Hsame Hids;
    simpl; [done|].
  assert (Hrest : forall id', id' ∈ ids -> id' ∈ setOf oldCampaigns.*1).
  { intros id' Hid'. apply Hids, elem_of_cons. by right. }
  pose proof (sameCampaigns_assoc _ _ id Hsame) as Hassoc.
  destruct (assoc id newCampaigns) as [newCampaign|] eqn:Hnew; [|by apply IH].
  unfold has. rewrite bool_decide_eq_true_2
    by (apply Hids, elem_of_cons; by left). simpl.
  destruct (assoc id oldCampaigns) as [oldCampaign|]; [|done].
  pose proof (campaignDiffers_key oldCampaign newCampaign) as [Hkey Hfalse].
  destruct (campaignDiffers oldCampaign newCampaign) as [differs newCampaign'].
  simpl in *. rewrite (Hfalse Hassoc).
  specialize (IH (assign id newCampaign' newCampaigns)).
  destruct (campaignAddsAndUpdates _ _ ids _) as [operations newCampaigns'].
  simpl in *. apply IH; [|done]. by eapply sameCampaigns_assign.
Qed.

Lemma flat_map_nil {A B : Type} (f : A -> list B) (l : list A) :
  (forall x, x ∈ l -> f x = []) -> flat_map f l = [].
Proof.
  induction l as [|x l IH]; intros Hf; simpl; [done|].
  rewrite Hf by (apply elem_of_cons; by left). simpl.
  apply IH. intros y Hy. apply Hf, elem_of_cons. by right.
Qed.

Lemma elem_of_setOf (keys : list string) (k : string) :
  k ∈ setOf keys <-> k ∈ keys.
Proof.
  induction keys as [|k' keys IH]; simpl; [done|].
  rewrite !elem_of_cons, list_elem_of_filter, IH.
  destruct (decide (k = k')); naive_solver.
Qed.

Lemma assoc_is_Some {A : Type} (k : string) (l : list (string * A)) :
  k ∈ l.*1 -> is_Some (assoc k l).
Proof.
  induction l as [|[k' v] l IH]; simpl; [by intros ?%elem_of_nil|].
  intros [->|Hin]%elem_of_cons.
  - rewrite String.eqb_refl. by eexists.
  - destruct (String.eqb k k'); [by eexists|auto].
Qed.

Lemma computeCampaignOperations_same
    (oldCampaigns newCampaigns : list (string * CampaignConfig.t)) :
  sameCampaigns oldCampaigns newCampaigns ->
  (computeCampaignOperations oldCampaigns newCampaigns).1 = [].
Proof.
  intros Hsame. unfold computeCampaignOperations.
  pose proof (campaignAddsAndUpdates_same oldCampaigns (setOf newCampaigns.*1)
                newCampaigns Hsame) as Hloop.
  rewrite <- (sameCampaigns_keys _ _ Hsame) in *.
  destruct (campaignAddsAndUpdates _ _ _ _) as [operations newCampaigns'].
  simpl in *. rewrite Hloop by done. rewrite app_nil_r.
  apply flat_map_nil. intros id Hid. unfold has. by rewrite bool_decide_eq_true_2.
Qed.

(** A record against itself: nothing to delete, add or update. *)
Lemma computeOperations_same {A : Type} (differs : A -> A -> bool)
    (entries : list (string * A)) :
  (forall x, differs x x = false) ->
  computeOperations differs entries entries = [].
Proof.
  intros Hdiffers. unfold computeOperations.
  rewrite !flat_map_nil; [done| |].
  - intros id Hid. unfold has. rewrite bool_decide_eq_true_2 by done. simpl.
    destruct (assoc id entries); [|done]. by rewrite Hdiffers.
  - intros id Hid. unfold has. by rewrite bool_decide_eq_true_2.
Qed.



Lemma sameConfig_refl (cfg : Segflow.t) : sameConfig cfg cfg.
Proof. unfold sameConfig. split_and!; try done. apply sameCampaigns_refl. Qed.

(** [analyzeConfig] only reads; what it stores back is the pushed
    configuration up to the sorting of segment lists. *)
Lemma analyzeConfig_reads (cfg : Segflow.t) (s : Store) :
  exists delta cfg',
    analyzeConfig cfg s = (Ok (delta, cfg'), s) ∧ sameConfig cfg' cfg.
Proof.
  unfold analyzeConfig, bind, select, ret.
  pose proof (campaignAddsAndUpdates_sameCampaigns
                (default [] (Segflow.campaigns <$> (configJson <$> latestConfig (configs s))))
                (setOf (default [] (Segflow.campaigns <$> (configJson <$> latestConfig (configs s)))).*1)
                (setOf (Segflow.campaigns cfg).*1)
                (Segflow.campaigns cfg) (Segflow.campaigns cfg)
                (sameCampaigns_refl _)) as Hsame.
  unfold computeCampaignOperations.
  destruct (campaignAddsAndUpdates _ _ _ _) as [operations newCampaigns].
  eexists _, _. split; [reflexivity|]. unfold sameConfig. simpl.
  split_and!; try done. by apply sameCampaigns_sym.
Qed.

Lemma analyzeConfig_same (cfg : Segflow.t) (s : Store) (row : ConfigRow) :
  latestConfig (configs s) = Some row ->
  sameConfig (configJson row) cfg ->
  exists delta cfg',
    analyzeConfig cfg s = (Ok (delta, cfg'), s) ∧ noOperations delta.
Proof.
  intros Hlatest (Htemplates & Hsegments & Hcampaigns & Htransactions & Hprovider).
  unfold analyzeConfig, bind, select, ret. rewrite Hlatest. simpl.
  rewrite Htemplates, Hsegments, Htransactions, Hprovider.
  pose proof (computeCampaignOperations_same _ _ Hcampaigns) as Hops.
  destruct (computeCampaignOperations _ _) as [operations newCampaigns].
  simpl in Hops. subst operations.
  eexists _, _. split; [reflexivity|]. unfold noOperations. simpl. split_and!.
  - apply computeOperations_same. intros x. by rewrite !String.eqb_refl.
  - apply computeOperations_same. intros x. by rewrite !String.eqb_refl.
  - done.
  - apply computeOperations_same. intros x. by rewrite !String.eqb_refl.
  - unfold computeEmailProviderOperations. by rewrite bool_decide_eq_true_2.
Qed.

Lemma latestConfig_snoc (rows : list ConfigRow) (row : ConfigRow) :
  Forall (fun r => (createdAt r < createdAt row)%Z) rows ->
  latestConfig (rows ++ [row]) = Some row.
Proof.
  induction 1 as [|r rows Hr _ IH]; simpl; [done|].
  rewrite IH. by rewrite (proj2 (Z.ltb_lt _ _) Hr).
Qed.

Lemma assoc_assign {A : Type} (k id : string) (v : A)
    (entries : list (string * A)) :
  assoc k (assign id v entries)
  = if String.eqb k id then (fun _ => v) <$> assoc k entries
    else assoc k entries.
Proof.
  induction entries as [|[k0 w] entries IH]; simpl; [by destruct (String.eqb k id)|].
  destruct (String.eqb id k0) eqn:Hid; simpl.
  - apply String.eqb_eq in Hid. subst k0.
    destruct (String.eqb k id); reflexivity.
  - destruct (String.eqb k k0) eqn:Hk; [|exact IH].
    apply String.eqb_eq in Hk. subst k0.
    rewrite String.eqb_sym in Hid. by rewrite Hid.
Qed.

Lemma assoc_Some_fst {A : Type} (k : string) (l : list (string * A)) (v : A) :
  assoc k l = Some v -> k ∈ l.*1.
Proof.
  intros Hv%assoc_Some_elem. apply list_elem_of_fmap. by exists (k, v).
Qed.

Lemma sameCampaigns_sameCampaignKeys entries1 entries2 :
  sameCampaigns entries1 entries2 -> sameCampaignKeys entries1 entries2.
Proof.
  intros Hsame id. pose proof (sameCampaigns_assoc _ _ id Hsame) as Hassoc.
  destruct (assoc id entries1), (assoc id entries2); simpl; try done.
  by f_equal.
Qed.

Lemma sameCampaignKeys_assign entries1 entries2 (id : string)
    (c c' : CampaignConfig.t) :
  sameCampaignKeys entries1 entries2 ->
  assoc id entries2 = Some c -> campaignKey c' = campaignKey c ->
  sameCampaignKeys entries1 (assign id c' entries2).
Proof.
  intros Hsame Hc Hkey k. rewrite assoc_assign, (Hsame k).
  destruct (String.eqb k id) eqn:Hk; [|done].
  apply String.eqb_eq in Hk. subst k. rewrite Hc. simpl. by f_equal.
Qed.

(** Against an old record with the same keys and entries that
    [campaignDiffers] does not tell apart, the second loop finds nothing
    to add or update. *)
Lemma campaignAddsAndUpdates_sameKeys
    (oldCampaigns : list (string * CampaignConfig.t)) (ids : list string)
    (newCampaigns : list (string * CampaignConfig.t)) :
  sameCampaignKeys oldCampaigns newCampaigns ->
  (campaignAddsAndUpdates oldCampaigns (setOf oldCampaigns.*1) ids newCampaigns).1
  = [].
Proof.
  revert newCampaigns. induction ids as [|id ids IH]; intros newCampaigns Hsame;
    simpl; [done|].
  pose proof (Hsame id) as Hassoc.
  destruct (assoc id newCampaigns) as [newCampaign|] eqn:Hnew; [|by apply IH].
  destruct (assoc id oldCampaigns) as [oldCampaign|] eqn:Hold; [|done].
  simpl in Hassoc. apply (inj Some) in Hassoc.
  unfold has. rewrite bool_decide_eq_true_2
    by (by eapply elem_of_setOf, assoc_Some_fst). simpl.
  pose proof (campaignDiffers_key oldCampaign newCampaign) as [Hkey Hfalse].
  destruct (campaignDiffers oldCampaign newCampaign) as [differs newCampaign'].
  simpl in *. rewrite (Hfalse Hassoc).
  specialize (IH (assign id newCampaign' newCampaigns)).
  destruct (campaignAddsAndUpdates _ _ ids _) as [operations newCampaigns'].
  simpl in *. apply IH. by eapply sameCampaignKeys_assign.
Qed.

Lemma computeCampaignOperations_sameKeys
    (oldCampaigns newCampaigns : list (string * CampaignConfig.t)) :
  sameCampaignKeys oldCampaigns newCampaigns ->
  (computeCampaignOperations oldCampaigns newCampaigns).1 = [].
Proof.
  intros Hsame. unfold computeCampaignOperations.
  pose proof (campaignAddsAndUpdates_sameKeys oldCampaigns
                (setOf newCampaigns.*1) newCampaigns Hsame) as Hloop.
  destruct (campaignAddsAndUpdates _ _ _ _) as [operations newCampaigns'].
  simpl in *. rewrite Hloop, app_nil_r.
  apply flat_map_nil. intros id Hid. rewrite elem_of_setOf in Hid.
  destruct (assoc_is_Some id oldCampaigns Hid) as [oldCampaign Hold].
  pose proof (Hsame id) as Hassoc. rewrite Hold in Hassoc.
  destruct (assoc id newCampaigns) as [newCampaign|] eqn:Hnew; [|done].
  unfold has. rewrite bool_decide_eq_true_2; [done|].
  by eapply elem_of_setOf, assoc_Some_fst.
Qed.

(** Two records with the same entries under the same keys: nothing to
    delete, add or update. *)
Lemma computeOperations_sameEntries {A : Type} (differs : A -> A -> bool)
    (oldEntries newEntries : list (string * A)) :
  (forall x, differs x x = false) ->
  (forall id, assoc id oldEntries = assoc id newEntries) ->
  computeOperations differs oldEntries newEntries = [].
Proof.
  intros Hdiffers Hsame. unfold computeOperations.
  rewrite !flat_map_nil; [done| |].
  - intros id Hid. rewrite elem_of_setOf in Hid.
    destruct (assoc_is_Some id newEntries Hid) as [newEntry Hnew].
    rewrite Hnew. unfold has. rewrite bool_decide_eq_true_2.
    + simpl. by rewrite Hsame, Hnew, Hdiffers.
    + apply elem_of_setOf. rewrite <- Hsame in Hnew. by eapply assoc_Some_fst.
  - intros id Hid. rewrite elem_of_setOf in Hid.
    destruct (assoc_is_Some id oldEntries Hid) as [oldEntry Hold].
    unfold has. rewrite bool_decide_eq_true_2; [done|].
    apply elem_of_setOf. rewrite Hsame in Hold. by eapply assoc_Some_fst.
Qed.

Lemma sameConfig_readsBackAs (stored pushed : Segflow.t) :
  sameConfig stored pushed -> readsBackAs stored pushed.
Proof.
  intros (Htemplates & Hsegments & Hcampaigns & Htransactions & Hprovider).
  unfold readsBackAs. rewrite Htemplates, Hsegments, Htransactions.
  split_and!; try done. by apply sameCampaigns_sameCampaignKeys.
Qed.

Lemma readsBackAs_trans (a b c : Segflow.t) :
  readsBackAs a b -> readsBackAs b c -> readsBackAs a c.
Proof.
  intros (H1 & H2 & H3 & H4 & H5) (H1' & H2' & H3' & H4' & H5').
  unfold readsBackAs, sameCampaignKeys in *. split_and!; intros; congruence.
Qed.

(** Against a last accepted configuration that reads as the pushed one,
    the analysis finds nothing to do. *)
Lemma analyzeConfig_readsBack (cfg : Segflow.t) (s : Store) (row : ConfigRow) :
  latestConfig (configs s) = Some row ->
  readsBackAs (configJson row) cfg ->
  exists delta cfg',
    analyzeConfig cfg s = (Ok (delta, cfg'), s) ∧ noOperations delta.
Proof.
  intros Hlatest (Htemplates & Hsegments & Hcampaigns & Htransactions & Hprovider).
  unfold analyzeConfig, bind, select, ret. rewrite Hlatest. simpl.
  pose proof (computeCampaignOperations_sameKeys _ _ Hcampaigns) as Hops.
  destruct (computeCampaignOperations _ _) as [operations newCampaigns].
  simpl in Hops. subst operations.
  eexists _, _. split; [reflexivity|]. unfold noOperations. simpl. split_and!.
  - apply computeOperations_sameEntries; [|done].
    intros x. by rewrite !String.eqb_refl.
  - apply computeOperations_sameEntries; [|done].
    intros x. by rewrite !String.eqb_refl.
  - done.
  - apply computeOperations_sameEntries; [|done].
    intros x. by rewrite !String.eqb_refl.
  - unfold computeEmailProviderOperations. rewrite Hprovider.
    by rewrite bool_decide_eq_true_2.
Qed.

Section SameConfig.
Variable service : ServiceCall -> M unit.
Variable jsonColumn : Segflow.t -> Segflow.t.

Lemma createConfig_no_operations (now : Z) (cfg cfg' : Segflow.t)
    (delta : ConfigDelta) (s : Store) :
  analyzeConfig cfg s = (Ok (delta, cfg'), s) ->
  noOperations delta ->
  createConfig service jsonColumn now cfg s = (Ok None, s).
Proof.
  intros Hanalyze (H1 & H2 & H3 & H4 & H5).
  unfold createConfig, transaction, bind. rewrite Hanalyze.
  by rewrite H1, H2, H3, H4, H5.
Qed.

Hypothesis service_keeps_configs :
  forall call s, configs (service call s).2 = configs s.

Lemma performAll_keeps_configs (actions : list Action) (s : Store) :
  configs (performAll service actions s).2 = configs s.
Proof.
  unfold performAll, forEach. revert s.
  induction actions as [|action actions IH]; intros s; [done|].
  rewrite foldM_cons.
  assert (Hstep : configs (perform service action s).2 = configs s).
  { destruct action; simpl; [apply service_keeps_configs|done]. }
  destruct (perform service action s) as [[[]|e] s']; simpl in *; [|done].
  by rewrite IH.
Qed.

Lemma nextConfigId_positive (s : Store) : (nextConfigId s =? 0)%Z = false.
Proof.
  unfold nextConfigId. apply Z.eqb_neq.
  assert (0 <= foldr Z.max 0 (configId <$> configs s))%Z; [|lia].
  induction (configs s) as [|row rows IH]; [done|].
  rewrite fmap_cons. simpl. lia.
Qed.

End SameConfig.

Lemma sameConfig_refl_readsBackAs (cfg : Segflow.t) : readsBackAs cfg cfg.
Proof. apply sameConfig_readsBackAs, sameConfig_refl. Qed.

(** The catalogue services leave the ledger alone. *)
Lemma catalogueServices_keeps_configs (call : ServiceCall) (s : Store) :
  configs (catalogueServices call s).2 = configs s.
Proof.
  destruct call; simpl; try reflexivity;
    unfold services.createTemplate, services.updateTemplate,
      services.deleteTemplate, services.createTransaction,
      services.updateTransaction, services.deleteTransaction,
      services.setEmailProvider, try_catch, transaction, bind, select,
      update, throw, ret; simpl;
    repeat (match goal with
            | |- context [match ?m !! ?k with _ => _ end] => destruct (m !! k)
            end; simpl);
    reflexivity.
Qed.



(** * Further properties *)

(** ** The sandbox: replaying a flow *)

Section SandboxReplay.
Context {Gen : Type}.
Variable evalFlow : string -> outcome Gen.
Variable next : Gen -> JSValue -> @IterResult Gen.

Lemma driveGenerator_reads (attributeStates attributeStates' : list JSValue)
    (remaining : nat) :
  forall (i : nat) (vmGenerator : Gen) (last : GeneratorResult),
  (forall j, (i <= j < i + remaining)%nat ->
     attributeStates !! j = attributeStates' !! j) ->
  driveGenerator next attributeStates remaining i vmGenerator last
  = driveGenerator next attributeStates' remaining i vmGenerator last.
Proof.
  induction remaining as [|remaining IH]; intros i g last Hsame; [reflexivity|].
  simpl. rewrite (Hsame i) by lia.
  destruct (next g _); try reflexivity.
  apply IH. intros j Hj. apply Hsame. lia.
Qed.

(** X1.  The attribute states beyond position [targetIndex] are never read: two
    lists that agree on their first [targetIndex + 1] entries give the same
    result. *)
Theorem executeGeneratorToIndex_reads_prefix (generatorCode : string)
    (attributeStates attributeStates' : list JSValue) (targetIndex : Z) :
  take (Z.to_nat (targetIndex + 1)) attributeStates
  = take (Z.to_nat (targetIndex + 1)) attributeStates' ->
  executeGeneratorToIndex evalFlow next generatorCode attributeStates targetIndex
  = executeGeneratorToIndex evalFlow next generatorCode attributeStates' targetIndex.
Proof.
  intros Htake. unfold executeGeneratorToIndex.
  destruct (evalFlow generatorCode) as [g|e]; [|reflexivity].
  apply driveGenerator_reads. intros j Hj.
  rewrite <- (lookup_take_lt attributeStates (Z.to_nat (targetIndex + 1)) j) by lia.
  rewrite <- (lookup_take_lt attributeStates' (Z.to_nat (targetIndex + 1)) j) by lia.
  by rewrite Htake.
Qed.

Lemma driveGenerator_done (attributeStates : list JSValue) (remaining : nat) :
  forall (i : nat) (vmGenerator : Gen) (last result : GeneratorResult)
         (remaining' : nat),
  driveGenerator next attributeStates remaining i vmGenerator last = Ok result ->
  done last = false -> done result = true ->
  (remaining <= remaining')%nat ->
  driveGenerator next attributeStates remaining' i vmGenerator last = Ok result.
Proof.
  induction remaining as [|remaining IH];
    intros i g last result remaining' Hrun Hlast Hdone Hle.
  - simpl in Hrun. injection Hrun as <-. congruence.
  - destruct remaining' as [|remaining']; [lia|]. simpl in *.
    destruct (next g _) as [v g' a|v a|e]; try done.
    eapply IH; [exact Hrun|reflexivity|exact Hdone|lia].
Qed.

(** X2.  A flow that has returned stays returned: once the run to [targetIndex]
    ends with [done], the run to any later index gives the very same
    result, the generator being advanced no further. *)
Theorem executeGeneratorToIndex_done_stable (generatorCode : string)
    (attributeStates : list JSValue) (targetIndex laterIndex : Z)
    (result : GeneratorResult) :
  executeGeneratorToIndex evalFlow next generatorCode attributeStates targetIndex
  = Ok result ->
  done result = true ->
  (targetIndex <= laterIndex)%Z ->
  executeGeneratorToIndex evalFlow next generatorCode attributeStates laterIndex
  = Ok result.
Proof.
  unfold executeGeneratorToIndex. intros Hrun Hdone Hle.
  destruct (evalFlow generatorCode) as [g|e]; [|done].
  eapply driveGenerator_done; [exact Hrun|reflexivity|exact Hdone|lia].
Qed.

Lemma driveGenerator_yield (attributeStates : list JSValue) (remaining : nat) :
  forall (i : nat) (vmGenerator : Gen) (last result : GeneratorResult)
         (remaining' : nat),
  driveGenerator next attributeStates remaining i vmGenerator last = Ok result ->
  done last = false -> done result = false ->
  (remaining' <= remaining)%nat ->
  exists result',
    driveGenerator next attributeStates remaining' i vmGenerator last = Ok result'
    ∧ done result' = false.
Proof.
  induction remaining as [|remaining IH];
    intros i g last result remaining' Hrun Hlast Hdone Hle.
  - assert (remaining' = 0%nat) as -> by lia. simpl. eauto.
  - destruct remaining' as [|remaining']; [simpl; eauto|]. simpl in *.
    destruct (next g _) as [v g' a|v a|e]; try done.
    + eapply IH; [exact Hrun|reflexivity|exact Hdone|lia].
    + injection Hrun as <-. simpl in Hdone. done.
Qed.

(** X3.  A flow that is still running at [targetIndex] was running at every
    earlier index: the run to an earlier index succeeds and ends with a
    yield. *)
Theorem executeGeneratorToIndex_yield_earlier (generatorCode : string)
    (attributeStates : list JSValue) (targetIndex earlierIndex : Z)
    (result : GeneratorResult) :
  executeGeneratorToIndex evalFlow next generatorCode attributeStates targetIndex
  = Ok result ->
  done result = false ->
  (earlierIndex <= targetIndex)%Z ->
  exists result',
    executeGeneratorToIndex evalFlow next generatorCode attributeStates earlierIndex
    = Ok result'
    ∧ done result' = false.
Proof.
  unfold executeGeneratorToIndex. intros Hrun Hdone Hle.
  destruct (evalFlow generatorCode) as [g|e]; [|done].
  eapply driveGenerator_yield; [exact Hrun|reflexivity|exact Hdone|lia].
Qed.
End SandboxReplay.

(** ** One campaign: [evaluateUserCampaign] *)

Lemma evaluateUserCampaign_decides (userId campaignId : string) (s : Store) :
  exists stillMatches,
    evaluateUserCampaign userId campaignId s = (Ok stillMatches, s)
    ∧ (stillMatches = true <-> matchesCampaign s userId campaignId).
Proof.
  unfold evaluateUserCampaign, bind, select, ret. simpl.
  eexists. split; [reflexivity|]. apply shouldBeInCampaign_spec.
Qed.

(** X4.  [evaluateUserCampaign] reads and never writes or throws; it answers
    [true] exactly when the user is in every include segment and in no
    exclude segment of the campaign.  A campaign id without segment rows,
    in particular one that names no campaign, gives [true]. *)
Theorem evaluateUserCampaign_matches (userId campaignId : string) (s : Store) :
  exists stillMatches,
    evaluateUserCampaign userId campaignId s = (Ok stillMatches, s)
    ∧ (stillMatches = true <-> matchesCampaign s userId campaignId)
    ∧ ((forall segmentId,
          ((campaignId, segmentId) ∉ schema.campaignSegments s)
          ∧ ((campaignId, segmentId) ∉ schema.campaignExcludeSegments s)) ->
       stillMatches = true).
Proof.
  destruct (evaluateUserCampaign_decides userId campaignId s)
    as (stillMatches & Hrun & Hspec).
  exists stillMatches. split_and!; [done|done|].
  intros Hnone. apply Hspec. split; intros segmentId Hin;
    destruct (Hnone segmentId); done.
Qed.

(** ** The executor: how a step ends *)

Lemma lookup_updateExecution (userId campaignId : string)
    (set : Execution -> Execution) (s : Store) :
  updateExecution userId campaignId set s
  = (Ok tt, set_executions (alter set (userId, campaignId) (executions s)) s).
Proof. reflexivity. Qed.

Lemma killExecution_status (userId campaignId reason : string) (s s' : Store)
    (row : Execution) :
  killExecution userId campaignId reason s = (Ok tt, s') ->
  executions s' !! (userId, campaignId) = Some row ->
  status row = terminated ∧ error row = Some reason.
Proof.
  unfold killExecution, updateExecution, bind, select, update, ret. simpl.
  destruct (executions s !! (userId, campaignId)) as [row0|] eqn:Hrow0.
  - intros [= <-]. simpl. rewrite lookup_alter_eq, Hrow0. simpl.
    intros [= <-]. done.
  - intros [= <-]. congruence.
Qed.

Lemma killExecution_returns (userId campaignId reason : string) (s : Store) :
  exists s', killExecution userId campaignId reason s = (Ok tt, s').
Proof.
  unfold killExecution, updateExecution, bind, select, update, ret. simpl.
  destruct (executions s !! (userId, campaignId)); eauto.
Qed.

Section ExecutorSteps.
Context {Gen : Type}.
Variable evalFlow : string -> outcome Gen.
Variable next : Gen -> JSValue -> @IterResult Gen.
Variable evalSandboxedWithUser : string -> JSValue -> outcome string.
Variable renderTemplate : string -> string -> JSValue -> outcome string.
Variable segmentMatchesUser : Store -> string -> string -> outcome bool.
Variable deliver : EmailProvider -> Email -> outcome unit.
Variable localTZA : Z -> bool -> Z.
Variable coercedPlus : Z -> JSValue -> option Z.
Variable coercedTimes : JSValue -> Z -> option Z.

(** A command that throws has written nothing; one that returns leaves the
    execution row [sleeping]. *)
Lemma handleExecutionCommand_outcome (now : Z) (command : JSValue)
    (state : ExecutionState.t) (user : JSValue) (s : Store) :
  (exists message,
     handleExecutionCommand evalSandboxedWithUser renderTemplate deliver
       localTZA coercedPlus coercedTimes now command state user s
     = (Throw message, s))
  ∨ (exists s0 sleepUntil,
       handleExecutionCommand evalSandboxedWithUser renderTemplate deliver
         localTZA coercedPlus coercedTimes now command state user s
       = updateExecution (ExecutionState.userId state)
           (ExecutionState.campaignId state)
           (fun row => {| status := sleeping; sleepUntil := sleepUntil;
                          error := error row |}) s0
       ∧ (s0 = s ∨ exists email, s0 = set_outbox (outbox s ++ [email]) s)).
Proof.
  unfold handleExecutionCommand.
  destruct (is_str (prop command "type") "WAIT").
  { destruct (negb (truthy (prop command "duration"))); [left; by eexists|].
    match goal with
    | |- context [match ?t with Some _ => _ | None => _ end] => destruct t
    end; [right; eauto|left; by eexists]. }
  destruct (is_str (prop command "type") "SEND_EMAIL").
  { unfold bind, sendTemplateEmail, sendEmail, getEmailProvider, bind, lift,
      select, update, throw, ret. simpl.
    destruct (get user "email") as [to|e]; [|left; by eexists].
    match goal with
    | |- context [match ?t with Some _ => _ | None => _ end] => destruct t as [template|]
    end; [|left; by eexists].
    destruct (evalSandboxedWithUser _ _) as [processedSubject|e];
      [|left; by eexists].
    destruct (renderTemplate _ _ _) as [processedHtml|e]; [|left; by eexists].
    destruct (emailProvider s) as [provider|]; [|left; by eexists].
    destruct (deliver _ _) as [[]|e]; [|left; by eexists].
    right. eexists _, _. split; [reflexivity|]. right. by eexists. }
  destruct (is_str (prop command "type") "SEND_SMS"); left; by eexists.
Qed.

Lemma bind_Ok {A B : Type} (m : M A) (k : A -> M B) (s s' : Store) (b : B) :
  bind m k s = (Ok b, s') ->
  exists a s0, m s = (Ok a, s0) ∧ k a s0 = (Ok b, s').
Proof.
  unfold bind. destruct (m s) as [[a|e] s0]; [eauto|done].
Qed.

Lemma advanceExecution_None (now : Z) (state : ExecutionState.t) (s s1 : Store) :
  advanceExecution evalFlow next segmentMatchesUser now state s = (Ok None, s1) ->
  exists s0,
    killExecution (ExecutionState.userId state) (ExecutionState.campaignId state)
      "User no longer matches campaign criteria" s0 = (Ok tt, s1).
Proof.
  unfold advanceExecution. intros Hrun.
  apply bind_Ok in Hrun as (setup & s0 & _ & Hrun).
  apply bind_Ok in Hrun as (stillMatches & s2 & _ & Hrun).
  destruct stillMatches; simpl in Hrun.
  - apply bind_Ok in Hrun as (? & ? & _ & Hrun).
    apply bind_Ok in Hrun as (? & ? & _ & Hrun).
    apply bind_Ok in Hrun as (? & ? & _ & Hrun). done.
  - apply bind_Ok in Hrun as ([] & s3 & Hkill & Hrun).
    injection Hrun as <-. eauto.
Qed.

Lemma interpretResult_Ok (now : Z) (state : ExecutionState.t)
    (campaign : Campaign) (user : JSValue) (result : GeneratorResult)
    (s s' : Store) (b : bool) (row : Execution) :
  interpretResult evalSandboxedWithUser renderTemplate deliver localTZA
    coercedPlus coercedTimes now state campaign user result s = (Ok b, s') ->
  executions s' !! (ExecutionState.userId state, ExecutionState.campaignId state)
    = Some row ->
  b = true ∧ status row ∈ [sleeping; completed; terminated].
Proof.
  unfold interpretResult. intros Hrun Hrow.
  destruct (done result && negb (truthy (value result))).
  { apply bind_Ok in Hrun as ([] & s0 & Hupdate & Hrun).
    injection Hrun as <- <-. rewrite lookup_updateExecution in Hupdate.
    injection Hupdate as <-. simpl in Hrow. rewrite lookup_alter_eq in Hrow.
    destruct (executions s !! _); [|done]. injection Hrow as <-. simpl.
    split; [done|set_solver]. }
  destruct (negb (truthy (value result))); [done|].
  apply bind_Ok in Hrun as (stillMatches & s0 & _ & Hrun).
  destruct stillMatches; simpl in Hrun.
  - apply bind_Ok in Hrun as ([] & s1 & Hcommand & Hrun).
    injection Hrun as <- <-. split; [done|].
    destruct (handleExecutionCommand_outcome now (value result) state user s0)
      as [(message & Hthrow)|(s2 & sleepUntil & Hok & _)]; [congruence|].
    rewrite Hok, lookup_updateExecution in Hcommand. injection Hcommand as <-.
    simpl in Hrow. rewrite lookup_alter_eq in Hrow.
    destruct (executions s2 !! _); [|done]. injection Hrow as <-. simpl.
    set_solver.
  - apply bind_Ok in Hrun as ([] & s1 & Hkill & Hrun).
    injection Hrun as <- <-. split; [done|].
    destruct (killExecution_status _ _ _ _ _ _ Hkill Hrow) as [-> _]. set_solver.
Qed.

(** X5.  [processExecution] never throws, and it never leaves the row it worked
    on [running] or [pending]: when it returns [false] the row is [failed]
    and carries an error message; when it returns [true] the row is
    [sleeping], [completed] or [terminated].  (The row may also be gone:
    leaving a dynamic campaign deletes it.) *)
Theorem processExecution_settles (now : Z) (state : ExecutionState.t) (s : Store) :
  exists succeeded s',
    processExecution evalFlow next evalSandboxedWithUser renderTemplate
      segmentMatchesUser deliver localTZA coercedPlus coercedTimes now state s
    = (Ok succeeded, s')
    ∧ forall row,
        executions s' !! (ExecutionState.userId state,
                          ExecutionState.campaignId state) = Some row ->
        if succeeded then status row ∈ [sleeping; completed; terminated]
        else status row = failed ∧ is_Some (error row).
Proof.
  unfold processExecution, try_catch.
  match goal with
  | |- context [match ?body s with _ => _ end] => destruct (body s) as [[b|e] s1] eqn:Hbody
  end.
  - exists b, s1. split; [done|]. intros row Hrow.
    apply bind_Ok in Hbody as (advanced & s0 & Hadvance & Hrest).
    destruct advanced as [[[campaign user] result]|].
    + destruct (interpretResult_Ok _ _ _ _ _ _ _ _ _ Hrest Hrow) as [-> Hstatus].
      done.
    + injection Hrest as <- <-.
      apply advanceExecution_None in Hadvance as (s2 & Hkill).
      destruct (killExecution_status _ _ _ _ _ _ Hkill Hrow) as [-> _]. set_solver.
  - eexists false, _. unfold bind. rewrite lookup_updateExecution.
    split; [reflexivity|]. simpl. intros row. rewrite lookup_alter_eq.
    destruct (executions s1 !! _); [|done]. intros [= <-]. simpl. eauto.
Qed.

(** X6.  The check made just before a command of a dynamic campaign: when the
    user no longer matches, the command is not executed (no email is sent,
    no wake-up time is set); the execution is terminated with the reason
    "User no longer matches campaign criteria" and the step counts as a
    success. *)
Theorem processExecution_dynamic_exit (now : Z) (state : ExecutionState.t)
    (s s1 : Store) (campaign : Campaign) (user : JSValue)
    (result : GeneratorResult) :
  advanceExecution evalFlow next segmentMatchesUser now state s
    = (Ok (Some (campaign, user, result)), s1) ->
  truthy (value result) = true ->
  behavior campaign = dynamic ->
  ~ matchesCampaign s1 (ExecutionState.userId state)
      (ExecutionState.campaignId state) ->
  processExecution evalFlow next evalSandboxedWithUser renderTemplate
    segmentMatchesUser deliver localTZA coercedPlus coercedTimes now state s
  = (Ok true,
     (killExecution (ExecutionState.userId state)
        (ExecutionState.campaignId state)
        "User no longer matches campaign criteria" s1).2).
Proof.
  intros Hadvance Hvalue Hdynamic Hexit.
  unfold processExecution, try_catch, bind at 1. rewrite Hadvance.
  unfold interpretResult. rewrite Hvalue, andb_false_r. simpl.
  rewrite Hdynamic. simpl. unfold bind at 1.
  destruct (evaluateUserCampaign_decides (ExecutionState.userId state)
              (ExecutionState.campaignId state) s1) as (b & -> & Hb).
  destruct b; [exfalso; apply Hexit, Hb; reflexivity|]. simpl.
  destruct (killExecution_returns (ExecutionState.userId state)
              (ExecutionState.campaignId state)
              "User no longer matches campaign criteria" s1) as (s2 & Hkill).
  unfold bind. rewrite Hkill. reflexivity.
Qed.


(** X8.  [SEND_EMAIL] for a user with an [email] attribute.  An unknown template
    fails with "template not found: <id>" and a missing provider with
    "No email provider configured", before anything is sent.  With both in
    place, the email built from the evaluated subject and the rendered body
    goes to the provider: if the provider accepts it, it is the one email
    sent and the row sleeps until [now]; if the provider refuses, its error
    is thrown and nothing is written. *)
Theorem handleExecutionCommand_send_email (now : Z) (templateId : string)
    (state : ExecutionState.t) (user to : JSValue) (s : Store) :
  get user "email" = Ok to ->
  let run :=
    handleExecutionCommand evalSandboxedWithUser renderTemplate deliver
      localTZA coercedPlus coercedTimes now (rt_sendEmail (JStr templateId))
      state user s in
  (templates s !! templateId = None ->
   run = (Throw ("template not found: " ++ templateId), s))
  ∧ (forall template processedSubject processedHtml,
       templates s !! templateId = Some template ->
       evalSandboxedWithUser (subject template) user = Ok processedSubject ->
       renderTemplate (html template) (preamble template) user
         = Ok processedHtml ->
       let email := {| to := to; emailSubject := processedSubject;
                       emailHtml := processedHtml |} in
       match emailProvider s with
       | None => run = (Throw "No email provider configured", s)
       | Some provider =>
           match deliver provider email with
           | Throw message => run = (Throw message, s)
           | Ok _ =>
               run = (Ok tt,
                      set_executions
                        (alter (fun row => {| status := sleeping;
                                              sleepUntil := now;
                                              error := error row |})
                           (ExecutionState.userId state,
                            ExecutionState.campaignId state)
                           (executions s))
                        (set_outbox (outbox s ++ [email]) s))
           end
       end).
Proof.
  intros Hto run. subst run.
  unfold handleExecutionCommand, rt_sendEmail. simpl.
  unfold bind at 1. unfold sendTemplateEmail, sendEmail, getEmailProvider,
    bind, lift, select, update, throw, ret. rewrite Hto. simpl. split.
  - intros ->. reflexivity.
  - intros template processedSubject processedHtml -> -> ->.
    destruct (emailProvider s) as [provider|]; [|reflexivity].
    destruct (deliver provider _) as [[]|message]; reflexivity.
Qed.

(** X9.  A set-up that succeeds has read the campaign and the user of the row,
    and written nothing.  The step index is 0 for a [pending] row and the
    number of history rows (at least one) for a [sleeping] one; there is
    exactly one attribute state for each of the advances [0 .. stepIndex],
    the last being the user's current attributes.  No other status sets
    up. *)
Theorem setupExecutionState_attributeStates (state : ExecutionState.t)
    (s s' : Store) (setup : ExecutionSetup) :
  setupExecutionState state s = (Ok setup, s') ->
  s' = s
  ∧ campaigns s !! ExecutionState.campaignId state = Some (setupCampaign setup)
  ∧ users s !! ExecutionState.userId state = Some (setupUser setup)
  ∧ length (setupAttributeStates setup) = Z.to_nat (setupStepIndex setup + 1)
  ∧ last (setupAttributeStates setup) = Some (setupUser setup)
  ∧ ((ExecutionState.status state = pending ∧ setupStepIndex setup = 0%Z)
     ∨ (ExecutionState.status state = sleeping
        ∧ (0 < setupStepIndex setup)%Z
        ∧ setupStepIndex setup
          = Z.of_nat (length (filter (fun h =>
                historyUserId h = ExecutionState.userId state
                ∧ historyCampaignId h = ExecutionState.campaignId state)
              (executionHistory s))))).
Proof.
  unfold setupExecutionState, bind, select, throw, ret. simpl.
  destruct (campaigns s !! _) as [campaign|]; [|done].
  destruct (users s !! _) as [user|]; [|done].
  destruct (ExecutionState.status state); try done.
  - intros [= <- <-]. simpl. split_and!; try done. by left.
  - match goal with
    | |- context [merge_sort byStepIndex ?l] =>
        assert (Hlen : length (merge_sort byStepIndex l) = length l)
          by (apply Permutation_length, merge_sort_Permutation);
        destruct (merge_sort byStepIndex l) as [|h history] eqn:Hsort; [done|]
    end.
    intros [= <- <-]. simpl in *. split_and!; try done.
    + rewrite length_app, length_fmap. simpl. lia.
    + rewrite app_comm_cons, last_snoc. reflexivity.
    + right. split_and!; [done|lia|]. rewrite <- Hlen. lia.
Qed.
End ExecutorSteps.

(** ** Campaign memberships: what [evaluateUserCampaigns] changes *)

Lemma foldM_invariant {A B : Type} (body : B -> A -> M B)
    (P : list A -> B -> Store -> Prop) (l : list A) :
  (forall seen x rest acc s, l = (seen ++ x :: rest)%list -> P seen acc s ->
     exists acc' s', body acc x s = (Ok acc', s') ∧ P (seen ++ [x])%list acc' s') ->
  forall acc s, P [] acc s ->
  exists acc' s', foldM body acc l s = (Ok acc', s') ∧ P l acc' s'.
Proof.
  intros Hstep.
  assert (Hgen : forall rest seen acc s, l = (seen ++ rest)%list -> P seen acc s ->
    exists acc' s', foldM body acc rest s = (Ok acc', s') ∧ P l acc' s').
  { induction rest as [|x rest IH]; intros seen acc s Hl HP.
    - rewrite app_nil_r in Hl. subst seen. exists acc, s. done.
    - destruct (Hstep seen x rest acc s Hl HP) as (acc1 & s1 & Hbody & HP1).
      destruct (IH (seen ++ [x])%list acc1 s1) as (acc2 & s2 & Hrest & HP2).
      { by rewrite <- app_assoc. }
      { done. }
      exists acc2, s2. split; [|done]. rewrite foldM_cons, Hbody. exact Hrest. }
  intros acc s HP. by apply (Hgen l [] acc s).
Qed.

(** One pass of the loop body, in full. *)
Lemma evaluateUserCampaignsBody_step (s0 s : Store) (userId id : string)
    (campaign : Campaign) (results : CampaignChanges) :
  sameSegments s s0 ->
  (isMember s userId id <-> isMember s0 userId id) ->
  let run :=
    evaluateUserCampaignsBody userId
      (list_to_set (snd <$> whereFirst userId (campaignUsers s0)))
      (list_to_set (snd <$> whereFirst userId (segmentUsers s0)))
      results (id, campaign) s in
  ((isMember s0 userId id <-> membershipAfter s0 userId id campaign)
   ∧ run = (Ok results, s))
  ∨ (~ isMember s0 userId id ∧ membershipAfter s0 userId id campaign
     ∧ run = (Ok {| added := added results ++ [id]; removed := removed results |},
              joinCampaign userId id s))
  ∨ (isMember s0 userId id ∧ ~ membershipAfter s0 userId id campaign
     ∧ run = (Ok {| added := added results; removed := removed results ++ [id] |},
              leaveCampaign userId id s)).
Proof.
  intros Hsame Hmem.
  assert (Hmatch := matchesCampaign_sameSegments s s0 userId id Hsame).
  destruct Hsame as (Hsu & Hcs & Hces).
  unfold evaluateUserCampaignsBody, bind, select, ret. simpl.
  rewrite <- Hsu.
  destruct (forallb _ _ && negb (existsb _ _)) eqn:Hsh;
    [apply shouldBeInCampaign_spec, Hmatch in Hsh
    |assert (~ matchesCampaign s0 userId id)
       by (intros Hm; apply Hmatch, shouldBeInCampaign_spec in Hm; congruence);
     clear Hsh];
    (destruct (bool_decide (id ∈ _)) eqn:Hin;
     [apply bool_decide_eq_true in Hin|apply bool_decide_eq_false in Hin];
     rewrite elem_of_snapshot in Hin);
    unfold membershipAfter; destruct (behavior campaign) eqn:Hb; simpl;
    unfold insertIgnoreCampaignUser, deleteCampaignUser, update, bind, ret;
    simpl; unfold isMember in *.
  - left. split; [tauto|done].
  - left. split; [tauto|done].
  - right. left. split_and!; [done|tauto|done].
  - right. left. split_and!; [done|tauto|done].
  - left. split; [tauto|done].
  - right. right. split_and!; [done|tauto|].
    rewrite bool_decide_eq_true_2 by tauto. reflexivity.
  - left. split; [tauto|done].
  - left. split; [tauto|done].
Qed.

Lemma filter_all {A : Type} (P : A -> Prop) `{forall x, Decision (P x)}
    (l : list A) :
  Forall P l -> filter P l = l.
Proof.
  induction 1 as [|x l Hx _ IH]; [reflexivity|].
  rewrite filter_cons_True by done. by rewrite IH.
Qed.

Lemma store_eta (s : Store) :
  s = set_campaignUsers (campaignUsers s)
        (set_executions (executions s)
           (set_executionHistory (executionHistory s) s)).
Proof. by destruct s. Qed.

Ltac same_frame H :=
  unfold joinCampaign, leaveCampaign, set_campaignUsers, set_executions,
    set_executionHistory; simpl; f_equal; rewrite H; reflexivity.

Lemma membershipsChanged_refl (s0 : Store) : membershipsChanged s0 s0.
Proof.
  split_and!.
  - apply store_eta.
  - intros key. destruct (decide _) as [[]|]; done.
  - symmetry. apply filter_all, Forall_forall. intros h _ []. done.
Qed.

Lemma membershipsChanged_sameSegments (s0 s : Store) :
  membershipsChanged s0 s -> sameSegments s s0 ∧ campaigns s = campaigns s0.
Proof.
  intros (Hframe & _). rewrite Hframe. done.
Qed.

Lemma membershipsChanged_join (s0 s : Store) (userId id : string) :
  membershipsChanged s0 s -> (userId, id) ∉ campaignUsers s0 ->
  membershipsChanged s0 (joinCampaign userId id s).
Proof.
  intros (Hframe & Hexecutions & Hhistory) Hnew.
  assert (Hended : forall key,
    membershipEnded s0 (joinCampaign userId id s) key <-> membershipEnded s0 s key).
  { intros key. unfold membershipEnded, joinCampaign. simpl. set_solver. }
  split_and!.
  - same_frame Hframe.
  - intros key. simpl. rewrite Hexecutions.
    symmetry. apply decide_ext, Hended.
  - simpl. rewrite Hhistory. apply list_filter_iff. intros h.
    by rewrite Hended.
Qed.

Lemma membershipsChanged_leave (s0 s : Store) (userId id : string) :
  membershipsChanged s0 s -> (userId, id) ∈ campaignUsers s0 ->
  membershipsChanged s0 (leaveCampaign userId id s).
Proof.
  intros (Hframe & Hexecutions & Hhistory) Hold.
  assert (Hended : forall key,
    membershipEnded s0 (leaveCampaign userId id s) key
    <-> membershipEnded s0 s key ∨ key = (userId, id)).
  { intros key. unfold membershipEnded, leaveCampaign. simpl.
    destruct (decide (key = (userId, id))) as [->|]; set_solver. }
  split_and!.
  - same_frame Hframe.
  - intros key. simpl.
    destruct (decide (key = (userId, id))) as [->|Hne].
    + rewrite lookup_delete_eq.
      destruct (decide _) as [|Hnot]; [done|]. exfalso. apply Hnot, Hended. by right.
    + rewrite lookup_delete_ne by done. rewrite Hexecutions.
      symmetry. apply decide_ext. rewrite Hended. tauto.
  - simpl. rewrite Hhistory, list_filter_filter. apply list_filter_iff.
    intros h. rewrite Hended. split.
    + intros [Hthis Hnot] [|[= ? ?]]; tauto.
    + intros Hnot. split; [|tauto]. intros [? ?]. apply Hnot. right. by f_equal.
Qed.

Lemma campaignsEvaluated_step (s0 : Store) (userId : string)
    (rows seen rest : list (string * Campaign)) (id : string)
    (campaign : Campaign) (results : CampaignChanges) (s : Store) :
  NoDup rows.*1 ->
  rows = (seen ++ (id, campaign) :: rest)%list ->
  campaignsEvaluated s0 userId seen results s ->
  exists results' s',
    evaluateUserCampaignsBody userId
      (list_to_set (snd <$> whereFirst userId (campaignUsers s0)))
      (list_to_set (snd <$> whereFirst userId (segmentUsers s0)))
      results (id, campaign) s = (Ok results', s')
    ∧ campaignsEvaluated s0 userId (seen ++ [(id, campaign)])%list results' s'.
Proof.
  intros Hnodup -> (Hchanged & Hdone & Hframe & Hreport & Hidle).
  rewrite fmap_app, fmap_cons in Hnodup. simpl in Hnodup.
  apply NoDup_app in Hnodup as (_ & Hfresh & _).
  assert (Hid : id ∉ seen.*1).
  { intros Hin. apply (Hfresh id Hin). left. }
  clear Hfresh.
  destruct (membershipsChanged_sameSegments _ _ Hchanged) as [Hsame _].
  assert (Hmem : isMember s userId id <-> isMember s0 userId id).
  { apply Hframe. intros id' Hid' [= ->]. done. }
  destruct Hreport as (Hadded & Hremoved & Hnodup_added & Hnodup_removed).
  assert (Hids : forall c, c ∈ ((seen ++ [(id, campaign)])%list).*1 <-> c ∈ seen.*1 ∨ c = id).
  { intros c. rewrite fmap_app, elem_of_app. simpl. set_solver. }
  assert (Hrows : forall id' campaign',
    (id', campaign') ∈ (seen ++ [(id, campaign)])%list
    <-> (id', campaign') ∈ seen ∨ (id' = id ∧ campaign' = campaign)).
  { intros id' campaign'. rewrite elem_of_app, list_elem_of_singleton.
    split; (intros [?|?]; [by left|right]); [by simplify_eq|by destruct_and!; subst]. }
  assert (Hin_done : forall id' campaign', (id', campaign') ∈ seen -> id' ≠ id).
  { intros id' campaign' Hin ->. apply Hid, list_elem_of_fmap.
    by exists (id, campaign'). }
  destruct (evaluateUserCampaignsBody_step s0 s userId id campaign results Hsame Hmem)
    as [[Hsettled ->]|[(Hout & Hafter & ->)|(Hin & Hafter & ->)]].
  - (* nothing to do *)
    exists results, s. split; [done|]. split_and!.
    + done.
    + intros id' campaign' [Hold|[-> ->]]%Hrows; [by apply Hdone|tauto].
    + intros p Hp. apply Hframe. intros id' Hid'. apply Hp, Hids. by left.
    + split_and!; [| |done|done].
      * intros c. rewrite Hadded, Hids. split; [tauto|].
        intros ([?| ->] & ? & ?); [tauto|tauto].
      * intros c. rewrite Hremoved, Hids. split; [tauto|].
        intros ([?| ->] & ? & ?); [tauto|tauto].
    + intros Hall. apply Hidle. intros id' campaign' Hold.
      apply Hall, Hrows. by left.
  - (* the user joins *)
    eexists _, _. split; [reflexivity|].
    assert (Hother : forall c, c ≠ id ->
      isMember (joinCampaign userId id s) userId c <-> isMember s userId c).
    { intros c Hc. unfold isMember, joinCampaign. simpl. set_solver. }
    assert (Hthis : isMember (joinCampaign userId id s) userId id).
    { unfold isMember, joinCampaign. simpl. set_solver. }
    split_and!.
    + by apply membershipsChanged_join.
    + intros id' campaign' [Hold|[-> ->]]%Hrows; [|tauto].
      rewrite Hother by eauto. by apply Hdone.
    + intros p Hp. unfold joinCampaign. simpl.
      assert (p ≠ (userId, id)) by (apply Hp, Hids; by right).
      rewrite <- Hframe; [set_solver|].
      intros id' Hid'. apply Hp, Hids. by left.
    + split_and!; simpl.
      * intros c. rewrite elem_of_app, list_elem_of_singleton, Hadded, Hids.
        destruct (decide (c = id)) as [->|Hc]; [tauto|].
        rewrite Hother by done. tauto.
      * intros c. rewrite Hremoved, Hids.
        destruct (decide (c = id)) as [->|Hc]; [tauto|].
        rewrite Hother by done. tauto.
      * apply NoDup_app. split_and!; [done| |apply NoDup_singleton].
        intros c Hc ->%list_elem_of_singleton. apply Hadded in Hc. tauto.
      * done.
    + intros Hall. exfalso. apply Hout, (Hall id campaign); [|done].
      apply Hrows. by right.
  - (* the user leaves *)
    eexists _, _. split; [reflexivity|].
    assert (Hother : forall c, c ≠ id ->
      isMember (leaveCampaign userId id s) userId c <-> isMember s userId c).
    { intros c Hc. unfold isMember, leaveCampaign. simpl. set_solver. }
    assert (Hthis : ~ isMember (leaveCampaign userId id s) userId id).
    { unfold isMember, leaveCampaign. simpl. set_solver. }
    split_and!.
    + by apply membershipsChanged_leave.
    + intros id' campaign' [Hold|[-> ->]]%Hrows; [|tauto].
      rewrite Hother by eauto. by apply Hdone.
    + intros p Hp. unfold leaveCampaign. simpl.
      assert (p ≠ (userId, id)) by (apply Hp, Hids; by right).
      rewrite <- Hframe; [set_solver|].
      intros id' Hid'. apply Hp, Hids. by left.
    + split_and!; simpl.
      * intros c. rewrite Hadded, Hids.
        destruct (decide (c = id)) as [->|Hc]; [tauto|].
        rewrite Hother by done. tauto.
      * intros c. rewrite elem_of_app, list_elem_of_singleton, Hremoved, Hids.
        destruct (decide (c = id)) as [->|Hc]; [tauto|].
        rewrite Hother by done. tauto.
      * done.
      * apply NoDup_app. split_and!; [done| |apply NoDup_singleton].
        intros c Hc ->%list_elem_of_singleton. apply Hremoved in Hc. tauto.
    + intros Hall. exfalso. apply Hafter, (Hall id campaign); [|done].
      apply Hrows. by right.
Qed.

Lemma evaluateUserCampaigns_evaluated (userId : string) (s0 : Store) :
  exists results s',
    evaluateUserCampaigns userId s0 = (Ok results, s')
    ∧ campaignsEvaluated s0 userId (map_to_list (campaigns s0)) results s'.
Proof.
  unfold evaluateUserCampaigns, bind, select.
  apply (foldM_invariant _ (campaignsEvaluated s0 userId)).
  - intros seen [id campaign] rest results s Hrows.
    eapply campaignsEvaluated_step; [|exact Hrows]. apply NoDup_fst_map_to_list.
  - split_and!.
    + apply membershipsChanged_refl.
    + intros id campaign []%elem_of_nil.
    + done.
    + split_and!.
      * intros c. simpl. split; [intros []%elem_of_nil|intros ([]%elem_of_nil & _)].
      * intros c. simpl. split; [intros []%elem_of_nil|intros ([]%elem_of_nil & _)].
      * apply NoDup_nil_2.
      * apply NoDup_nil_2.
    + done.
Qed.

(** X10.  The lists [evaluateUserCampaigns] returns are the changes it made:
    [added] holds, once each, the campaigns the user was not a member of
    and now is, [removed] those the user was a member of and no longer is.
    The memberships of every other user are left alone. *)
Theorem evaluateUserCampaigns_reports (userId : string) (s : Store) :
  exists results s',
    evaluateUserCampaigns userId s = (Ok results, s')
    ∧ (forall c, c ∈ added results
         <-> ~ isMember s userId c ∧ isMember s' userId c)
    ∧ (forall c, c ∈ removed results
         <-> isMember s userId c ∧ ~ isMember s' userId c)
    ∧ NoDup (added results) ∧ NoDup (removed results)
    ∧ (forall userId' c, userId' ≠ userId ->
         isMember s' userId' c <-> isMember s userId' c).
Proof.
  destruct (evaluateUserCampaigns_evaluated userId s)
    as (results & s' & Hrun & _ & _ & Hframe & Hreport & _).
  destruct Hreport as (Hadded & Hremoved & Hnodup_added & Hnodup_removed).
  exists results, s'.
  assert (Hkept : forall c, c ∉ (map_to_list (campaigns s)).*1 ->
    isMember s' userId c <-> isMember s userId c).
  { intros c Hc. apply Hframe. intros id Hid [= ->]. done. }
  split_and!; [done| | |done|done|].
  - intros c. rewrite Hadded. split; [tauto|]. intros [Hout Hin].
    split_and!; [|done|done].
    destruct (decide (c ∈ (map_to_list (campaigns s)).*1)) as [|Hc]; [done|].
    apply Hkept in Hc. tauto.
  - intros c. rewrite Hremoved. split; [tauto|]. intros [Hin Hout].
    split_and!; [|done|done].
    destruct (decide (c ∈ (map_to_list (campaigns s)).*1)) as [|Hc]; [done|].
    apply Hkept in Hc. tauto.
  - intros userId' c Hne. apply Hframe. intros id _ [= ? ?]. done.
Qed.

(** X11.  Evaluating a second time changes nothing: run on the store it has just
    produced, [evaluateUserCampaigns] reports no change and leaves that
    store as it is. *)
Theorem evaluateUserCampaigns_idempotent (userId : string) (s s' : Store)
    (results : CampaignChanges) :
  evaluateUserCampaigns userId s = (Ok results, s') ->
  evaluateUserCampaigns userId s' = (Ok {| added := []; removed := [] |}, s').
Proof.
  intros Hrun.
  destruct (evaluateUserCampaigns_evaluated userId s)
    as (results1 & s1 & Hrun1 & Hchanged & Hdone & _).
  rewrite Hrun in Hrun1. injection Hrun1 as <- <-.
  destruct (membershipsChanged_sameSegments _ _ Hchanged) as [Hsame Hcampaigns].
  destruct (evaluateUserCampaigns_evaluated userId s')
    as (results2 & s2 & Hrun2 & _ & _ & _ & _ & Hidle).
  destruct Hidle as [-> ->]; [|exact Hrun2].
  intros id campaign Hin. rewrite Hcampaigns in Hin.
  specialize (Hdone id campaign Hin).
  assert (Hmatch := matchesCampaign_sameSegments s' s userId id Hsame).
  unfold membershipAfter in *. destruct (behavior campaign); tauto.
Qed.

Lemma membershipsChanged_executionsHaveMembership (s s' : Store) :
  membershipsChanged s s' ->
  executionsHaveMembership s -> executionsHaveMembership s'.
Proof.
  intros (_ & Hexecutions & _) Hfk key. rewrite Hexecutions.
  destruct (decide (membershipEnded s s' key)) as [|Hkept].
  - by intros [? [=]].
  - intros Hrow. specialize (Hfk key Hrow).
    destruct (decide (key ∈ campaignUsers s')); [done|].
    exfalso. apply Hkept. by split.
Qed.

(** X12.  [evaluateUserCampaigns] writes the memberships and nothing else of its
    own; through the cascading foreign keys, the execution row and the
    history rows of a membership disappear exactly when that membership is
    removed.  Every other table, and every other execution and history
    row, is as before.  A campaign reported as removed therefore has no
    execution row left, and if every execution row had a membership
    before, this still holds afterwards. *)
Theorem evaluateUserCampaigns_cascade (userId : string) (s s' : Store)
    (results : CampaignChanges) :
  evaluateUserCampaigns userId s = (Ok results, s') ->
  membershipsChanged s s'
  ∧ (forall c, c ∈ removed results -> executions s' !! (userId, c) = None)
  ∧ (executionsHaveMembership s -> executionsHaveMembership s').
Proof.
  intros Hrun.
  destruct (evaluateUserCampaigns_evaluated userId s)
    as (results1 & s1 & Hrun1 & Hchanged & _ & _ & Hreport & _).
  rewrite Hrun in Hrun1. injection Hrun1 as <- <-.
  destruct Hreport as (_ & Hremoved & _).
  split_and!; [done| |by apply membershipsChanged_executionsHaveMembership].
  destruct Hchanged as (Hframe & Hexecutions & Hhistory).
  intros c (_ & Hin & Hout)%Hremoved. rewrite Hexecutions.
  rewrite decide_True; [done|]. by split.
Qed.

(** ** After a change of attributes:
       [reevaluateUserMembershipsAfterAttributeChange] *)

Lemma createExecution_new (now : Z) (userId campaignId : string) (s : Store) :
  is_Some (campaigns s !! campaignId) ->
  (userId, campaignId) ∈ campaignUsers s ->
  executions s !! (userId, campaignId) = None ->
  createExecution now userId campaignId s
  = (Ok tt,
     set_executions
       (<[(userId, campaignId) := pendingExecution now]> (executions s)) s).
Proof.
  intros [campaign Hcampaign] Hmember Hrow.
  unfold createExecution, bind, select, update. simpl.
  rewrite Hcampaign. simpl. rewrite bool_decide_eq_true_2 by done. simpl.
  rewrite Hrow. reflexivity.
Qed.

Lemma forEach_createExecution (now : Z) (userId : string) (ids : list string) :
  NoDup ids ->
  forall s,
  (forall c, c ∈ ids ->
     is_Some (campaigns s !! c) ∧ (userId, c) ∈ campaignUsers s
     ∧ executions s !! (userId, c) = None) ->
  exists s',
    forEach ids (fun campaignId => createExecution now userId campaignId) s
    = (Ok tt, s')
    ∧ s' = set_executions (executions s') s
    ∧ forall key,
        executions s' !! key
        = if decide (key.1 = userId ∧ key.2 ∈ ids)
          then Some (pendingExecution now) else executions s !! key.
Proof.
  induction 1 as [|c ids Hfresh Hnodup IH]; intros s Hids.
  - exists s. split_and!; [done|by destruct s|].
    intros key. rewrite decide_False; [done|]. intros [_ []%elem_of_nil].
  - destruct (Hids c) as (Hcampaign & Hmember & Hrow); [left|].
    destruct (IH (set_executions
                    (<[(userId, c) := pendingExecution now]> (executions s)) s))
      as (s' & Hrun & Hframe & Hrows).
    { intros c' Hc'.
      destruct (Hids c') as (Hcampaign' & Hmember' & Hrow'); [by right|].
      split_and!; [done|done|]. simpl. rewrite lookup_insert_ne; [done|].
      intros [= ->]. done. }
    exists s'. split_and!.
    + unfold forEach. rewrite foldM_cons, createExecution_new by done.
      exact Hrun.
    + rewrite Hframe at 1. by destruct s.
    + intros key. rewrite Hrows. simpl.
      destruct (decide (key = (userId, c))) as [->|Hne].
      * simpl. rewrite lookup_insert_eq.
        rewrite (decide_True (P := userId = userId ∧ c ∈ c :: ids))
          by (split; [done|left]).
        by destruct (decide _).
      * rewrite lookup_insert_ne by done. apply decide_ext.
        destruct key as [u c']. simpl. rewrite elem_of_cons.
        split; [tauto|]. intros [-> [->|?]]; [done|tauto].
Qed.

Lemma forEach_killExecution_absent (userId reason : string)
    (rows : list (string * Campaign)) (s : Store) :
  (forall row, row ∈ rows -> executions s !! (userId, row.1) = None) ->
  forEach rows (fun campaign => killExecution userId campaign.1 reason) s
  = (Ok tt, s).
Proof.
  induction rows as [|row rows IH]; intros Hrows; [reflexivity|].
  unfold forEach. rewrite foldM_cons.
  unfold killExecution at 1, bind, select. simpl.
  rewrite (Hrows row) by left. simpl.
  apply IH. intros row' Hrow'. apply Hrows. by right.
Qed.

Section Reevaluation.
Variable segmentMatchesUser : Store -> string -> string -> outcome bool.

Lemma set_segmentUsers_frame (s0 s : Store) (v : gset (string * string)) :
  s = set_segmentUsers (segmentUsers s) s0 ->
  set_segmentUsers v s = set_segmentUsers v s0.
Proof.
  intros Hframe. unfold set_segmentUsers. f_equal; rewrite Hframe; reflexivity.
Qed.

(** When the SQL engine evaluates every segment for the user without an
    error, both ways of reevaluating segments return, and they write the
    table of segment memberships only. *)
Lemma evaluateUserSegments_returns (userId : string) (s : Store) :
  (forall s evaluator, exists isMatch,
     segmentMatchesUser s evaluator userId = Ok isMatch) ->
  exists results s',
    evaluateUserSegments segmentMatchesUser userId s = (Ok results, s')
    ∧ s' = set_segmentUsers (segmentUsers s') s.
Proof.
  intros Hsql. unfold evaluateUserSegments, bind, select.
  apply (foldM_invariant _ (fun _ _ s' => s' = set_segmentUsers (segmentUsers s') s));
    [|by destruct s].
  intros _ [id evaluator] _ results s1 _ Hframe. unfold bind.
  destruct (Hsql s1 evaluator) as [isMatch ->].
  destruct (negb _); [|by eauto].
  destruct isMatch; eexists _, _; (split; [reflexivity|]); simpl;
    by apply set_segmentUsers_frame.
Qed.

Lemma evaluateUserSegmentsAfterEvent_returns (userId eventName : string)
    (s : Store) :
  (forall s evaluator, exists isMatch,
     segmentMatchesUser s evaluator userId = Ok isMatch) ->
  exists results s',
    evaluateUserSegmentsAfterEvent segmentMatchesUser userId eventName s
    = (Ok results, s')
    ∧ s' = set_segmentUsers (segmentUsers s') s.
Proof.
  intros Hsql. unfold evaluateUserSegmentsAfterEvent, bind at 1, select at 1.
  apply (foldM_invariant _ (fun _ _ s' => s' = set_segmentUsers (segmentUsers s') s));
    [|by destruct s].
  intros _ [segmentId name] _ results s1 _ Hframe. unfold bind, select. simpl.
  destruct (segments s1 !! segmentId) as [evaluator|]; [|by eauto].
  destruct (Hsql s1 evaluator) as [isMatch ->].
  destruct (negb _); [|by eauto].
  destruct isMatch; eexists _, _; (split; [reflexivity|]); simpl;
    by apply set_segmentUsers_frame.
Qed.

(** The whole of [reevaluateUserMembershipsAfterAttributeChange], for a
    store in which every execution row has a membership. *)
Lemma reevaluate_run (now : Z) (userId reason : string) (event : option string)
    (s : Store) :
  (forall s evaluator, exists isMatch,
     segmentMatchesUser s evaluator userId = Ok isMatch) ->
  executionsHaveMembership s ->
  exists segmentUpdates campaignUpdates s1 s2 s3,
    s1 = set_segmentUsers (segmentUsers s1) s
    ∧ evaluateUserCampaigns userId s1 = (Ok campaignUpdates, s2)
    ∧ reevaluateUserMembershipsAfterAttributeChange segmentMatchesUser now
        userId reason event s
      = (Ok (segmentUpdates, campaignUpdates), s3)
    ∧ s3 = set_executions (executions s3) s2
    ∧ forall key,
        executions s3 !! key
        = if decide (key.1 = userId ∧ key.2 ∈ added campaignUpdates)
          then Some (pendingExecution now) else executions s2 !! key.
Proof.
  intros Hsql Hfk.
  assert (Hsegments : exists segmentUpdates s1,
    match event with
    | Some name => evaluateUserSegmentsAfterEvent segmentMatchesUser userId name
    | None => evaluateUserSegments segmentMatchesUser userId
    end s = (Ok segmentUpdates, s1)
    ∧ s1 = set_segmentUsers (segmentUsers s1) s).
  { destruct event as [name|].
    - by apply evaluateUserSegmentsAfterEvent_returns.
    - by apply evaluateUserSegments_returns. }
  destruct Hsegments as (segmentUpdates & s1 & Hsegments & Hframe1).
  assert (Hfk1 : executionsHaveMembership s1).
  { rewrite Hframe1. exact Hfk. }
  destruct (evaluateUserCampaigns_evaluated userId s1)
    as (campaignUpdates & s2 & Hcampaigns & Hchanged & _ & Hkept & Hreport & _).
  destruct Hreport as (Hadded & Hremoved & Hnodup & _).
  destruct (membershipsChanged_sameSegments _ _ Hchanged) as [_ Hsame].
  destruct Hchanged as (_ & Hexecutions & _).
  destruct (forEach_createExecution now userId (added campaignUpdates) Hnodup s2)
    as (s3 & Hcreate & Hframe3 & Hrows).
  { intros c (Hc & Hout & Hin)%Hadded. split.
    - rewrite Hsame. apply list_elem_of_fmap in Hc as ([id campaign] & -> & Hrow).
      apply elem_of_map_to_list in Hrow. by eexists.
    - rewrite Hexecutions. destruct (decide _); [done|].
      destruct (executions s1 !! (userId, c)) as [row|] eqn:Hrow; [|done].
      exfalso. apply Hout, Hfk1. by eexists. }
  exists segmentUpdates, campaignUpdates, s1, s2, s3.
  split_and!; [done|done| |done|done].
  unfold reevaluateUserMembershipsAfterAttributeChange.
  unfold bind at 1. rewrite Hsegments.
  unfold bind at 1. rewrite Hcampaigns.
  unfold bind at 1. rewrite Hcreate.
  unfold bind at 1, select at 1.
  unfold bind at 1. rewrite forEach_killExecution_absent; [reflexivity|].
  intros [id campaign] [[Hid _] _]%list_elem_of_filter. simpl in *.
  apply Hremoved in Hid as (_ & Hin & Hout).
  rewrite Hrows. rewrite decide_False.
  - rewrite Hexecutions. rewrite decide_True; [done|]. by split.
  - simpl. intros [_ (_ & Hnot & _)%Hadded]. done.
Qed.

(** X13.  New memberships start an execution.  In a store where every execution
    row has a membership, and with an SQL engine that evaluates the
    segments without error, the reevaluation returns; every campaign it
    reports as added has the user as a member and a [pending] execution
    due at once; and every execution row still has a membership. *)
Theorem reevaluateUserMemberships_starts_executions (now : Z)
    (userId reason : string) (event : option string) (s : Store) :
  (forall s evaluator, exists isMatch,
     segmentMatchesUser s evaluator userId = Ok isMatch) ->
  executionsHaveMembership s ->
  exists segmentUpdates campaignUpdates s',
    reevaluateUserMembershipsAfterAttributeChange segmentMatchesUser now
      userId reason event s
    = (Ok (segmentUpdates, campaignUpdates), s')
    ∧ (forall c, c ∈ added campaignUpdates ->
         isMember s' userId c
         ∧ executions s' !! (userId, c) = Some (pendingExecution now))
    ∧ executionsHaveMembership s'.
Proof.
  intros Hsql Hfk.
  destruct (reevaluate_run now userId reason event s Hsql Hfk)
    as (segmentUpdates & campaignUpdates & s1 & s2 & s3
        & Hframe1 & Hcampaigns & Hrun & Hframe3 & Hrows).
  destruct (evaluateUserCampaigns_evaluated userId s1)
    as (results & s2' & Hcampaigns' & Hchanged & _ & _ & Hreport & _).
  rewrite Hcampaigns in Hcampaigns'. injection Hcampaigns' as <- <-.
  destruct Hreport as (Hadded & _).
  assert (Hmembers : campaignUsers s3 = campaignUsers s2)
    by (rewrite Hframe3; reflexivity).
  exists segmentUpdates, campaignUpdates, s3. split_and!; [done| |].
  - intros c Hc. split.
    + unfold isMember. rewrite Hmembers. apply Hadded in Hc. tauto.
    + rewrite Hrows. by rewrite decide_True.
  - assert (Hfk2 : executionsHaveMembership s2).
    { apply (membershipsChanged_executionsHaveMembership s1); [done|].
      rewrite Hframe1. exact Hfk. }
    intros key. rewrite Hrows, Hmembers.
    destruct (decide _) as [[Hu Hc]|]; [|apply Hfk2].
    intros _. apply Hadded in Hc as (_ & _ & Hin).
    destruct key; simpl in *; by subst.
Qed.

(** X14.  Lost memberships lose their execution.  Under the same conditions,
    every campaign reported as removed has neither a membership, nor an
    execution row, nor a history row left for the user: the rows went with
    the membership, so that the [reason] handed to [killExecution] is
    stored nowhere. *)
Theorem reevaluateUserMemberships_drops_executions (now : Z)
    (userId reason : string) (event : option string) (s : Store) :
  (forall s evaluator, exists isMatch,
     segmentMatchesUser s evaluator userId = Ok isMatch) ->
  executionsHaveMembership s ->
  exists segmentUpdates campaignUpdates s',
    reevaluateUserMembershipsAfterAttributeChange segmentMatchesUser now
      userId reason event s
    = (Ok (segmentUpdates, campaignUpdates), s')
    ∧ forall c, c ∈ removed campaignUpdates ->
        ~ isMember s' userId c
        ∧ executions s' !! (userId, c) = None
        ∧ forall h, h ∈ executionHistory s' ->
            ~ (historyUserId h = userId ∧ historyCampaignId h = c).
Proof.
  intros Hsql Hfk.
  destruct (reevaluate_run now userId reason event s Hsql Hfk)
    as (segmentUpdates & campaignUpdates & s1 & s2 & s3
        & Hframe1 & Hcampaigns & Hrun & Hframe3 & Hrows).
  destruct (evaluateUserCampaigns_evaluated userId s1)
    as (results & s2' & Hcampaigns' & Hchanged & _ & _ & Hreport & _).
  rewrite Hcampaigns in Hcampaigns'. injection Hcampaigns' as <- <-.
  destruct Hreport as (Hadded & Hremoved & _).
  destruct Hchanged as (_ & Hexecutions & Hhistory).
  assert (Hmembers : campaignUsers s3 = campaignUsers s2)
    by (rewrite Hframe3; reflexivity).
  assert (Hhistory3 : executionHistory s3 = executionHistory s2)
    by (rewrite Hframe3; reflexivity).
  exists segmentUpdates, campaignUpdates, s3. split; [done|].
  intros c (_ & Hin & Hout)%Hremoved. split_and!.
  - unfold isMember. by rewrite Hmembers.
  - rewrite Hrows, decide_False.
    + rewrite Hexecutions, decide_True; [done|]. by split.
    + simpl. intros [_ (_ & Hnot & _)%Hadded]. done.
  - intros h. rewrite Hhistory3, Hhistory, list_elem_of_filter.
    intros [Hkept _] [<- <-]. apply Hkept. by split.
Qed.
End Reevaluation.

(** ** The executor: attributes written back by a step *)

Lemma foldM_preserves {A B : Type} (body : B -> A -> M B) (R : Store -> Prop)
    (l : list A) :
  (forall acc x s o s', R s -> body acc x s = (o, s') -> R s') ->
  forall acc s o s', R s -> foldM body acc l s = (o, s') -> R s'.
Proof.
  intros Hbody. induction l as [|x l IH]; intros acc s o s' HR Hrun.
  - injection Hrun as <- <-. done.
  - rewrite foldM_cons in Hrun.
    destruct (body acc x s) as [[acc1|e] s1] eqn:Hstep.
    + eapply IH; [|exact Hrun]. eapply Hbody; [exact HR|exact Hstep].
    + injection Hrun as <- <-. eapply Hbody; [exact HR|exact Hstep].
Qed.

Lemma bind_preserves {A B : Type} (R : Store -> Prop) (m : M A) (k : A -> M B)
    (s s' : Store) (o : outcome B) :
  (forall o1 s1, m s = (o1, s1) -> R s1) ->
  (forall a s1 o2 s2, R s1 -> k a s1 = (o2, s2) -> R s2) ->
  bind m k s = (o, s') -> R s'.
Proof.
  intros Hm Hk. unfold bind. destruct (m s) as [[a|e] s1] eqn:Hrun.
  - intros Hrest. eapply Hk; [|exact Hrest]. eapply Hm. reflexivity.
  - intros [= <- <-]. eapply Hm. reflexivity.
Qed.

Lemma killExecution_users (userId campaignId reason : string) (s s' : Store)
    (o : outcome unit) :
  killExecution userId campaignId reason s = (o, s') -> users s' = users s.
Proof.
  unfold killExecution, updateExecution, bind, select, update, ret. simpl.
  destruct (executions s !! _); intros [= <- <-]; reflexivity.
Qed.

Lemma createExecution_users (now : Z) (userId campaignId : string)
    (s s' : Store) (o : outcome unit) :
  createExecution now userId campaignId s = (o, s') -> users s' = users s.
Proof.
  unfold createExecution, bind, select, update, throw. simpl.
  destruct (campaigns s !! _); [|by intros [= <- <-]].
  destruct (bool_decide _); simpl; [|by intros [= <- <-]].
  destruct (executions s !! _); intros [= <- <-]; reflexivity.
Qed.

Section WriteBack.
Context {Gen : Type}.
Variable evalFlow : string -> outcome Gen.
Variable next : Gen -> JSValue -> @IterResult Gen.
Variable segmentMatchesUser : Store -> string -> string -> outcome bool.

Lemma evaluateUserSegments_users (userId : string) (s s' : Store)
    (o : outcome CampaignChanges) :
  evaluateUserSegments segmentMatchesUser userId s = (o, s') ->
  users s' = users s.
Proof.
  unfold evaluateUserSegments, bind, select.
  apply (foldM_preserves _ (fun s' => users s' = users s)); [|done].
  intros results [id evaluator] s1 o1 s2 Hsame. unfold bind.
  destruct (segmentMatchesUser s1 evaluator userId) as [isMatch|e];
    [|by intros [= <- <-]].
  destruct (negb _); [|by intros [= <- <-]].
  destruct isMatch; intros [= <- <-]; exact Hsame.
Qed.

Lemma reevaluate_users (now : Z) (userId reason : string) (s s' : Store)
    (o : outcome (CampaignChanges * CampaignChanges)) :
  reevaluateUserMembershipsAfterAttributeChange segmentMatchesUser now
    userId reason None s = (o, s') ->
  users s' = users s.
Proof.
  unfold reevaluateUserMembershipsAfterAttributeChange.
  apply (bind_preserves (fun s' => users s' = users s)).
  { intros o1 s1. apply evaluateUserSegments_users. }
  intros segmentUpdates s1 o2 s2 H1.
  apply (bind_preserves (fun s' => users s' = users s)).
  { intros o3 s3 Hrun.
    destruct (evaluateUserCampaigns_evaluated userId s1)
      as (results & s3' & Hrun' & ((Hframe & _) & _)).
    rewrite Hrun in Hrun'. injection Hrun' as -> ->.
    rewrite Hframe. exact H1. }
  intros campaignUpdates s3 o4 s4 H3.
  apply (bind_preserves (fun s' => users s' = users s)).
  { intros o5 s5. unfold forEach.
    apply (foldM_preserves _ (fun s' => users s' = users s)); [|done].
    intros [] campaignId s6 o6 s7 H6 Hrun.
    apply createExecution_users in Hrun. congruence. }
  intros [] s5 o6 s6 H5.
  apply (bind_preserves (fun s' => users s' = users s)).
  { by intros o7 s7 [= <- <-]. }
  intros dynamicCampaigns s7 o8 s8 H7.
  apply (bind_preserves (fun s' => users s' = users s)).
  { intros o9 s9. unfold forEach.
    apply (foldM_preserves _ (fun s' => users s' = users s)); [|done].
    intros [] campaign s10 o10 s11 H10 Hrun.
    apply killExecution_users in Hrun. congruence. }
  intros [] s9 o10 s10 H9 [= <- <-]. exact H9.
Qed.

(** X15.  What a step does to the users table.  When the step reaches the
    interpretation of the sandbox result, the user it loaded is the stored
    one; if the attributes read back from [ctx.attributes] are deep-equal
    to the loaded ones the users table is untouched, otherwise they
    replace the attributes of this user and of no other. *)
Theorem advanceExecution_writes_back (now : Z) (state : ExecutionState.t)
    (s s1 : Store) (campaign : Campaign) (user : JSValue)
    (result : GeneratorResult) :
  advanceExecution evalFlow next segmentMatchesUser now state s
    = (Ok (Some (campaign, user, result)), s1) ->
  users s !! ExecutionState.userId state = Some user
  ∧ users s1
    = if equal (attributes result) user then users s
      else <[ExecutionState.userId state := attributes result]> (users s).
Proof.
  unfold advanceExecution. intros Hrun.
  apply bind_Ok in Hrun as (setup & s0 & Hsetup & Hrun).
  assert (Hloaded : s0 = s
    ∧ users s !! ExecutionState.userId state = Some (setupUser setup)).
  { revert Hsetup.
    unfold setupExecutionState, bind, select, throw, ret. simpl.
    destruct (campaigns s !! _) as [campaign0|]; [|done].
    destruct (users s !! _) as [user0|]; [|done].
    destruct (ExecutionState.status state); try done.
    - by intros [= <- <-].
    - destruct (_ =? _)%nat; [done|]. by intros [= <- <-]. }
  destruct Hloaded as [-> Huser].
  apply bind_Ok in Hrun as (stillMatches & s2 & Hcheck & Hrun).
  assert (Hs2 : s2 = s).
  { destruct (_ && _); [|by injection Hcheck].
    destruct (evaluateUserCampaign_decides (ExecutionState.userId state)
                (ExecutionState.campaignId state) s) as (b & Hb & _).
    rewrite Hb in Hcheck. by injection Hcheck. }
  subst s2. destruct stillMatches; simpl in Hrun.
  2:{ apply bind_Ok in Hrun as (? & ? & _ & Hrun). done. }
  apply bind_Ok in Hrun as ([] & s3 & Hhistory & Hrun).
  assert (Hs3 : users s3 = users s).
  { revert Hhistory.
    unfold insertExecutionHistory, bind, select, update, throw. simpl.
    destruct (filter _ _); [|done]. by intros [= <-]. }
  apply bind_Ok in Hrun as (result0 & s4 & Hsandbox & Hrun).
  unfold lift in Hsandbox. injection Hsandbox as Hsandbox <-.
  apply bind_Ok in Hrun as ([] & s5 & Hwrite & Hrun).
  injection Hrun as <- <- <- <-. split; [done|].
  destruct (equal (attributes result0) (setupUser setup)); simpl in Hwrite.
  - injection Hwrite as <-. done.
  - apply bind_Ok in Hwrite as ([] & s6 & Hupdate & Hwrite).
    injection Hupdate as <-.
    apply bind_Ok in Hwrite as (updates & s7 & Hreevaluate & Hwrite).
    injection Hwrite as <-.
    apply reevaluate_users in Hreevaluate. rewrite Hreevaluate. simpl.
    rewrite Hs3.
    exact (alter_lookup_Some (fun _ => attributes result0) _ _ _ Huser).
Qed.
End WriteBack.

(** ** Backtick-quoted identifiers: [unquote] *)

(** X16.  What the replacement made before parsing does.  A text without a
    backtick is left as it is.  In front of any rest, a backtick-free text
    followed by a non-empty, backtick-free name between backticks loses
    the two backticks, and the replacement goes on after the closing
    backtick.  Two backticks with nothing between them are not a quoted
    name and are kept. *)
Theorem unquote_identifier (before name rest : string) :
  hasBacktick before = false ->
  hasBacktick name = false ->
  unquote before = before
  ∧ (name ≠ "" ->
     unquote (before ++ "`" ++ name ++ "`" ++ rest)
     = before ++ name ++ unquote rest)
  ∧ unquote (before ++ "``") = before ++ "``".
Proof.
  intros Hbefore Hname. unfold unquote. split_and!.
  - rewrite <- (append_nil_r before) at 1.
    rewrite unquoteFrom_plain by done. simpl. by rewrite append_nil_r.
  - intros Hnonempty. rewrite unquoteFrom_plain by done. f_equal.
    rewrite append_cons, append_nil_l. simpl.
    rewrite unquoteFrom_run by done.
    rewrite append_cons, !append_nil_l. simpl.
    destruct name; [done|reflexivity].
  - rewrite unquoteFrom_plain by done. reflexivity.
Qed.

(** ** The configuration diff: what the operations do to a table *)

Lemma lookup_list_to_map_assoc {A : Type} (entries : list (string * A))
    (k : string) :
  (list_to_map entries : gmap string A) !! k = assoc k entries.
Proof.
  induction entries as [|[k' v] entries IH]; simpl; [done|].
  destruct (String.eqb k k') eqn:Hk.
  - apply String.eqb_eq in Hk as ->. by rewrite lookup_insert_eq.
  - apply String.eqb_neq in Hk. by rewrite lookup_insert_ne.
Qed.

Lemma assoc_None {A : Type} (k : string) (l : list (string * A)) :
  k ∉ l.*1 -> assoc k l = None.
Proof.
  induction l as [|[k' v] l IH]; simpl; [done|].
  rewrite not_elem_of_cons. intros [Hne Hin].
  destruct (String.eqb k k') eqn:Hk; [|auto].
  apply String.eqb_eq in Hk. done.
Qed.

Section TableDiff.
Context {A : Type}.
Variable differs : A -> A -> bool.
Hypothesis differs_false : forall a b, differs a b = false -> a = b.
Variable table : Store -> gmap string A.
Variable set_table : gmap string A -> Store -> Store.
Hypothesis table_set : forall m s, table (set_table m s) = m.
Hypothesis set_set : forall m m' s, set_table m (set_table m' s) = set_table m s.
Hypothesis set_same : forall s, set_table (table s) s = s.
Variable apply : Operation A -> M unit.
Hypothesis apply_add : forall id data s,
  table s !! id = None ->
  apply (OpAdd id data) s = (Ok tt, set_table (<[id := data]> (table s)) s).
Hypothesis apply_update : forall id data s,
  is_Some (table s !! id) ->
  apply (OpUpdate id data) s = (Ok tt, set_table (<[id := data]> (table s)) s).
Hypothesis apply_delete : forall id s,
  apply (OpDelete id) s = (Ok tt, set_table (delete id (table s)) s).

Lemma apply_deletions (newIds ids : list string) (s : Store) :
  exists m,
    forEach (flat_map (fun id => if has newIds id then [] else [OpDelete id]) ids)
      apply s = (Ok tt, set_table m s)
    ∧ forall k, m !! k = if bool_decide (k ∈ ids ∧ k ∉ newIds) then None
                         else table s !! k.
Proof.
  revert s. induction ids as [|id ids IH]; intros s.
  - exists (table s). split; [by rewrite set_same|].
    intros k. rewrite bool_decide_eq_false_2; [done|].
    intros [[]%elem_of_nil _].
  - simpl. unfold has. case_bool_decide as Hid; simpl.
    + destruct (IH s) as (m & Hrun & Hm). exists m. split; [done|].
      intros k. rewrite Hm. erewrite bool_decide_ext; [reflexivity|].
      rewrite elem_of_cons. split; [tauto|]. intros [[->|?] ?]; tauto.
    + destruct (IH (set_table (delete id (table s)) s)) as (m & Hrun & Hm).
      exists m. split.
      * unfold forEach. rewrite foldM_cons, apply_delete.
        rewrite <- (set_set m (delete id (table s)) s). exact Hrun.
      * intros k. rewrite Hm, table_set.
        destruct (decide (k = id)) as [->|Hne].
        -- rewrite lookup_delete_eq.
           rewrite (bool_decide_eq_true_2 (id ∈ id :: ids ∧ id ∉ newIds))
             by (split; [left|done]).
           by case_bool_decide.
        -- rewrite lookup_delete_ne by done.
           erewrite bool_decide_ext; [reflexivity|].
           rewrite elem_of_cons. tauto.
Qed.

Lemma apply_additions (oldEntries newEntries : list (string * A))
    (oldIds ids : list string) :
  (forall id, has oldIds id = true -> is_Some (assoc id oldEntries)) ->
  NoDup ids ->
  forall s,
  (forall id, id ∈ ids ->
     is_Some (assoc id newEntries)
     ∧ table s !! id = if has oldIds id then assoc id oldEntries else None) ->
  exists m,
    forEach
      (flat_map (fun id =>
         match assoc id newEntries with
         | None => []
         | Some newEntry =>
             if negb (has oldIds id) then [OpAdd id newEntry]
             else
               match assoc id oldEntries with
               | None => []
               | Some oldEntry =>
                   if differs oldEntry newEntry then [OpUpdate id newEntry]
                   else []
               end
         end) ids) apply s = (Ok tt, set_table m s)
    ∧ forall k, m !! k = if bool_decide (k ∈ ids) then assoc k newEntries
                         else table s !! k.
Proof.
  intros Hold.
  induction 1 as [|id ids Hfresh Hnodup IH]; intros s Hids.
  - exists (table s). split; [by rewrite set_same|].
    intros k. rewrite bool_decide_eq_false_2; [done|]. apply not_elem_of_nil.
  - destruct (Hids id) as [[newEntry Hnew] Hrow]; [left|].
    assert (Hstep : exists s1,
      forEach
        (match assoc id newEntries with
         | None => []
         | Some newEntry =>
             if negb (has oldIds id) then [OpAdd id newEntry]
             else
               match assoc id oldEntries with
               | None => []
               | Some oldEntry =>
                   if differs oldEntry newEntry then [OpUpdate id newEntry]
                   else []
               end
         end) apply s = (Ok tt, s1)
      ∧ s1 = set_table (table s1) s
      ∧ table s1 !! id = Some newEntry
      ∧ forall k, k ≠ id -> table s1 !! k = table s !! k).
    { rewrite Hnew. destruct (has oldIds id) eqn:Hhas; simpl.
      - destruct (Hold id Hhas) as [oldEntry HoldEntry]. rewrite HoldEntry in *.
        destruct (differs oldEntry newEntry) eqn:Hdiffers.
        + eexists. unfold forEach. rewrite foldM_cons, apply_update
            by (rewrite Hrow; by eexists).
          split; [reflexivity|]. rewrite table_set.
          split_and!; [done|by rewrite lookup_insert_eq|].
          intros k Hk. by rewrite lookup_insert_ne.
        + apply differs_false in Hdiffers as ->.
          exists s. split_and!; [done|by rewrite set_same|done|done].
      - eexists. unfold forEach. rewrite foldM_cons, apply_add by done.
        split; [reflexivity|]. rewrite table_set.
        split_and!; [done|by rewrite lookup_insert_eq|].
        intros k Hk. by rewrite lookup_insert_ne. }
    destruct Hstep as (s1 & Hfirst & Hframe & Hthis & Hothers).
    destruct (IH s1) as (m & Hrest & Hm).
    { intros id' Hid'. destruct (Hids id') as [Hnew' Hrow']; [by right|].
      split; [done|]. rewrite Hothers; [done|]. intros ->. done. }
    exists m. split.
    + simpl. rewrite forEach_app. unfold bind. rewrite Hfirst.
      rewrite Hrest, Hframe. by rewrite set_set.
    + intros k. rewrite Hm.
      destruct (decide (k = id)) as [->|Hne].
      * rewrite (bool_decide_eq_false_2 (id ∈ ids)) by done.
        rewrite (bool_decide_eq_true_2 (id ∈ id :: ids)) by left.
        congruence.
      * rewrite Hothers by done. erewrite bool_decide_ext; [reflexivity|].
        rewrite elem_of_cons. tauto.
Qed.

(** Applied to a table that holds the old record, the operations computed
    for a new record all succeed and leave the table holding the new
    record. *)
Lemma computeOperations_apply (oldEntries newEntries : list (string * A))
    (s : Store) :
  table s = list_to_map oldEntries ->
  forEach (computeOperations differs oldEntries newEntries) apply s
  = (Ok tt, set_table (list_to_map newEntries) s).
Proof.
  intros Htable. unfold computeOperations. rewrite forEach_app. unfold bind.
  destruct (apply_deletions (setOf newEntries.*1) (setOf oldEntries.*1) s)
    as (m1 & -> & Hm1).
  destruct (apply_additions oldEntries newEntries (setOf oldEntries.*1)
              (setOf newEntries.*1)) with (s := set_table m1 s)
    as (m2 & -> & Hm2).
  - intros id Hid. apply bool_decide_eq_true in Hid.
    apply assoc_is_Some. by apply elem_of_setOf.
  - apply setOf_NoDup.
  - intros id Hid. split; [by apply assoc_is_Some, elem_of_setOf|].
    rewrite table_set, Hm1, bool_decide_eq_false_2 by tauto.
    rewrite Htable, lookup_list_to_map_assoc. unfold has.
    case_bool_decide as Hold; [done|].
    apply assoc_None. by rewrite <- elem_of_setOf.
  - rewrite set_set. do 2 f_equal. apply map_eq. intros k.
    rewrite Hm2, table_set, Hm1, Htable, !lookup_list_to_map_assoc.
    case_bool_decide as Hnew; [done|].
    rewrite (assoc_None k newEntries) by (by rewrite <- elem_of_setOf).
    case_bool_decide as Hold; [done|].
    apply assoc_None. rewrite <- elem_of_setOf. tauto.
Qed.
End TableDiff.

Section CatalogueDelta.
Variable service : ServiceCall -> M unit.
Hypothesis service_createTemplate : forall id subject html preamble,
  service (createTemplate id subject html preamble)
  = services.createTemplate id subject html preamble.
Hypothesis service_updateTemplate : forall id subject html preamble,
  service (updateTemplate id subject html preamble)
  = services.updateTemplate id subject html preamble.
Hypothesis service_deleteTemplate : forall id,
  service (deleteTemplate id) = services.deleteTemplate id.
Hypothesis service_createTransaction : forall id event subject html preamble,
  service (createTransaction id event subject html preamble)
  = services.createTransaction id event subject html preamble.
Hypothesis service_updateTransaction : forall id event subject html preamble,
  service (updateTransaction id event subject html preamble)
  = services.updateTransaction id event subject html preamble.
Hypothesis service_deleteTransaction : forall id,
  service (deleteTransaction id) = services.deleteTransaction id.
Hypothesis service_setEmailProvider : forall data,
  service (setEmailProvider data) = services.setEmailProvider data.

Lemma templateOperations_apply
    (oldTemplates newTemplates : list (string * Template)) (s : Store) :
  templates s = list_to_map oldTemplates ->
  forEach (computeTemplateOperations oldTemplates newTemplates)
    (fun op =>
       match op with
       | OpAdd id data =>
           service (createTemplate id (subject data) (html data) (preamble data))
       | OpUpdate id data =>
           service (updateTemplate id (subject data) (html data) (preamble data))
       | OpDelete id => service (deleteTemplate id)
       end) s
  = (Ok tt, set_templates (list_to_map newTemplates) s).
Proof.
  apply computeOperations_apply with (table := templates).
  - intros [] []. simpl.
    rewrite !orb_false_iff, !negb_false_iff, !String.eqb_eq.
    by intros [[-> ->] ->].
  - done.
  - done.
  - by intros [].
  - intros id [] s0 Hnone. rewrite service_createTemplate.
    unfold services.createTemplate, bind, select, update. simpl.
    by rewrite Hnone.
  - intros id [] s0 [row Hrow]. rewrite service_updateTemplate.
    unfold services.updateTemplate, bind, select, update. simpl.
    by rewrite Hrow.
  - intros id s0. by rewrite service_deleteTemplate.
Qed.

Lemma transactionOperations_apply
    (oldTransactions newTransactions : list (string * Transaction.t))
    (s : Store) :
  transactions s = list_to_map oldTransactions ->
  forEach (computeTransactionOperations oldTransactions newTransactions)
    (fun op =>
       match op with
       | OpAdd id data =>
           service (createTransaction id (Transaction.event data)
                      (Transaction.subject data) (Transaction.html data)
                      (Transaction.preamble data))
       | OpUpdate id data =>
           service (updateTransaction id (Transaction.event data)
                      (Transaction.subject data) (Transaction.html data)
                      (Transaction.preamble data))
       | OpDelete id => service (deleteTransaction id)
       end) s
  = (Ok tt, set_transactions (list_to_map newTransactions) s).
Proof.
  apply computeOperations_apply with (table := transactions).
  - intros [] []. simpl.
    rewrite !orb_false_iff, !negb_false_iff, !String.eqb_eq.
    by intros [[[-> ->] ->] ->].
  - done.
  - done.
  - by intros [].
  - intros id [] s0 Hnone. rewrite service_createTransaction.
    unfold services.createTransaction, bind, select, update. simpl.
    by rewrite Hnone.
  - intros id [] s0 [row Hrow]. rewrite service_updateTransaction.
    unfold services.updateTransaction, bind, select, update. simpl.
    by rewrite Hrow.
  - intros id s0. by rewrite service_deleteTransaction.
Qed.

(** X17.  Templates, transactions and the email provider follow the pushed
    configuration.  On a store whose tables hold the old records, the
    operations computed for the new records all succeed, in the order the
    executor applies them, and leave the three tables holding exactly the
    new records; nothing else is written. *)
Theorem executeConfigDelta_catalogue
    (oldTemplates newTemplates : list (string * Template))
    (oldTransactions newTransactions : list (string * Transaction.t))
    (oldProvider : option EmailProvider) (newProvider : EmailProvider)
    (s : Store) :
  templates s = list_to_map oldTemplates ->
  transactions s = list_to_map oldTransactions ->
  emailProvider s = oldProvider ->
  executeConfigDelta service
    {| templateOperations :=
         computeTemplateOperations oldTemplates newTemplates;
       segmentOperations := [];
       campaignOperations := [];
       transactionOperations :=
         computeTransactionOperations oldTransactions newTransactions;
       emailProviderOperations :=
         computeEmailProviderOperations oldProvider newProvider |} s
  = (Ok tt,
     set_emailProvider (Some newProvider)
       (set_transactions (list_to_map newTransactions)
          (set_templates (list_to_map newTemplates) s))).
Proof.
  intros Htemplates Htransactions Hprovider.
  unfold executeConfigDelta. simpl.
  unfold bind at 1. rewrite templateOperations_apply by done.
  unfold bind at 1. rewrite transactionOperations_apply by done.
  unfold bind. simpl.
  unfold computeEmailProviderOperations. rewrite <- Hprovider.
  destruct (emailProvider s) as [provider|] eqn:Hold.
  - case_bool_decide as Hsame.
    + subst provider. simpl. do 2 f_equal.
      destruct s; simpl in *. by rewrite Hold.
    + unfold forEach. simpl. rewrite service_setEmailProvider. reflexivity.
  - unfold forEach. simpl. rewrite service_setEmailProvider. reflexivity.
Qed.
End CatalogueDelta.

(** ** The configuration diff: which operations are computed *)

Lemma elem_of_flat_map {A B : Type} (f : A -> list B) (l : list A) (y : B) :
  y ∈ flat_map f l <-> exists x, x ∈ l ∧ y ∈ f x.
Proof.
  rewrite list_elem_of_In, in_flat_map. split.
  - intros (x & Hx & Hy). exists x. by rewrite !list_elem_of_In.
  - intros (x & Hx & Hy). exists x. by rewrite <- !list_elem_of_In.
Qed.

Lemma assoc_Some_key {A : Type} (k : string) (l : list (string * A)) :
  is_Some (assoc k l) <-> k ∈ l.*1.
Proof.
  split; [|apply assoc_is_Some].
  intros [v Hv]. destruct (decide (k ∈ l.*1)) as [|Hk]; [done|].
  rewrite assoc_None in Hv by done. done.
Qed.

(** X18.  The meaning of a computed diff (templates, segments, transactions).
    Each id is the subject of at most one operation; an id is deleted when
    only the old record has it, added (with its new entry) when only the
    new record has it, and updated (with its new entry) when both have it
    and the entries differ. *)
Theorem computeOperations_meaning {A : Type} (differs : A -> A -> bool)
    (oldEntries newEntries : list (string * A)) :
  let operations := computeOperations differs oldEntries newEntries in
  NoDup (operationId <$> operations)
  ∧ (forall id, (OpDelete id ∈ operations)
       <-> id ∈ oldEntries.*1 ∧ id ∉ newEntries.*1)
  ∧ (forall id data, (OpAdd id data ∈ operations)
       <-> (id ∉ oldEntries.*1) ∧ assoc id newEntries = Some data)
  ∧ (forall id data, (OpUpdate id data ∈ operations)
       <-> exists oldData,
             assoc id oldEntries = Some oldData
             ∧ assoc id newEntries = Some data
             ∧ differs oldData data = true).
Proof.
  intros operations.
  assert (Hdelete : forall op : Operation A,
    op ∈ flat_map (fun id => if has (setOf newEntries.*1) id then []
                             else [OpDelete id]) (setOf oldEntries.*1)
    <-> exists id, op = OpDelete id ∧ id ∈ oldEntries.*1 ∧ id ∉ newEntries.*1).
  { intros op. rewrite elem_of_flat_map. unfold has. split.
    - intros (id & Hid & Hop). rewrite elem_of_setOf in Hid.
      case_bool_decide as Hnew; [by apply elem_of_nil in Hop|].
      apply list_elem_of_singleton in Hop. rewrite elem_of_setOf in Hnew.
      by exists id.
    - intros (id & -> & Hold & Hnew). exists id.
      split; [by apply elem_of_setOf|].
      rewrite bool_decide_eq_false_2 by (by rewrite elem_of_setOf).
      by apply list_elem_of_singleton. }
  assert (Hrest : forall op : Operation A,
    op ∈ flat_map (fun id =>
           match assoc id newEntries with
           | None => []
           | Some newEntry =>
               if negb (has (setOf oldEntries.*1) id) then [OpAdd id newEntry]
               else
                 match assoc id oldEntries with
                 | None => []
                 | Some oldEntry =>
                     if differs oldEntry newEntry then [OpUpdate id newEntry]
                     else []
                 end
           end) (setOf newEntries.*1)
    <-> exists id data, assoc id newEntries = Some data
          ∧ ((op = OpAdd id data ∧ id ∉ oldEntries.*1)
             ∨ (op = OpUpdate id data
                ∧ exists oldData, assoc id oldEntries = Some oldData
                    ∧ differs oldData data = true))).
  { intros op. rewrite elem_of_flat_map. unfold has. split.
    - intros (id & Hid & Hop).
      destruct (assoc id newEntries) as [data|] eqn:Hnew;
        [|by apply elem_of_nil in Hop].
      exists id, data. split; [done|].
      case_bool_decide as Hold; simpl in Hop.
      + destruct (assoc id oldEntries) as [oldData|] eqn:HoldData;
          [|by apply elem_of_nil in Hop].
        destruct (differs oldData data) eqn:Hdiffers;
          [|by apply elem_of_nil in Hop].
        apply list_elem_of_singleton in Hop. right. eauto.
      + apply list_elem_of_singleton in Hop. left.
        by rewrite elem_of_setOf in Hold.
    - intros (id & data & Hnew & Hop). exists id. split.
      { apply elem_of_setOf, assoc_Some_key. by eexists. }
      rewrite Hnew. destruct Hop as [[-> Hold]|(-> & oldData & HoldData & Hdiffers)].
      + rewrite bool_decide_eq_false_2 by (by rewrite elem_of_setOf). simpl.
        by apply list_elem_of_singleton.
      + rewrite bool_decide_eq_true_2
          by (apply elem_of_setOf, assoc_Some_key; by eexists).
        simpl. rewrite HoldData, Hdiffers. by apply list_elem_of_singleton. }
  split_and!.
  - destruct (computeOperations_order differs oldEntries newEntries)
      as (deletions & rest & Hops & Hdeletions & _ & Hsub1 & Hsub2).
    subst operations. rewrite Hops, fmap_app. apply NoDup_app. split_and!.
    + eapply sublist_NoDup; [apply setOf_NoDup|exact Hsub1].
    + intros id Hid1 Hid2.
      apply list_elem_of_fmap in Hid1 as (op1 & -> & Hop1).
      assert (Hin1 : op1 ∈ computeOperations differs oldEntries newEntries)
        by (rewrite Hops, elem_of_app; by left).
      unfold computeOperations in Hin1. apply elem_of_app in Hin1 as [Hin1|Hin1].
      * apply Hdelete in Hin1 as (id & -> & _ & Hnew). simpl in Hid2.
        apply Hnew. rewrite <- elem_of_setOf.
        eapply elem_of_sublist; [exact Hid2|exact Hsub2].
      * apply Hrest in Hin1 as (id & data & _ & [[-> _]|[-> _]]);
          rewrite Forall_forall in Hdeletions;
          by specialize (Hdeletions _ Hop1).
    + eapply sublist_NoDup; [apply setOf_NoDup|exact Hsub2].
  - intros id. subst operations. unfold computeOperations.
    rewrite elem_of_app, Hdelete, Hrest. split.
    + intros [(id' & [= <-] & ? & ?)|(id' & data & _ & [[? _]|[? _]])]; done.
    + intros [Hold Hnew]. left. eauto.
  - intros id data. subst operations. unfold computeOperations.
    rewrite elem_of_app, Hdelete, Hrest. split.
    + intros [(id' & ? & _)|(id' & data' & Hnew & [[[= <- <-] Hold]|[? _]])];
        done.
    + intros [Hold Hnew]. right. exists id, data. eauto.
  - intros id data. subst operations. unfold computeOperations.
    rewrite elem_of_app, Hdelete, Hrest. split.
    + intros [(id' & ? & _)|(id' & data' & Hnew & [[? _]|[[= <- <-] Hold]])];
        [done|done|].
      destruct Hold as (oldData & ? & ?). eauto.
    + intros (oldData & Hold & Hnew & Hdiffers). right. exists id, data.
      split; [done|]. right. eauto.
Qed.

(** ** The configuration diff: the first push *)

Lemma setOf_of_NoDup (keys : list string) : NoDup keys -> setOf keys = keys.
Proof.
  induction 1 as [|k keys Hfresh _ IH]; simpl; [done|].
  rewrite IH. f_equal. apply filter_all, Forall_forall.
  intros k' Hk' ->. done.
Qed.

Lemma computeOperations_first {A : Type} (differs : A -> A -> bool)
    (newEntries : list (string * A)) :
  NoDup newEntries.*1 ->
  computeOperations differs [] newEntries
  = (fun entry => OpAdd entry.1 entry.2) <$> newEntries.
Proof.
  intros Hnodup. unfold computeOperations. simpl.
  rewrite setOf_of_NoDup by done.
  assert (Hgen : forall seen entries,
    newEntries = (seen ++ entries)%list ->
    flat_map (fun id =>
      match assoc id newEntries with
      | None => []
      | Some newEntry =>
          if negb (has [] id) then [OpAdd id newEntry]
          else match assoc id ([] : list (string * A)) with
               | None => []
               | Some oldEntry =>
                   if differs oldEntry newEntry then [OpUpdate id newEntry]
                   else []
               end
      end) entries.*1
    = (fun entry => OpAdd entry.1 entry.2) <$> entries).
  { intros seen entries. revert seen.
    induction entries as [|[id data] entries IH]; intros seen Hsplit; [done|].
    rewrite fmap_cons. cbn [flat_map fmap list_fmap fst snd].
    rewrite (IH (seen ++ [(id, data)])%list)
      by (by rewrite <- app_assoc).
    assert (Hassoc : assoc id newEntries = Some data).
    { rewrite <- lookup_list_to_map_assoc. apply elem_of_list_to_map; [done|].
      rewrite Hsplit, elem_of_app. right. left. }
    rewrite Hassoc. reflexivity. }
  by apply (Hgen []).
Qed.

Lemma campaignAddsAndUpdates_first (ids : list string)
    (newCampaigns : list (string * CampaignConfig.t)) :
  campaignAddsAndUpdates [] [] ids newCampaigns
  = (flat_map (fun id =>
       match assoc id newCampaigns with
       | None => []
       | Some newCampaign => [OpAdd id newCampaign]
       end) ids,
     newCampaigns).
Proof.
  induction ids as [|id ids IH]; simpl; [done|].
  rewrite IH. destruct (assoc id newCampaigns); reflexivity.
Qed.

Lemma flat_map_adds {A : Type} (newEntries : list (string * A)) :
  NoDup newEntries.*1 ->
  flat_map (fun id =>
    match assoc id newEntries with
    | None => []
    | Some newEntry => [OpAdd id newEntry]
    end) newEntries.*1
  = (fun entry => OpAdd entry.1 entry.2) <$> newEntries.
Proof.
  intros Hnodup.
  assert (Hgen : forall seen entries,
    newEntries = (seen ++ entries)%list ->
    flat_map (fun id =>
      match assoc id newEntries with
      | None => []
      | Some newEntry => [OpAdd id newEntry]
      end) entries.*1
    = (fun entry => OpAdd entry.1 entry.2) <$> entries).
  { intros seen entries. revert seen.
    induction entries as [|[id data] entries IH]; intros seen Hsplit; [done|].
    rewrite fmap_cons. cbn [flat_map fmap list_fmap fst snd].
    rewrite (IH (seen ++ [(id, data)])%list)
      by (by rewrite <- app_assoc).
    assert (Hassoc : assoc id newEntries = Some data).
    { rewrite <- lookup_list_to_map_assoc. apply elem_of_list_to_map; [done|].
      rewrite Hsplit, elem_of_app. right. left. }
    rewrite Hassoc. reflexivity. }
  by apply (Hgen []).
Qed.

(** X19.  The first push.  With no configuration accepted yet, and the keys of
    each record pairwise distinct, [analyzeConfig] asks for every entry of
    the pushed configuration to be added, in key order, and for the email
    provider to be set; it deletes and updates nothing, and leaves the
    pushed configuration as it is. *)
Theorem analyzeConfig_first_push (newConfig : Segflow.t) (s : Store) :
  configs s = [] ->
  NoDup (Segflow.templates newConfig).*1 ->
  NoDup (Segflow.segments newConfig).*1 ->
  NoDup (Segflow.campaigns newConfig).*1 ->
  NoDup (Segflow.transactions newConfig).*1 ->
  analyzeConfig newConfig s
  = (Ok ({| templateOperations :=
              (fun entry => OpAdd entry.1 entry.2)
                <$> Segflow.templates newConfig;
            segmentOperations :=
              (fun entry => OpAdd entry.1 entry.2)
                <$> Segflow.segments newConfig;
            campaignOperations :=
              (fun entry => OpAdd entry.1 entry.2)
                <$> Segflow.campaigns newConfig;
            transactionOperations :=
              (fun entry => OpAdd entry.1 entry.2)
                <$> Segflow.transactions newConfig;
            emailProviderOperations := [Segflow.emailProvider newConfig] |},
         newConfig), s).
Proof.
  intros Hconfigs Htemplates Hsegments Hcampaigns Htransactions.
  unfold analyzeConfig, bind, select, ret. rewrite Hconfigs. simpl.
  unfold computeTemplateOperations, computeSegmentOperations,
    computeTransactionOperations, computeCampaignOperations.
  rewrite !computeOperations_first by done. simpl.
  rewrite campaignAddsAndUpdates_first, setOf_of_NoDup, flat_map_adds by done.
  by destruct newConfig.
Qed.

(** ** [createConfig]: all or nothing *)

Section ConfigPush.
Variable service : ServiceCall -> M unit.
Variable jsonColumn : Segflow.t -> Segflow.t.

Lemma nextConfigId_fresh (s : Store) (row : ConfigRow) :
  row ∈ configs s -> (configId row < nextConfigId s)%Z.
Proof.
  unfold nextConfigId. induction (configs s) as [|r rows IH].
  - by intros ?%elem_of_nil.
  - rewrite fmap_cons. simpl. intros [->|Hin]%elem_of_cons; [lia|].
    specialize (IH Hin). lia.
Qed.

(** X20.  The three ways a push ends.  Either nothing had to change: the store
    is untouched and the result is "no changes".  Or an operation failed:
    the error is thrown on and the store is as before the push, nothing of
    the operations already applied remaining.  Or every operation of the
    delta was applied: one row is appended to the ledger, holding the
    configuration (as the JSON column keeps it) and the time of the push
    under an id greater than every id of the ledger, and that id is
    returned. *)
Theorem createConfig_outcomes (now : Z) (config : Segflow.t) (s : Store) :
  exists delta config',
    analyzeConfig config s = (Ok (delta, config'), s)
    ∧ ((noOperations delta
        ∧ createConfig service jsonColumn now config s = (Ok None, s))
       ∨ (exists message s1,
            executeConfigDelta service delta s = (Throw message, s1)
            ∧ createConfig service jsonColumn now config s = (Throw message, s))
       ∨ (exists s1,
            executeConfigDelta service delta s = (Ok tt, s1)
            ∧ createConfig service jsonColumn now config s
              = (Ok (Some (nextConfigId s1)),
                 set_configs
                   (configs s1 ++
                    [{| configId := nextConfigId s1;
                        configJson := jsonColumn config';
                        createdAt := now |}]) s1)
            ∧ forall row, row ∈ configs s1 ->
                (configId row < nextConfigId s1)%Z)).
Proof.
  destruct (analyzeConfig_reads config s) as (delta & config' & Hanalyze & _).
  exists delta, config'. split; [done|].
  unfold createConfig, transaction, bind. rewrite Hanalyze.
  destruct ((length (templateOperations delta) =? 0)%nat
            && (length (segmentOperations delta) =? 0)%nat
            && (length (campaignOperations delta) =? 0)%nat
            && (length (transactionOperations delta) =? 0)%nat
            && (length (emailProviderOperations delta) =? 0)%nat) eqn:Hempty.
  - left. split; [|reflexivity].
    repeat (apply andb_true_iff in Hempty as [Hempty ?]).
    unfold noOperations.
    split_and!; apply length_zero_iff_nil, Nat.eqb_eq; done.
  - right. destruct (executeConfigDelta service delta s) as [[[]|e] s1].
    + right. exists s1. split; [done|].
      unfold select, update, ret. simpl. rewrite nextConfigId_positive. simpl.
      split; [done|]. apply nextConfigId_fresh.
    + left. exists e, s1. done.
Qed.

Lemma campaignDiffers_true (oldCampaign newCampaign : CampaignConfig.t) :
  campaignKey oldCampaign ≠ campaignKey newCampaign ->
  (campaignDiffers oldCampaign newCampaign).1 = true.
Proof.
  intros Hkey. destruct (campaignDiffers oldCampaign newCampaign).1 eqn:Hdiffers;
    [done|]. exfalso. apply Hkey. revert Hdiffers.
  unfold campaignDiffers, campaignKey, stringifyDiffers.
  destruct oldCampaign as [flow1 behavior1 segments1 exclude1],
    newCampaign as [flow2 behavior2 segments2 exclude2]; simpl.
  destruct (String.eqb flow1 flow2) eqn:Hflow; simpl; [|done].
  apply String.eqb_eq in Hflow as ->.
  case_bool_decide as Hbehavior; simpl; [|done]. subst behavior2.
  case_bool_decide as Hsegments; simpl; [|done]. rewrite Hsegments.
  intros Hexclude%negb_false_iff%bool_decide_eq_true.
  by rewrite Hexclude.
Qed.

Lemma campaignAddsAndUpdates_update
    (oldCampaigns : list (string * CampaignConfig.t)) (oldIds ids : list string)
    (original : list (string * CampaignConfig.t)) (id : string)
    (oldCampaign newCampaign : CampaignConfig.t) :
  has oldIds id = true ->
  assoc id oldCampaigns = Some oldCampaign ->
  assoc id original = Some newCampaign ->
  campaignKey oldCampaign ≠ campaignKey newCampaign ->
  id ∈ ids ->
  forall newCampaigns, sameCampaigns original newCampaigns ->
  exists data,
    OpUpdate id data
    ∈ (campaignAddsAndUpdates oldCampaigns oldIds ids newCampaigns).1.
Proof.
  intros Hhas Hold Hnew Hkey.
  induction ids as [|id' ids IH]; [by intros ?%elem_of_nil|].
  intros Hin newCampaigns Hsame. simpl.
  destruct (decide (id' = id)) as [->|Hne].
  - pose proof (sameCampaigns_assoc _ _ id Hsame) as Hassoc.
    rewrite Hnew in Hassoc.
    destruct (assoc id newCampaigns) as [current|]; [|done].
    rewrite Hhas, Hold. simpl.
    pose proof (campaignDiffers_true oldCampaign current) as Htrue.
    destruct (campaignDiffers oldCampaign current) as [differs current'].
    simpl in Htrue. rewrite Htrue by congruence.
    destruct (campaignAddsAndUpdates _ _ ids _) as [operations newCampaigns'].
    simpl. exists current'. left.
  - apply elem_of_cons in Hin as [->|Hin]; [done|].
    destruct (assoc id' newCampaigns) as [current|] eqn:Hcurrent; [|by apply IH].
    destruct (has oldIds id'); simpl.
    + destruct (assoc id' oldCampaigns) as [oldCampaign'|]; [|by apply IH].
      pose proof (campaignDiffers_key oldCampaign' current) as [Hkept _].
      destruct (campaignDiffers oldCampaign' current) as [differs current'].
      destruct (IH Hin (assign id' current' newCampaigns)) as [data Hdata].
      { by eapply sameCampaigns_assign. }
      destruct (campaignAddsAndUpdates _ _ ids _) as [operations newCampaigns'].
      simpl in *. exists data. destruct differs; [by right|done].
    + destruct (IH Hin newCampaigns Hsame) as [data Hdata].
      destruct (campaignAddsAndUpdates _ _ ids _) as [operations newCampaigns'].
      simpl in *. exists data. by right.
Qed.

Lemma performAll_rejects (actions : list Action) (message : string) :
  Reject message ∈ actions ->
  forall s, exists thrown s', performAll service actions s = (Throw thrown, s').
Proof.
  unfold performAll, forEach.
  induction actions as [|action actions IH]; [by intros ?%elem_of_nil|].
  intros Hin s. rewrite foldM_cons.
  destruct (perform service action s) as [[[]|e] s1] eqn:Hstep; [|by eauto].
  apply elem_of_cons in Hin as [<-|Hin]; [done|]. by apply IH.
Qed.

(** X21.  A changed campaign makes the push fail.  When the pushed configuration
    has a campaign of the last accepted configuration with another flow,
    behavior, set of segments or set of excluded segments, [createConfig]
    throws, and the store is as before the push. *)
Theorem createConfig_rejects_campaign_update (now : Z) (config : Segflow.t)
    (s : Store) (row : ConfigRow) (id : string)
    (oldCampaign newCampaign : CampaignConfig.t) :
  latestConfig (configs s) = Some row ->
  assoc id (Segflow.campaigns (configJson row)) = Some oldCampaign ->
  assoc id (Segflow.campaigns config) = Some newCampaign ->
  campaignKey oldCampaign ≠ campaignKey newCampaign ->
  exists message, createConfig service jsonColumn now config s = (Throw message, s).
Proof.
  intros Hlatest Hold Hnew Hkey.
  unfold createConfig, transaction, bind at 1.
  unfold bind at 1, analyzeConfig, bind at 1, select at 1, ret.
  rewrite Hlatest. simpl.
  assert (Hupdate : exists data,
    OpUpdate id data
    ∈ (computeCampaignOperations (Segflow.campaigns (configJson row))
         (Segflow.campaigns config)).1).
  { unfold computeCampaignOperations.
    destruct (campaignAddsAndUpdates_update
                (Segflow.campaigns (configJson row))
                (setOf (Segflow.campaigns (configJson row)).*1)
                (setOf (Segflow.campaigns config).*1)
                (Segflow.campaigns config) id oldCampaign newCampaign)
      with (newCampaigns := Segflow.campaigns config) as [data Hdata];
      try done.
    - apply bool_decide_eq_true, elem_of_setOf, assoc_Some_key. by eexists.
    - apply elem_of_setOf, assoc_Some_key. by eexists.
    - apply sameCampaigns_refl.
    - destruct (campaignAddsAndUpdates _ _ _ _) as [operations newCampaigns'].
      simpl in *. exists data. apply elem_of_app. by right. }
  destruct (computeCampaignOperations _ _) as [operations newCampaigns].
  destruct Hupdate as [data Hdata]. simpl in *.
  destruct operations as [|operation operations]; [by apply elem_of_nil in Hdata|].
  simpl. rewrite andb_false_r. simpl. unfold bind at 1.
  rewrite executeConfigDelta_performAll.
  match goal with
  | |- context [performAll service (deltaActions ?delta) s] =>
      destruct (performAll_rejects (deltaActions delta)
                  ("campaign updates are not supported: tried to update '"
                   ++ id ++ "'")) with (s := s) as (thrown & s' & ->)
  end.
  - unfold deltaActions. rewrite !elem_of_app. do 3 right. left.
    apply list_elem_of_fmap. exists (OpUpdate id data). done.
  - by exists thrown.
Qed.
End ConfigPush.

(** ** Users: [createUser], [updateUser], [deleteUser] *)

Lemma assoc_setProp (k k' : string) (v : JSValue)
    (props : list (string * JSValue)) :
  assoc k' (setProp k v props)
  = if String.eqb k' k then Some v else assoc k' props.
Proof.
  induction props as [|[k0 w] props IH]; simpl.
  - by destruct (String.eqb k' k).
  - destruct (String.eqb k k0) eqn:Hk; simpl.
    + apply String.eqb_eq in Hk as ->. by destruct (String.eqb k' k0).
    + destruct (String.eqb k' k0) eqn:Hk'; [|exact IH].
      apply String.eqb_eq in Hk' as ->.
      destruct (String.eqb k0 k) eqn:Hk0; [|done].
      apply String.eqb_eq in Hk0 as ->. by rewrite String.eqb_refl in Hk.
Qed.

Lemma assoc_foldl_setProp (k : string) (entries : list (string * JSValue)) :
  NoDup entries.*1 ->
  forall props,
  assoc k (foldl (fun props entry => setProp entry.1 entry.2 props) props entries)
  = match assoc k entries with
    | Some v => Some v
    | None => assoc k props
    end.
Proof.
  induction entries as [|[k1 v1] entries IH]; intros Hnodup props; [done|].
  rewrite fmap_cons in Hnodup. apply NoDup_cons in Hnodup as [Hfresh Hnodup].
  simpl. rewrite IH by done. rewrite assoc_setProp.
  destruct (String.eqb k k1) eqn:Hk; [|done].
  apply String.eqb_eq in Hk as ->. by rewrite assoc_None.
Qed.

Lemma foldl_setProp_copy (props : list (string * JSValue)) :
  NoDup props.*1 ->
  forall copied, NoDup ((copied ++ props)%list).*1 ->
  foldl (fun props entry => setProp entry.1 entry.2 props) copied props
  = (copied ++ props)%list.
Proof.
  induction props as [|[k v] props IH]; intros Hnodup copied Hall.
  - by rewrite app_nil_r.
  - rewrite fmap_cons in Hnodup. apply NoDup_cons in Hnodup as [_ Hnodup].
    simpl. assert (Hset : setProp k v copied = (copied ++ [(k, v)])%list).
    { rewrite fmap_app, fmap_cons in Hall. apply NoDup_app in Hall as (_ & Hfresh & _).
      clear -Hfresh. induction copied as [|[k0 w] copied IH]; simpl; [done|].
      destruct (String.eqb k k0) eqn:Hk.
      - apply String.eqb_eq in Hk as ->. exfalso.
        apply (Hfresh k0); simpl; left.
      - f_equal. apply IH. intros x Hx. apply Hfresh. simpl. by right. }
    rewrite Hset, IH; [by rewrite <- app_assoc|done|by rewrite <- app_assoc].
Qed.

Section UserProperties.
Variable segmentMatchesUser : Store -> string -> string -> outcome bool.

(** X22.  [updateUser] merges.  An unknown user gives "user not found" and
    nothing is written.  Otherwise, when the update succeeds, the stored
    attributes of the user (and of no other) become the spread of the old
    attributes and the request: each key of the request has its new value,
    every other key the value it had.  Spreading an object with pairwise
    distinct keys over nothing gives that object back. *)
Theorem updateUser_merges (now : Z) (userId : string)
    (attributes : list (string * JSValue)) (s : Store) :
  NoDup attributes.*1 ->
  (users s !! userId = None ->
   services.updateUser segmentMatchesUser now userId attributes s
   = (Throw "user not found", s))
  ∧ (forall existing updates s',
       users s !! userId = Some existing ->
       services.updateUser segmentMatchesUser now userId attributes s
       = (Ok updates, s') ->
       users s' = <[userId := spread existing attributes]> (users s)
       ∧ forall k,
           prop (spread existing attributes) k
           = match assoc k attributes with
             | Some v => v
             | None => prop (spread existing []) k
             end)
  ∧ (forall props, NoDup props.*1 -> spread (JObj props) [] = JObj props).
Proof.
  intros Hnodup. split_and!.
  - intros Hnone.
    unfold services.updateUser, transaction, bind, select, throw.
    by rewrite Hnone.
  - intros existing updates s' Hexisting.
    unfold services.updateUser, transaction, bind at 1, select at 1.
    rewrite Hexisting. unfold bind at 1, update at 1.
    destruct (reevaluateUserMembershipsAfterAttributeChange _ _ _ _ _ _)
      as [[updates'|e] s1] eqn:Hrun; [|done].
    intros [= <- <-]. apply reevaluate_users in Hrun. split.
    + rewrite Hrun. simpl.
      exact (alter_lookup_Some (fun _ => spread existing attributes) _ _ _
               Hexisting).
    + intros k. unfold spread, prop. simpl.
      rewrite assoc_foldl_setProp by done.
      by destruct (assoc k attributes).
  - intros props Hprops. unfold spread. simpl. f_equal.
    by apply (foldl_setProp_copy props Hprops []).
Qed.

(** X23.  [createUser].  An id already in use is refused by the primary key and
    nothing is written.  For a new id, in a store where every execution
    row has a membership and with an SQL engine that evaluates the
    segments without error, the user is stored with the given attributes
    and, for every campaign reported as added, is a member with a
    [pending] execution due at once. *)
Theorem createUser_starts (now : Z) (id : string) (attributes : JSValue)
    (s : Store) :
  (is_Some (users s !! id) ->
   services.createUser segmentMatchesUser now id attributes s
   = (Throw ("Duplicate entry '" ++ id ++ "' for key 'users.PRIMARY'"), s))
  ∧ (users s !! id = None ->
     (forall s evaluator, exists isMatch,
        segmentMatchesUser s evaluator id = Ok isMatch) ->
     executionsHaveMembership s ->
     exists segmentUpdates campaignUpdates s',
       services.createUser segmentMatchesUser now id attributes s
       = (Ok (segmentUpdates, campaignUpdates), s')
       ∧ users s' = <[id := attributes]> (users s)
       ∧ forall c, c ∈ added campaignUpdates ->
           isMember s' id c
           ∧ executions s' !! (id, c) = Some (pendingExecution now)).
Proof.
  split.
  - intros [existing Hexisting].
    unfold services.createUser, transaction, bind, select, throw.
    by rewrite Hexisting.
  - intros Hnew Hsql Hfk.
    destruct (reevaluate_run segmentMatchesUser now id
                "initial user evaluation" None
                (set_users (<[id := attributes]> (users s)) s) Hsql Hfk)
      as (segmentUpdates & campaignUpdates & s1 & s2 & s3
          & Hframe1 & Hcampaigns & Hrun & Hframe3 & Hrows).
    destruct (evaluateUserCampaigns_evaluated id s1)
      as (results & s2' & Hcampaigns' & Hchanged & _ & _ & Hreport & _).
    rewrite Hcampaigns in Hcampaigns'. injection Hcampaigns' as <- <-.
    destruct Hreport as (Hadded & _).
    exists segmentUpdates, campaignUpdates, s3. split_and!.
    + unfold services.createUser, transaction, bind at 1, select at 1.
      rewrite Hnew. unfold bind at 1, update at 1. by rewrite Hrun.
    + by rewrite (reevaluate_users _ _ _ _ _ _ _ Hrun).
    + intros c Hc. split.
      * unfold isMember. rewrite Hframe3. simpl. apply Hadded in Hc. tauto.
      * rewrite Hrows. by rewrite decide_True.
Qed.

(** X24.  [deleteUser] and the foreign keys.  A user who is a member of a
    campaign cannot be deleted: the deletion fails and nothing is
    written.  A user without campaign membership is deleted together with
    the user's events and segment memberships; the other users, their
    events and their memberships stay.  Deleting an unknown user does
    nothing. *)
Theorem deleteUser_restricted (userId : string) (s : Store) :
  (forall c, is_Some (users s !! userId) -> isMember s userId c ->
     services.deleteUser userId s
     = (Throw "Cannot delete or update a parent row: a foreign key constraint fails",
        s))
  ∧ (is_Some (users s !! userId) -> (forall c, ~ isMember s userId c) ->
     exists s',
       services.deleteUser userId s = (Ok tt, s')
       ∧ users s' = delete userId (users s)
       ∧ (forall e, e ∈ events s' <-> e ∈ events s ∧ eventUserId e ≠ userId)
       ∧ (forall u segmentId,
            (u, segmentId) ∈ segmentUsers s'
            <-> (u, segmentId) ∈ segmentUsers s ∧ u ≠ userId))
  ∧ (users s !! userId = None -> services.deleteUser userId s = (Ok tt, s)).
Proof.
  unfold services.deleteUser, deleteUserRow, bind, select, update, throw, ret.
  split_and!.
  - intros c [existing ->] Hmember. simpl.
    destruct (whereFirst userId (campaignUsers s)) as [|r rows] eqn:Hrows;
      [|done].
    exfalso. assert (Hin : (userId, c) ∈ whereFirst userId (campaignUsers s))
      by (by apply elem_of_whereFirst).
    rewrite Hrows in Hin. by apply elem_of_nil in Hin.
  - intros [existing ->] Hnone. simpl.
    assert (Hrows : whereFirst userId (campaignUsers s) = []).
    { destruct (whereFirst userId (campaignUsers s)) as [|[u c] rows] eqn:Hrows;
        [done|].
      assert (Hin : (u, c) ∈ whereFirst userId (campaignUsers s))
        by (rewrite Hrows; left).
      apply elem_of_whereFirst in Hin as [Hin Hu]. simpl in Hu. subst u.
      by destruct (Hnone c). }
    rewrite Hrows. eexists. split; [reflexivity|]. simpl. split_and!.
    + done.
    + intros e. rewrite list_elem_of_filter. tauto.
    + intros u segmentId. rewrite elem_of_filter. simpl. tauto.
  - by intros ->.
Qed.
End UserProperties.

(** ** Deleting a segment or a campaign *)

Lemma omap_nil {A B : Type} (f : A -> option B) (l : list A) :
  (forall x, x ∈ l -> f x = None) -> omap f l = [].
Proof.
  induction l as [|x l IH]; intros Hf; [done|]. simpl.
  rewrite Hf by left. apply IH. intros y Hy. apply Hf. by right.
Qed.

Lemma filter_nil_all {A : Type} (P : A -> Prop) `{forall x, Decision (P x)}
    (l : list A) :
  (forall x, x ∈ l -> ~ P x) -> filter P l = [].
Proof.
  induction l as [|x l IH]; intros Hnone; [done|].
  rewrite filter_cons_False by (apply Hnone; left).
  apply IH. intros y Hy. apply Hnone. by right.
Qed.

Lemma checkSegmentDeletionConstraints_referenced (segmentId c : string)
    (s : Store) :
  is_Some (campaigns s !! c) ->
  (c, segmentId) ∈ schema.campaignSegments s
  ∨ (c, segmentId) ∈ schema.campaignExcludeSegments s ->
  exists reference references,
    checkSegmentDeletionConstraints segmentId s
    = (Ok (Some (reference :: references)), s).
Proof.
  intros [campaign Hcampaign] Hreferenced.
  unfold checkSegmentDeletionConstraints, bind, select, ret.
  match goal with
  | |- context [omap ?f (map_to_list (campaigns s))] =>
      assert (Hrow : exists reference,
        reference ∈ omap f (map_to_list (campaigns s)))
  end.
  { setoid_rewrite list_elem_of_omap.
    destruct (decide ((c, segmentId) ∈ schema.campaignSegments s)) as [Hin|Hout].
    - exists (c, include), (c, campaign).
      split; [by apply elem_of_map_to_list|]. simpl.
      by rewrite bool_decide_eq_true_2.
    - exists (c, exclude), (c, campaign).
      split; [by apply elem_of_map_to_list|]. simpl.
      rewrite bool_decide_eq_false_2 by done.
      rewrite bool_decide_eq_true_2 by tauto. done. }
  destruct (omap _ _) as [|reference references].
  { destruct Hrow as [reference []%elem_of_nil]. }
  simpl. by eexists _, _.
Qed.

Lemma checkSegmentDeletionConstraints_free (segmentId : string) (s : Store) :
  (forall c, ((c, segmentId) ∉ schema.campaignSegments s)
             ∧ ((c, segmentId) ∉ schema.campaignExcludeSegments s)) ->
  checkSegmentDeletionConstraints segmentId s = (Ok None, s).
Proof.
  intros Hfree.
  unfold checkSegmentDeletionConstraints, bind, select, ret.
  rewrite omap_nil; [done|].
  intros [c campaign] _. simpl. destruct (Hfree c) as [Hin Hex].
  by rewrite !bool_decide_eq_false_2.
Qed.

(** X25.  [deleteSegment].  A segment that a campaign includes or excludes
    cannot be deleted: the call throws and nothing is written.  A segment
    that no campaign relation mentions is deleted together with its
    memberships and its event triggers; the other segments keep theirs.
    For an unknown segment that nothing mentions the call does nothing. *)
Theorem deleteSegment_guarded (segmentId : string) (s : Store) :
  (forall c, is_Some (campaigns s !! c) ->
     (c, segmentId) ∈ schema.campaignSegments s
     ∨ (c, segmentId) ∈ schema.campaignExcludeSegments s ->
     exists message, services.deleteSegment segmentId s = (Throw message, s))
  ∧ ((forall c, ((c, segmentId) ∉ schema.campaignSegments s)
                ∧ ((c, segmentId) ∉ schema.campaignExcludeSegments s)) ->
     (is_Some (segments s !! segmentId) ->
      exists s',
        services.deleteSegment segmentId s = (Ok tt, s')
        ∧ segments s' = delete segmentId (segments s)
        ∧ (forall u id, (u, id) ∈ segmentUsers s'
             <-> (u, id) ∈ segmentUsers s ∧ id ≠ segmentId)
        ∧ (forall id event, (id, event) ∈ segmentEventTriggers s'
             <-> (id, event) ∈ segmentEventTriggers s ∧ id ≠ segmentId))
     ∧ (segments s !! segmentId = None ->
        services.deleteSegment segmentId s = (Ok tt, s))).
Proof.
  unfold services.deleteSegment, transaction, bind.
  split.
  - intros c Hcampaign Hreferenced.
    destruct (checkSegmentDeletionConstraints_referenced segmentId c s
                Hcampaign Hreferenced) as (reference & references & ->).
    by eexists.
  - intros Hfree.
    rewrite checkSegmentDeletionConstraints_free by done.
    unfold deleteSegmentRow, bind, select, update, ret.
    assert (Hreferences :
      filter (fun r : string * string => r.2 = segmentId)
        (elements (schema.campaignSegments s)
         ++ elements (schema.campaignExcludeSegments s))%list = []).
    { apply filter_nil_all. intros [c id] Hin. simpl. intros ->.
      destruct (Hfree c) as [Hout1 Hout2].
      apply elem_of_app in Hin as [Hin|Hin]; apply elem_of_elements in Hin; done. }
    split.
    + intros [evaluator ->]. simpl. rewrite Hreferences.
      eexists. split; [reflexivity|]. simpl. split_and!; [done| |].
      * intros u id. rewrite elem_of_filter. simpl. tauto.
      * intros id event. rewrite elem_of_filter. simpl. tauto.
    + by intros ->.
Qed.

Lemma killExecution_keeps (userId campaignId reason : string) (s : Store) :
  exists s',
    killExecution userId campaignId reason s = (Ok tt, s')
    ∧ s' = set_executions (executions s') s
    ∧ (forall key, is_Some (executions s' !! key)
         <-> is_Some (executions s !! key))
    ∧ (forall key, key ≠ (userId, campaignId) ->
         executions s' !! key = executions s !! key).
Proof.
  unfold killExecution, updateExecution, bind, select, update, ret. simpl.
  destruct (executions s !! (userId, campaignId)) as [row|] eqn:Hrow.
  - eexists. split; [reflexivity|]. simpl. split_and!; [done| |].
    + intros key. destruct (decide (key = (userId, campaignId))) as [->|Hne].
      * rewrite lookup_alter_eq, Hrow. simpl. split; by eexists.
      * by rewrite lookup_alter_ne.
    + intros key Hne. by rewrite lookup_alter_ne.
  - exists s. split_and!; [done|by destruct s|done|done].
Qed.

(** X26.  [deleteCampaign], in a store whose execution rows have a membership
    and whose history rows have an execution.  Deleting a campaign
    returns the numbers of its memberships and of its executions, and
    leaves no trace of it: the campaign, its segment relations, its
    memberships, its executions (those it has just marked [terminated]
    included) and their history are gone, while every row of another
    campaign stays as it was. *)
Theorem deleteCampaign_cascade (campaignId : string) (s : Store) :
  is_Some (campaigns s !! campaignId) ->
  executionsHaveMembership s ->
  historyHasExecution s ->
  exists response s',
    services.deleteCampaign campaignId s = (Ok response, s')
    ∧ deletedMemberships response
      = length (filter (fun r : string * string => r.2 = campaignId)
                  (elements (campaignUsers s)))
    ∧ deletedExecutions response
      = length (filter (fun row : string * string * Execution =>
                          row.1.2 = campaignId)
                  (map_to_list (executions s)))
    ∧ campaigns s' = delete campaignId (campaigns s)
    ∧ (forall c segmentId,
         ((c, segmentId) ∈ schema.campaignSegments s'
          <-> (c, segmentId) ∈ schema.campaignSegments s ∧ c ≠ campaignId)
         ∧ ((c, segmentId) ∈ schema.campaignExcludeSegments s'
            <-> (c, segmentId) ∈ schema.campaignExcludeSegments s
                ∧ c ≠ campaignId))
    ∧ (forall u c, (u, c) ∈ campaignUsers s'
         <-> (u, c) ∈ campaignUsers s ∧ c ≠ campaignId)
    ∧ (forall u c, executions s' !! (u, c)
         = if decide (c = campaignId) then None else executions s !! (u, c))
    ∧ (forall h, h ∈ executionHistory s'
         <-> h ∈ executionHistory s ∧ historyCampaignId h ≠ campaignId).
Proof.
  intros [campaign Hcampaign] Hfk Hhistory.
  unfold services.deleteCampaign, transaction, bind at 1, select at 1.
  unfold bind at 1, select at 1. unfold bind at 1.
  destruct (foldM_invariant
              (fun (_ : unit) (execution : string * string * Execution) =>
                 killExecution execution.1.1 campaignId "Campaign deleted")
              (fun _ _ s1 =>
                 s1 = set_executions (executions s1) s
                 ∧ (forall key, is_Some (executions s1 !! key)
                      <-> is_Some (executions s !! key))
                 ∧ (forall key, key.2 ≠ campaignId ->
                      executions s1 !! key = executions s !! key))
              (filter (fun row : string * string * Execution =>
                         row.1.2 = campaignId)
                 (map_to_list (executions s)))) with (acc := tt) (s := s)
    as ([] & s1 & Hkills & Hframe & Hdomain & Hothers).
  { intros _ [[u c] row] _ [] s0 _ (Hframe0 & Hdomain0 & Hothers0).
    destruct (killExecution_keeps u campaignId "Campaign deleted" s0)
      as (s1 & Hkill & Hframe1 & Hdomain1 & Hothers1).
    exists tt, s1. simpl. split; [done|]. split_and!.
    - rewrite Hframe1, Hframe0. reflexivity.
    - intros key. by rewrite Hdomain1, Hdomain0.
    - intros key Hkey. rewrite Hothers1, Hothers0; [done|done|].
      intros ->. done. }
  { split_and!; [by destruct s|done|done]. }
  unfold forEach. rewrite Hkills.
  unfold bind at 1, deleteCampaignRow, bind at 1, select at 1.
  assert (Hcampaigns1 : campaigns s1 = campaigns s) by (by rewrite Hframe).
  assert (Hmembers1 : campaignUsers s1 = campaignUsers s) by (by rewrite Hframe).
  assert (Hhistory1 : executionHistory s1 = executionHistory s)
    by (by rewrite Hframe).
  rewrite Hcampaigns1, Hcampaign. unfold update, ret. simpl.
  eexists _, _. split; [reflexivity|]. simpl.
  rewrite Hcampaigns1, Hmembers1, Hhistory1.
  split_and!; [done|done|done| | | |].
  - intros c segmentId. rewrite !elem_of_filter. simpl.
    replace (schema.campaignSegments s1) with (schema.campaignSegments s)
      by (by rewrite Hframe).
    replace (schema.campaignExcludeSegments s1)
      with (schema.campaignExcludeSegments s) by (by rewrite Hframe).
    tauto.
  - intros u c. rewrite elem_of_difference, elem_of_filter. simpl.
    destruct (decide (c = campaignId)); tauto.
  - intros u c. destruct (decide (c = campaignId)) as [->|Hc].
    + apply map_lookup_filter_None. right. intros row Hrow Hnot. simpl in Hnot.
      apply Hnot, elem_of_filter. simpl. split; [done|].
      apply Hfk, Hdomain. by eexists.
    + rewrite <- Hothers by done.
      destruct (executions s1 !! (u, c)) as [row|] eqn:Hrow.
      * apply map_lookup_filter_Some. split; [done|]. simpl.
        rewrite elem_of_filter. simpl. tauto.
      * apply map_lookup_filter_None. by left.
  - intros h. rewrite list_elem_of_filter. split.
    + intros [Hkept Hin]. split; [done|]. intros Hc. apply Hkept.
      destruct (Hhistory h Hin) as [row Hrow].
      destruct (proj2 (Hdomain (historyUserId h, historyCampaignId h)))
        as [row1 Hrow1]; [by eexists|].
      exists row1. apply map_lookup_filter_Some. split; [done|]. simpl.
      apply elem_of_filter. simpl. split; [done|]. apply Hfk. by eexists.
    + intros [Hin Hc]. split; [|done]. intros [row Hrow].
      apply map_lookup_filter_Some in Hrow as [_ Hgone]. simpl in Hgone.
      apply elem_of_filter in Hgone as [Hgone _]. done.
Qed.

(** ** Events: [createEvent] and [sendTransactionEmail] *)

Lemma membershipsOnly_refl (s : Store) : membershipsOnly s s.
Proof. reflexivity. Qed.

Lemma membershipsOnly_trans (s1 s2 s3 : Store) :
  membershipsOnly s1 s2 -> membershipsOnly s2 s3 -> membershipsOnly s1 s3.
Proof.
  unfold membershipsOnly. congruence.
Qed.

Lemma membershipsOnly_bind {A B : Type} (m : M A) (k : A -> M B)
    (s s' : Store) (o : outcome B) :
  (forall o1 s1, m s = (o1, s1) -> membershipsOnly s s1) ->
  (forall a s1 o2 s2, k a s1 = (o2, s2) -> membershipsOnly s1 s2) ->
  bind m k s = (o, s') -> membershipsOnly s s'.
Proof.
  intros Hm Hk. unfold bind. destruct (m s) as [[a|e] s1] eqn:Hrun.
  - intros Hrest. eapply membershipsOnly_trans; [by eapply Hm|by eapply Hk].
  - intros [= <- <-]. by eapply Hm.
Qed.

Lemma membershipsOnly_foldM {A B : Type} (body : B -> A -> M B) (l : list A) :
  (forall acc x s o s', body acc x s = (o, s') -> membershipsOnly s s') ->
  forall acc s o s', foldM body acc l s = (o, s') -> membershipsOnly s s'.
Proof.
  intros Hbody acc s o s'.
  apply (foldM_preserves body (membershipsOnly s)).
  - intros acc1 x s1 o1 s2 H1 Hstep.
    eapply membershipsOnly_trans; [exact H1|by eapply Hbody].
  - apply membershipsOnly_refl.
Qed.

Lemma membershipsOnly_killExecution (userId campaignId reason : string)
    (s s' : Store) (o : outcome unit) :
  killExecution userId campaignId reason s = (o, s') -> membershipsOnly s s'.
Proof.
  unfold killExecution, updateExecution, bind, select, update, ret. simpl.
  destruct (executions s !! _); intros [= <- <-]; reflexivity.
Qed.

Lemma membershipsOnly_createExecution (now : Z) (userId campaignId : string)
    (s s' : Store) (o : outcome unit) :
  createExecution now userId campaignId s = (o, s') -> membershipsOnly s s'.
Proof.
  unfold createExecution, bind, select, update, throw. simpl.
  destruct (campaigns s !! _); [|intros [= <- <-]; reflexivity].
  destruct (bool_decide _); simpl; [|intros [= <- <-]; reflexivity].
  destruct (executions s !! _); intros [= <- <-]; reflexivity.
Qed.

Lemma membershipsOnly_evaluateUserCampaigns (userId : string) (s s' : Store)
    (o : outcome CampaignChanges) :
  evaluateUserCampaigns userId s = (o, s') -> membershipsOnly s s'.
Proof.
  intros Hrun.
  destruct (evaluateUserCampaigns_evaluated userId s)
    as (results & s1 & Hrun1 & ((Hframe & _) & _)).
  rewrite Hrun in Hrun1. injection Hrun1 as -> ->.
  unfold membershipsOnly. rewrite Hframe. reflexivity.
Qed.

(** The id of the next event row is the id of no stored event. *)
Lemma nextEventId_fresh (s : Store) (event : EventRow) :
  event ∈ events s -> eventId event ≠ nextEventId s.
Proof.
  unfold nextEventId. intros Hin.
  assert (eventId event <= foldr Z.max 0 (eventId <$> events s))%Z; [|lia].
  induction (events s) as [|e l IH]; [by apply elem_of_nil in Hin|].
  rewrite fmap_cons. cbn [foldr].
  apply elem_of_cons in Hin as [->|Hin]; [lia|].
  specialize (IH Hin). lia.
Qed.

Section EventProperties.
Variable segmentMatchesUser : Store -> string -> string -> outcome bool.
Variable evalSandboxedWithUserAndEvent
  : string -> JSValue -> JSValue -> outcome string.
Variable renderTransaction
  : string -> string -> JSValue -> JSValue -> outcome string.
Variable deliver : EmailProvider -> Email -> outcome unit.

Lemma membershipsOnly_segmentUsers (s0 : Store) (v : gset (string * string)) :
  membershipsOnly s0 (set_segmentUsers v s0).
Proof. reflexivity. Qed.

Lemma membershipsOnly_evaluateUserSegments (userId : string) (s s' : Store)
    (o : outcome CampaignChanges) :
  evaluateUserSegments segmentMatchesUser userId s = (o, s') ->
  membershipsOnly s s'.
Proof.
  unfold evaluateUserSegments, bind at 1, select at 1.
  unfold bind at 1, select at 1.
  apply membershipsOnly_foldM.
  intros results [id evaluator] s1 o1 s2. unfold bind.
  destruct (segmentMatchesUser s1 evaluator userId) as [isMatch|e];
    [|intros [= <- <-]; apply membershipsOnly_refl].
  destruct (negb _); [|intros [= <- <-]; apply membershipsOnly_refl].
  destruct isMatch; intros [= <- <-]; apply membershipsOnly_segmentUsers.
Qed.

Lemma membershipsOnly_evaluateUserSegmentsAfterEvent (userId eventName : string)
    (s s' : Store) (o : outcome CampaignChanges) :
  evaluateUserSegmentsAfterEvent segmentMatchesUser userId eventName s
  = (o, s') ->
  membershipsOnly s s'.
Proof.
  unfold evaluateUserSegmentsAfterEvent, bind at 1, select at 1.
  apply membershipsOnly_foldM.
  intros results [segmentId name] s1 o1 s2. unfold bind, select. simpl.
  destruct (segments s1 !! segmentId) as [evaluator|];
    [|intros [= <- <-]; apply membershipsOnly_refl].
  destruct (segmentMatchesUser s1 evaluator userId) as [isMatch|e];
    [|intros [= <- <-]; apply membershipsOnly_refl].
  destruct (negb _); [|intros [= <- <-]; apply membershipsOnly_refl].
  destruct isMatch; intros [= <- <-]; apply membershipsOnly_segmentUsers.
Qed.

(** Whatever its outcome, the reevaluation writes memberships, executions
    and history only. *)
Lemma membershipsOnly_reevaluate (now : Z) (userId reason : string)
    (event : option string) (s s' : Store)
    (o : outcome (CampaignChanges * CampaignChanges)) :
  reevaluateUserMembershipsAfterAttributeChange segmentMatchesUser now
    userId reason event s = (o, s') ->
  membershipsOnly s s'.
Proof.
  unfold reevaluateUserMembershipsAfterAttributeChange.
  apply membershipsOnly_bind.
  { intros o1 s1. destruct event.
    - apply membershipsOnly_evaluateUserSegmentsAfterEvent.
    - apply membershipsOnly_evaluateUserSegments. }
  intros segmentUpdates s1 o2 s2. apply membershipsOnly_bind.
  { intros o3 s3. apply membershipsOnly_evaluateUserCampaigns. }
  intros campaignUpdates s3 o4 s4. apply membershipsOnly_bind.
  { intros o5 s5. unfold forEach. apply membershipsOnly_foldM.
    intros [] campaignId s6 o6 s7. apply membershipsOnly_createExecution. }
  intros [] s5 o6 s6. apply membershipsOnly_bind.
  { intros o7 s7 [= <- <-]. apply membershipsOnly_refl. }
  intros dynamicCampaigns s7 o8 s8. apply membershipsOnly_bind.
  { intros o9 s9. unfold forEach. apply membershipsOnly_foldM.
    intros [] campaign s10 o10 s11. apply membershipsOnly_killExecution. }
  intros [] s9 o10 s10 [= <- <-]. apply membershipsOnly_refl.
Qed.

(** [sendTransactionEmail] writes the sent mail only: it throws and leaves
    the store as it was, or appends one email. *)
Lemma sendTransactionEmail_outbox (transactionId : string) (eventId' : Z)
    (s s' : Store) (o : outcome unit) :
  sendTransactionEmail evalSandboxedWithUserAndEvent renderTransaction
    deliver transactionId eventId' s = (o, s') ->
  s' = s ∨ exists email, s' = set_outbox (outbox s ++ [email]) s.
Proof.
  unfold sendTransactionEmail, bind at 1, select at 1.
  destruct (head _) as [event|]; [|intros [= <- <-]; by left].
  unfold bind at 1, select at 1.
  destruct (transactions s !! transactionId) as [transaction|];
    [|intros [= <- <-]; by left].
  destruct (negb _); [intros [= <- <-]; by left|].
  unfold bind at 1, select at 1.
  destruct (users s !! _) as [user|]; [|intros [= <- <-]; by left].
  unfold bind at 1, lift at 1.
  destruct (evalSandboxedWithUserAndEvent _ _ _) as [subject|e];
    [|intros [= <- <-]; by left].
  unfold bind at 1, lift at 1.
  destruct (renderTransaction _ _ _ _) as [html|e];
    [|intros [= <- <-]; by left].
  unfold try_catch, bind at 1, lift at 1.
  destruct (get user "email") as [to'|e]; [|intros [= <- <-]; by left].
  unfold sendEmail, getEmailProvider, bind, select, lift, update, throw, ret.
  destruct (emailProvider s) as [provider|]; [|intros [= <- <-]; by left].
  destruct (deliver provider _) as [[]|e]; intros [= <- <-]; [|by left].
  right. by eexists.
Qed.

(** X27.  [sendTransactionEmail] either throws and leaves the store as it
    was, or delivers exactly one email: the event exists, the transaction
    exists and is declared for the event's name, and the email goes to the
    [email] attribute of the event's user, through the configured provider,
    with the subject and the body computed from the user's and the event's
    attributes. *)
Theorem sendTransactionEmail_sends (transactionId : string) (eventId' : Z)
    (s : Store) :
  match sendTransactionEmail evalSandboxedWithUserAndEvent renderTransaction
          deliver transactionId eventId' s with
  | (Throw _, s') => s' = s
  | (Ok _, s') =>
      exists event transaction user provider email,
        event ∈ events s
        ∧ eventId event = eventId'
        ∧ transactions s !! transactionId = Some transaction
        ∧ Transaction.event transaction = eventName event
        ∧ users s !! eventUserId event = Some user
        ∧ emailProvider s = Some provider
        ∧ get user "email" = Ok (to email)
        ∧ evalSandboxedWithUserAndEvent (Transaction.subject transaction) user
            (eventAttributes event) = Ok (emailSubject email)
        ∧ renderTransaction (Transaction.html transaction)
            (Transaction.preamble transaction) user (eventAttributes event)
          = Ok (emailHtml email)
        ∧ deliver provider email = Ok tt
        ∧ s' = set_outbox (outbox s ++ [email]) s
  end.
Proof.
  unfold sendTransactionEmail, bind at 1, select at 1.
  destruct (head _) as [event|] eqn:Hevent; [|reflexivity].
  apply head_Some_elem_of, list_elem_of_filter in Hevent as [Hid Hevent].
  unfold bind at 1, select at 1.
  destruct (transactions s !! transactionId) as [transaction|] eqn:Htransaction;
    [|reflexivity].
  destruct (String.eqb _ _) eqn:Hname; [|reflexivity]. simpl.
  apply String.eqb_eq in Hname.
  unfold bind at 1, select at 1.
  destruct (users s !! _) as [user|] eqn:Huser; [|reflexivity].
  unfold bind at 1, lift at 1.
  destruct (evalSandboxedWithUserAndEvent _ _ _) as [subject|e] eqn:Hsubject;
    [|reflexivity].
  unfold bind at 1, lift at 1.
  destruct (renderTransaction _ _ _ _) as [html|e] eqn:Hhtml; [|reflexivity].
  unfold try_catch, bind at 1, lift at 1.
  destruct (get user "email") as [to'|e] eqn:Hto; [|reflexivity].
  unfold sendEmail, getEmailProvider, bind, select, lift, update, throw, ret.
  destruct (emailProvider s) as [provider|] eqn:Hprovider; [|reflexivity].
  destruct (deliver provider _) as [[]|e] eqn:Hdeliver; [|reflexivity].
  exists event, transaction, user, provider,
    {| to := to'; emailSubject := subject; emailHtml := html |}.
  by split_and!.
Qed.

(** X28.  [createEvent] for an unknown user is refused by the foreign key
    and stores nothing.  For a known user, in a store where every execution
    row has a membership and when every segment query answers, it returns
    the membership changes whatever happens to the transactional email: the event row is appended under a fresh id, nothing but the
    events, the memberships, the executions, the history and the sent mail
    changes, at most one email is sent, and none when no transaction is
    declared for the event's name. *)
Theorem createEvent_outcomes (now : Z) (userId name : string)
    (attributes : JSValue) (s : Store) :
  (users s !! userId = None ->
   services.createEvent segmentMatchesUser evalSandboxedWithUserAndEvent
     renderTransaction deliver now userId name attributes s
   = (Throw "Cannot add or update a child row: a foreign key constraint fails",
      s))
  ∧ (is_Some (users s !! userId) ->
     (forall s evaluator, exists isMatch,
        segmentMatchesUser s evaluator userId = Ok isMatch) ->
     executionsHaveMembership s ->
     exists updates s',
       services.createEvent segmentMatchesUser evalSandboxedWithUserAndEvent
         renderTransaction deliver now userId name attributes s
       = (Ok updates, s')
       ∧ events s'
         = (events s ++ [{| eventId := nextEventId s; eventName := name;
                            eventUserId := userId;
                            eventAttributes := attributes |}])%list
       ∧ (forall event, event ∈ events s -> eventId event ≠ nextEventId s)
       ∧ membershipsOnly (set_outbox (outbox s') (set_events (events s') s)) s'
       ∧ (outbox s' = outbox s
          ∨ exists email, outbox s' = (outbox s ++ [email])%list)
       ∧ ((forall id transaction,
             transactions s !! id = Some transaction ->
             Transaction.event transaction ≠ name) ->
          outbox s' = outbox s)).
Proof.
  split.
  - intros Huser. unfold services.createEvent, bind at 1, transaction.
    unfold bind at 1, select at 1. by rewrite Huser.
  - intros [user Huser] Hsql Hfk.
    unfold services.createEvent, bind at 1, transaction.
    unfold bind at 1, select at 1. rewrite Huser.
    unfold bind at 1, select at 1. unfold bind at 1, update at 1.
    set (row := {| eventId := nextEventId s |}).
    set (s0 := set_events _ s).
    destruct (reevaluate_run segmentMatchesUser now userId
                ("user removed due to event: " ++ name) (Some name) s0 Hsql)
      as (segmentUpdates & campaignUpdates & s1 & s2 & s3 & _ & _ & Hrun & _);
      [exact Hfk|].
    unfold bind at 1. rewrite Hrun. unfold ret at 1.
    apply membershipsOnly_reevaluate in Hrun.
    unfold membershipsOnly, otherTables in Hrun. simpl in Hrun.
    injection Hrun as Husers Hevents Hsegments Htriggers Hcampaigns Hincluded
      Hexcluded Htemplates Htransactions Hprovider Hconfigs Houtbox.
    pose proof (nextEventId_fresh s) as Hfresh.
    assert (Hsent : exists s4,
      try_catch
        (let! matchingTransaction :=
           select (fun s =>
             head (filter (fun row => Transaction.event row.2 = name)
                     (map_to_list (transactions s)))) in
         match matchingTransaction with
         | None => ret tt
         | Some (transactionId, _) =>
             sendTransactionEmail evalSandboxedWithUserAndEvent
               renderTransaction deliver transactionId (nextEventId s)
         end)
        (fun _ => ret tt) s3 = (Ok tt, s4)
      ∧ (s4 = s3
         ∨ (exists email, s4 = set_outbox (outbox s3 ++ [email]) s3)
           ∧ exists id transaction,
               transactions s !! id = Some transaction
               ∧ Transaction.event transaction = name)).
    { unfold try_catch, bind at 1, select at 1.
      destruct (head _) as [[transactionId transaction]|] eqn:Hmatching;
        [|eexists; split; [reflexivity|by left]].
      destruct (sendTransactionEmail _ _ _ _ _ s3) as [o s4] eqn:Hsend.
      apply sendTransactionEmail_outbox in Hsend as [->|Hsend].
      - exists s3. split; [by destruct o as [[]|]|by left].
      - exists s4. split.
        + by destruct o as [[]|].
        + right. split; [exact Hsend|].
          apply head_Some_elem_of, list_elem_of_filter in Hmatching
            as [Hname Hrow].
          apply elem_of_map_to_list in Hrow. rewrite Htransactions in Hrow.
          by eexists _, _. }
    destruct Hsent as (s4 & Hrun4 & Hsent). cbn beta iota.
    unfold bind at 1. rewrite Hrun4. unfold ret.
    eexists _, _. split; [reflexivity|].
    destruct Hsent as [->|[[email ->] (id & transaction & Hrow & Hname)]].
    + split_and!.
      * by rewrite Hevents.
      * exact Hfresh.
      * unfold membershipsOnly, otherTables. simpl. congruence.
      * by left.
      * by intros _.
    + simpl. split_and!.
      * by rewrite Hevents.
      * exact Hfresh.
      * unfold membershipsOnly, otherTables. simpl. congruence.
      * right. exists email. by rewrite Houtbox.
      * intros Hnone. by destruct (Hnone _ _ Hrow).
Qed.
End EventProperties.

(** ** Instances of the further properties on the example data *)

Lemma executeGeneratorToIndex_reads_prefix_witness :
  executeGeneratorToIndex startFlow welcomeFlow "welcome" [JNull; JNull] 1
  = executeGeneratorToIndex startFlow welcomeFlow "welcome"
      [JNull; JNull; JStr "later"] 1.
Proof.
  apply (executeGeneratorToIndex_reads_prefix startFlow welcomeFlow "welcome"
           [JNull; JNull] [JNull; JNull; JStr "later"] 1).
  reflexivity.
Defined.

Lemma executeGeneratorToIndex_done_stable_witness :
  executeGeneratorToIndex startFlow welcomeFlow "welcome"
    [JNull; JNull; JNull; JNull] 3
  = Ok {| value := JUndefined; done := true; attributes := JNull |}.
Proof.
  apply (executeGeneratorToIndex_done_stable startFlow welcomeFlow "welcome"
           [JNull; JNull; JNull; JNull] 2 3).
  - vm_compute. reflexivity.
  - reflexivity.
  - lia.
Defined.

Lemma executeGeneratorToIndex_yield_earlier_witness :
  exists result',
    executeGeneratorToIndex startFlow welcomeFlow "welcome" [JNull; JNull] 0
    = Ok result'
    ∧ done result' = false.
Proof.
  apply (executeGeneratorToIndex_yield_earlier startFlow welcomeFlow "welcome"
           [JNull; JNull] 1 0
           {| value := rt_wait (JObj [("days", JNum 1)]); done := false;
              attributes := JNull |}).
  - vm_compute. reflexivity.
  - reflexivity.
  - lia.
Defined.

Lemma processExecution_dynamic_exit_witness :
  processExecution startFlow welcomeFlow (fun _ _ => Ok "")
    (fun _ _ _ => Ok "") (fun _ _ _ => Ok true) (fun _ _ => Ok tt) (fun _ _ => 0%Z)
    (fun _ _ => None) (fun _ _ => None) 0 claimedRow lapsedStore
  = (Ok true,
     (killExecution "u1" "trial" "User no longer matches campaign criteria"
        (set_executionHistory
           [{| historyUserId := "u1"; historyCampaignId := "trial";
               stepIndex := 0;
               historyAttributes := JObj [("email", JStr "a@x")] |}]
           lapsedStore)).2).
Proof.
  apply (processExecution_dynamic_exit startFlow welcomeFlow
           (fun _ _ => Ok "") (fun _ _ _ => Ok "") (fun _ _ _ => Ok true)
           (fun _ _ => Ok tt) (fun _ _ => 0%Z) (fun _ _ => None) (fun _ _ => None) 0
           claimedRow lapsedStore _ trialCampaign
           (JObj [("email", JStr "a@x")])
           {| value := rt_sendEmail (JStr "welcome"); done := false;
              attributes := JObj [("email", JStr "a@x")] |}).
  - vm_compute. reflexivity.
  - reflexivity.
  - reflexivity.
  - intros Hmatches. apply shouldBeInCampaign_spec in Hmatches.
    vm_compute in Hmatches. discriminate.
Defined.


Lemma handleExecutionCommand_send_email_witness :
  handleExecutionCommand (fun _ _ => Ok "Welcome") (fun _ _ _ => Ok "<p>Hi</p>")
    (fun _ _ => Ok tt) (fun _ _ => 0%Z) (fun _ _ => None) (fun _ _ => None) 5
    (rt_sendEmail (JStr "welcome")) claimedRow
    (JObj [("email", JStr "a@x")]) joinedStore
  = (Throw "template not found: welcome", joinedStore)
  ∧ handleExecutionCommand (fun _ _ => Ok "Welcome")
      (fun _ _ _ => Ok "<p>Hi</p>") (fun _ _ => Ok tt) (fun _ _ => 0%Z) (fun _ _ => None)
      (fun _ _ => None) 5 (rt_sendEmail (JStr "welcome")) claimedRow
      (JObj [("email", JStr "a@x")]) mailStore
    = (Ok tt,
       set_executions
         (alter (fun row => {| status := sleeping; sleepUntil := 5;
                               error := error row |})
            ("u1", "trial") (executions mailStore))
         (set_outbox
            [{| to := JStr "a@x"; emailSubject := "Welcome";
                emailHtml := "<p>Hi</p>" |}] mailStore)).
Proof.
  split.
  - refine (proj1 (handleExecutionCommand_send_email (fun _ _ => Ok "Welcome")
                     (fun _ _ _ => Ok "<p>Hi</p>") (fun _ _ => Ok tt) (fun _ _ => 0%Z)
                     (fun _ _ => None) (fun _ _ => None) 5 "welcome"
                     claimedRow (JObj [("email", JStr "a@x")]) (JStr "a@x")
                     joinedStore _) _).
    + reflexivity.
    + vm_compute. reflexivity.
  - refine (proj2 (handleExecutionCommand_send_email (fun _ _ => Ok "Welcome")
                     (fun _ _ _ => Ok "<p>Hi</p>") (fun _ _ => Ok tt) (fun _ _ => 0%Z)
                     (fun _ _ => None) (fun _ _ => None) 5 "welcome"
                     claimedRow (JObj [("email", JStr "a@x")]) (JStr "a@x")
                     mailStore _) welcomeV1 "Welcome" "<p>Hi</p>" _ _ _).
    + reflexivity.
    + vm_compute. reflexivity.
    + reflexivity.
    + reflexivity.
Defined.

Lemma setupExecutionState_attributeStates_witness :
  let setup :=
    {| setupCampaign := trialCampaign;
       setupUser := JObj [("email", JStr "a@x")];
       setupStepIndex := 0;
       setupAttributeStates := [JObj [("email", JStr "a@x")]] |} in
  setupExecutionState claimedRow joinedStore = (Ok setup, joinedStore)
  ∧ campaigns joinedStore !! "trial" = Some (setupCampaign setup)
  ∧ users joinedStore !! "u1" = Some (setupUser setup)
  ∧ length (setupAttributeStates setup) = Z.to_nat (setupStepIndex setup + 1)
  ∧ last (setupAttributeStates setup) = Some (setupUser setup).
Proof.
  intros setup.
  assert (Hrun : setupExecutionState claimedRow joinedStore
                 = (Ok setup, joinedStore)) by (vm_compute; reflexivity).
  split; [exact Hrun|].
  destruct (setupExecutionState_attributeStates claimedRow joinedStore
              joinedStore setup Hrun) as (_ & Hcampaign & Huser & Hlength
                                          & Hlast & _).
  by split_and!.
Defined.

Lemma evaluateUserCampaigns_idempotent_witness :
  evaluateUserCampaigns "u1" trialStore
  = (Ok {| added := ["trial"]; removed := [] |},
     joinCampaign "u1" "trial" trialStore)
  ∧ evaluateUserCampaigns "u1" (joinCampaign "u1" "trial" trialStore)
    = (Ok {| added := []; removed := [] |},
       joinCampaign "u1" "trial" trialStore).
Proof.
  assert (Hrun : evaluateUserCampaigns "u1" trialStore
                 = (Ok {| added := ["trial"]; removed := [] |},
                    joinCampaign "u1" "trial" trialStore))
    by (vm_compute; reflexivity).
  split; [exact Hrun|].
  exact (evaluateUserCampaigns_idempotent "u1" trialStore _ _ Hrun).
Defined.

Lemma evaluateUserCampaigns_cascade_witness :
  evaluateUserCampaigns "u1" lapsedStore
  = (Ok {| added := []; removed := ["trial"] |},
     leaveCampaign "u1" "trial" lapsedStore)
  ∧ membershipsChanged lapsedStore (leaveCampaign "u1" "trial" lapsedStore)
  ∧ (forall c, c ∈ ["trial"] ->
       executions (leaveCampaign "u1" "trial" lapsedStore) !! ("u1", c) = None)
  ∧ (executionsHaveMembership lapsedStore ->
     executionsHaveMembership (leaveCampaign "u1" "trial" lapsedStore)).
Proof.
  assert (Hrun : evaluateUserCampaigns "u1" lapsedStore
                 = (Ok {| added := []; removed := ["trial"] |},
                    leaveCampaign "u1" "trial" lapsedStore))
    by (vm_compute; reflexivity).
  split; [exact Hrun|].
  exact (evaluateUserCampaigns_cascade "u1" lapsedStore _ _ Hrun).
Defined.

Lemma reevaluateUserMemberships_starts_executions_witness :
  exists segmentUpdates campaignUpdates s',
    reevaluateUserMembershipsAfterAttributeChange (fun _ _ _ => Ok true) 7
      "u1" "initial user evaluation" None trialStore
    = (Ok (segmentUpdates, campaignUpdates), s')
    ∧ (forall c, c ∈ added campaignUpdates ->
         isMember s' "u1" c
         ∧ executions s' !! ("u1", c) = Some (pendingExecution 7))
    ∧ executionsHaveMembership s'.
Proof.
  apply (reevaluateUserMemberships_starts_executions (fun _ _ _ => Ok true) 7
           "u1" "initial user evaluation" None trialStore).
  - intros s evaluator. by exists true.
  - intros key [row Hrow]. simpl in Hrow. by rewrite lookup_empty in Hrow.
Defined.

Lemma reevaluateUserMemberships_drops_executions_witness :
  exists segmentUpdates campaignUpdates s',
    reevaluateUserMembershipsAfterAttributeChange (fun _ _ _ => Ok false) 7
      "u1" "User was updated and no longer matches campaign criteria" None
      joinedStore
    = (Ok (segmentUpdates, campaignUpdates), s')
    ∧ forall c, c ∈ removed campaignUpdates ->
        ~ isMember s' "u1" c
        ∧ executions s' !! ("u1", c) = None
        ∧ forall h, h ∈ executionHistory s' ->
            ~ (historyUserId h = "u1" ∧ historyCampaignId h = c).
Proof.
  apply (reevaluateUserMemberships_drops_executions (fun _ _ _ => Ok false) 7
           "u1" "User was updated and no longer matches campaign criteria"
           None joinedStore).
  - intros s evaluator. by exists false.
  - intros key [row Hrow]. simpl in Hrow.
    apply lookup_singleton_Some in Hrow as [<- _].
    vm_compute. reflexivity.
Defined.

Lemma advanceExecution_writes_back_witness :
  users joinedStore !! "u1" = Some (JObj [("email", JStr "a@x")])
  ∧ users (advanceExecution startFlow upgradeFlow (fun _ _ _ => Ok true) 0
             claimedRow joinedStore).2
    = <["u1" := JObj [("email", JStr "a@x"); ("plan", JStr "pro")]]>
        (users joinedStore).
Proof.
  apply (advanceExecution_writes_back startFlow upgradeFlow
           (fun _ _ _ => Ok true) 0 claimedRow joinedStore _ trialCampaign
           (JObj [("email", JStr "a@x")])
           {| value := rt_wait (JObj [("days", JNum 1)]); done := false;
              attributes := JObj [("email", JStr "a@x"); ("plan", JStr "pro")] |}).
  vm_compute. reflexivity.
Defined.

Lemma unquote_identifier_witness :
  unquote "SELECT id FROM " = "SELECT id FROM "
  ∧ ("users" ≠ "" ->
     unquote ("SELECT id FROM " ++ "`" ++ "users" ++ "`" ++ " WHERE `plan` = 'pro'")
     = "SELECT id FROM " ++ "users" ++ unquote " WHERE `plan` = 'pro'")
  ∧ unquote ("SELECT id FROM " ++ "``") = "SELECT id FROM " ++ "``".
Proof.
  apply (unquote_identifier "SELECT id FROM " "users" " WHERE `plan` = 'pro'");
    reflexivity.
Defined.

Lemma executeConfigDelta_catalogue_witness :
  executeConfigDelta catalogueServices
    {| templateOperations :=
         computeTemplateOperations [("welcome", welcomeV1)]
           [("welcome", welcomeV2); ("goodbye", goodbye)];
       segmentOperations := [];
       campaignOperations := [];
       transactionOperations := computeTransactionOperations [] [];
       emailProviderOperations :=
         computeEmailProviderOperations None provider |} templateStore
  = (Ok tt,
     set_emailProvider (Some provider)
       (set_transactions (list_to_map [])
          (set_templates
             (list_to_map [("welcome", welcomeV2); ("goodbye", goodbye)])
             templateStore))).
Proof.
  apply (executeConfigDelta_catalogue catalogueServices);
    try (intros; reflexivity).
Defined.

Lemma analyzeConfig_first_push_witness :
  analyzeConfig configV1 emptyStore
  = (Ok ({| templateOperations := [OpAdd "welcome" welcomeV1];
            segmentOperations := [OpAdd "all" "SELECT id FROM users"];
            campaignOperations :=
              (fun entry => OpAdd entry.1 entry.2)
                <$> Segflow.campaigns configV1;
            transactionOperations := [];
            emailProviderOperations := [provider] |},
         configV1), emptyStore).
Proof.
  apply (analyzeConfig_first_push configV1 emptyStore).
  - reflexivity.
  - apply NoDup_singleton.
  - apply NoDup_singleton.
  - apply NoDup_singleton.
  - apply NoDup_nil_2.
Defined.

Lemma createConfig_rejects_campaign_update_witness :
  exists message,
    createConfig templateServices (fun document => document) 200 configV3
      storeV1
    = (Throw message, storeV1).
Proof.
  apply (createConfig_rejects_campaign_update templateServices
           (fun document => document) 200 configV3 storeV1
           {| configId := 1; configJson := configV1; createdAt := 100 |}
           "onboarding"
           {| CampaignConfig.flow := "function* (ctx, rt) { }";
              CampaignConfig.behavior := static;
              CampaignConfig.segments := ["b"; "a"];
              CampaignConfig.excludeSegments := None |}
           {| CampaignConfig.flow := "function* (ctx, rt) { }";
              CampaignConfig.behavior := dynamic;
              CampaignConfig.segments := ["b"; "a"];
              CampaignConfig.excludeSegments := None |}).
  - reflexivity.
  - reflexivity.
  - reflexivity.
  - vm_compute. discriminate.
Defined.

Lemma updateUser_merges_witness :
  services.updateUser (fun _ _ _ => Ok true) 0 "u2" [("plan", JStr "pro")]
    trialStore
  = (Throw "user not found", trialStore)
  ∧ (forall updates s',
       services.updateUser (fun _ _ _ => Ok true) 0 "u1"
         [("plan", JStr "pro")] trialStore
       = (Ok updates, s') ->
       users s'
       = <["u1" := JObj [("email", JStr "a@x"); ("plan", JStr "pro")]]>
           (users trialStore)).
Proof.
  split.
  - refine (proj1 (updateUser_merges (fun _ _ _ => Ok true) 0 "u2"
                     [("plan", JStr "pro")] trialStore _) _).
    + apply NoDup_singleton.
    + reflexivity.
  - intros updates s' Hrun.
    refine (proj1 (proj1 (proj2 (updateUser_merges (fun _ _ _ => Ok true) 0
                             "u1" [("plan", JStr "pro")] trialStore _))
                     (JObj [("email", JStr "a@x")]) updates s' _ Hrun)).
    + apply NoDup_singleton.
    + reflexivity.
Defined.

Lemma deleteCampaign_cascade_witness :
  exists response s',
    services.deleteCampaign "trial" joinedStore = (Ok response, s')
    ∧ deletedMemberships response = 1%nat
    ∧ deletedExecutions response = 1%nat
    ∧ campaigns s' = delete "trial" (campaigns joinedStore)
    ∧ (forall u c, (u, c) ∈ campaignUsers s'
         <-> (u, c) ∈ campaignUsers joinedStore ∧ c ≠ "trial")
    ∧ (forall u c, executions s' !! (u, c)
         = if decide (c = "trial") then None
           else executions joinedStore !! (u, c)).
Proof.
  destruct (deleteCampaign_cascade "trial" joinedStore)
    as (response & s' & Hrun & Hmemberships & Hexecutions & Hcampaigns & _
        & Hmembers & Hrows & _).
  - by eexists.
  - intros key [row Hrow]. simpl in Hrow.
    apply lookup_singleton_Some in Hrow as [<- _].
    vm_compute. reflexivity.
  - intros h Hh. by apply elem_of_nil in Hh.
  - exists response, s'. split_and!; try done.
Defined.
